(** * travel_location_finder: a shallow embedding of [main.go]

    The program looks up, for every attendee of the configuration, the
    cheapest round trip to one destination.  This file embeds
    [travel_location_finder/main.go] and proves properties of it.

    - Part 1: the data of the [flights] package that [main.go] touches.
    - Part 2: the two selection loops ([lookup_flight_time], lines 100-106,
      and [GetActualOffers], lines 151-156).
    - Part 3: the sequential code, in a state-and-exit monad over an
      abstract outside world (clock, configuration file, pricing service).
    - Part 4: the goroutines of [main], [Processor] and [GetActualOffers]
      as a transition system driven by a scheduler; a goroutine that has
      reached [log.Fatal] ends the process at a move of its own, so that
      the other goroutines can still move in between.
    - Part 5: a scripted world, for concrete runs.
    - Part 6: what is read off a trace and off a process state, and the
      invariants of the process.
    - Parts 7 to 13: the theorems. *)

From Stdlib Require Import ZArith Floats Lia.
From stdpp Require Import base option list strings.

Local Open Scope string_scope.
Local Open Scope Z_scope.
Local Open Scope list_scope.

(* ===================================================================== *)
(** ** Part 1: data *)
(* ===================================================================== *)

(** [time.Time] is an instant; the program only passes instants around,
    shifts them with [AddDate] and subtracts two of them ([time.Since]).
    We count nanoseconds.  [time.Duration] is an [int64] of nanoseconds;
    the program compares durations and never adds them. *)
Definition Time := Z.
Definition Duration := Z.

Definition Nanosecond : Duration := 1.
Definition Microsecond : Duration := 1000 * Nanosecond.
Definition Millisecond : Duration := 1000 * Microsecond.
Definition Second : Duration := 1000 * Millisecond.
Definition Minute : Duration := 60 * Second.
Definition Hour : Duration := 60 * Minute.

(** The enumerations of the [flights] package.  In Go they are integers
    whose zero value is "not set"; only the constants [main.go] names and
    the zero value are listed. *)
Inductive Class := ClassUnset | Economy | PremiumEconomy | Business | First.
Inductive Stops := AnyStops | Nonstop | Stop1 | Stop2.
Inductive TripType := TripTypeUnset | RoundTrip | OneWay.
Inductive CurrencyUnit := CurrencyUnset | USD.
Inductive LanguageTag := LangUnset | English.

(** [flights.Travelers]: [main.go] only sets [Adults]. *)
Record Travelers := { Adults : Z }.

Record Options := {
  OTravelers : Travelers;
  Currency : CurrencyUnit;
  OStops : Stops;
  OClass : Class;
  OTripType : TripType;
  Lang : LanguageTag
}.

(** [flights.Args], the argument of [Session.GetOffers]. *)
Record Args := {
  Date : Time;
  ReturnDate : Time;
  SrcCities : list string;
  DstCities : list string;
  AOptions : Options
}.

(** [flights.PriceGraphArgs], the argument of [Session.GetPriceGraph] and
    the element type of the channel [FlightRequirements]. *)
Record PriceGraphArgs := {
  RangeStartDate : Time;
  RangeEndDate : Time;
  TripLength : Z;
  PSrcCities : list string;
  PDstCities : list string;
  POptions : Options
}.

(** [flights.Offer]; [Price] is a [float64]. *)
Record Offer := {
  StartDate : Time;
  OReturnDate : Time;
  Price : float
}.

(** [flights.FullOffer] embeds an [Offer]; of its other fields the program
    reads [FlightDuration] only. *)
Record FullOffer := {
  FOffer : Offer;
  FlightDuration : Duration
}.

(** The zero values of [var bestDuration flights.FullOffer] and
    [var bestOffer flights.FullOffer]. *)
Definition zero_Offer : Offer :=
  {| StartDate := 0; OReturnDate := 0; Price := 0%float |}.
Definition zero_FullOffer : FullOffer :=
  {| FOffer := zero_Offer; FlightDuration := 0 |}.

(** [Config], lines 48-57. *)
Record Rules := { BusinessMinHrs : Z; PremiumMinHrs : Z }.
Record Attendee := { City : string; ATravelers : Z }.
Record Config := { CRules : Rules; Attendees : list Attendee }.

(** [Req.Options.Class = class], line 122. *)
Definition set_Class (Req : PriceGraphArgs) (class : Class) : PriceGraphArgs :=
  {| RangeStartDate := RangeStartDate Req;
     RangeEndDate := RangeEndDate Req;
     TripLength := TripLength Req;
     PSrcCities := PSrcCities Req;
     PDstCities := PDstCities Req;
     POptions :=
       {| OTravelers := OTravelers (POptions Req);
          Currency := Currency (POptions Req);
          OStops := OStops (POptions Req);
          OClass := class;
          OTripType := OTripType (POptions Req);
          Lang := Lang (POptions Req) |} |}.

(* ===================================================================== *)
(** ** Part 2: the selection loops *)
(* ===================================================================== *)

(** One iteration of the loop of [lookup_flight_time], lines 101-106. *)
Definition bestDuration_step (bestDuration offer : FullOffer) : FullOffer :=
  if negb (FlightDuration offer =? 0)
     && ((FlightDuration bestDuration =? 0)
         || (FlightDuration offer <? FlightDuration bestDuration))
  then offer else bestDuration.

(** Lines 100-106: [var bestDuration flights.FullOffer] and the loop. *)
Definition bestDuration_loop (offers : list FullOffer) : FullOffer :=
  fold_left bestDuration_step offers zero_FullOffer.

(** One iteration of the loop of [GetActualOffers], lines 152-156.  The
    comparisons are those of [float64]. *)
Definition bestOffer_step (bestOffer offer : FullOffer) : FullOffer :=
  if PrimFloat.eqb (Price (FOffer bestOffer)) 0%float
     || PrimFloat.ltb (Price (FOffer offer)) (Price (FOffer bestOffer))
  then offer else bestOffer.

(** Lines 151-156: [var bestOffer flights.FullOffer] and the loop. *)
Definition bestOffer_loop (offers : list FullOffer) : FullOffer :=
  fold_left bestOffer_step offers zero_FullOffer.

(* ===================================================================== *)
(** ** Part 3: the sequential code *)
(* ===================================================================== *)

(** A Go call that returns [(value, err)]: [Res v] when [err == nil]. *)
Inductive result (A : Type) := Res (v : A) | Err (e : string).
Arguments Res {A} v.
Arguments Err {A} e.

Definition is_Res {A} (r : result A) : bool :=
  match r with Res _ => true | Err _ => false end.

(** What the program does to the outside, in the order it does it: the
    configuration file, the session, every call of the pricing service with
    its arguments and its answer, and every line on standard output.  (The
    message [log.Fatal] writes to standard error is not recorded; the exit
    status is.) *)
Inductive Event :=
| EvImportConfig (ok : bool)
| EvFlightsNew (r : result unit)
| EvGetOffers (a : Args) (r : result (list FullOffer))
| EvGetPriceGraph (a : PriceGraphArgs) (r : result (list Offer))
| EvPrintBest (src dst : string) (price : float)
| EvPrintElapsed (d : Duration).

(** How a computation ends: with a value, or with the process gone
    ([log.Fatal] calls [os.Exit(1)]; a run-time panic exits with 2). *)
Inductive outcome (A : Type) := Ok (a : A) | Exit (code : Z).
Arguments Ok {A} a.
Arguments Exit {A} code.

(** The outside world.  [W] is its state; each operation may read and
    change it, so the same call may be answered differently each time.
    [time_AddDate] and [time_Parse] are the pure functions of package
    [time]; they are parameters because the calendar is not the program's. *)
Record Env (W : Type) := {
  time_Now : W -> Time * W;
  time_AddDate : Time -> Z -> Z -> Z -> Time;
  time_Parse : string -> string -> result Time;
  conf_yml : W -> result Config * W;
  flights_New : W -> result unit * W;
  session_GetOffers : Args -> W -> result (list FullOffer) * W;
  session_GetPriceGraph : PriceGraphArgs -> W -> result (list Offer) * W
}.
Arguments time_Now {W} _ _.
Arguments time_AddDate {W} _ _ _ _ _.
Arguments time_Parse {W} _ _ _.
Arguments conf_yml {W} _ _.
Arguments flights_New {W} _ _.
Arguments session_GetOffers {W} _ _ _.
Arguments session_GetPriceGraph {W} _ _ _.

(** The same world with another content of [conf.yml]. *)
Definition with_config {W} (E : Env W) (config : Config) : Env W :=
  {| time_Now := time_Now E;
     time_AddDate := time_AddDate E;
     time_Parse := time_Parse E;
     conf_yml := fun w => (Res config, w);
     flights_New := flights_New E;
     session_GetOffers := session_GetOffers E;
     session_GetPriceGraph := session_GetPriceGraph E |}.

(** The state the sequential code threads: the world and the trace. *)
Record St (W : Type) := { world : W; trace : list Event }.
Arguments world {W} _.
Arguments trace {W} _.
Arguments Build_St {W} _ _.

Definition M (W A : Type) : Type := St W -> outcome A * St W.

Definition ret {W A} (a : A) : M W A := fun s => (Ok a, s).

Definition bind {W A B} (m : M W A) (k : A -> M W B) : M W B :=
  fun s =>
    match m s with
    | (Ok a, s') => k a s'
    | (Exit c, s') => (Exit c, s')
    end.

Notation "'let*' x ':=' m 'in' k" := (bind m (fun x => k))
  (at level 10, x pattern, m at level 100, k at level 200).

(** [log.Fatal(...)]: the process exits with status 1. *)
Definition log_Fatal {W A} : M W A := fun s => (Exit 1, s).

(** A run-time panic (index out of range, negative WaitGroup counter): the
    process exits with status 2. *)
Definition panic {W A} : M W A := fun s => (Exit 2, s).

(** [os.Exit(c)]. *)
Definition os_Exit {W A} (c : Z) : M W A := fun s => (Exit c, s).

Definition emit {W} (e : Event) : M W unit :=
  fun s => (Ok tt, {| world := world s; trace := trace s ++ [e] |}).

(** An operation of the world, lifted to the monad. *)
Definition ask {W A} (op : W -> A * W) : M W A :=
  fun s => let (a, w) := op (world s) in
           (Ok a, {| world := w; trace := trace s |}).

Section Sequential.
Context {W : Type} (E : Env W).

Definition Now : M W Time := ask (time_Now E).

Definition GetOffers (a : Args) : M W (result (list FullOffer)) :=
  let* r := ask (session_GetOffers E a) in
  let* _ := emit (EvGetOffers a r) in
  ret r.

Definition GetPriceGraph (a : PriceGraphArgs) : M W (result (list Offer)) :=
  let* r := ask (session_GetPriceGraph E a) in
  let* _ := emit (EvGetPriceGraph a r) in
  ret r.

(** [importConfig], lines 59-76: [os.Open] and the YAML decoder are one
    operation of the world; either failing is [log.Fatal]. *)
Definition importConfig : M W Config :=
  let* r := ask (conf_yml E) in
  let* _ := emit (EvImportConfig (is_Res r)) in
  match r with
  | Err _ => log_Fatal
  | Res config => ret config
  end.

(** [lookup_flight_time], lines 77-109.  The error it returns is always
    [nil] ([None]): a failed call has already ended the process. *)
Definition lookup_flight_time (src dst : string) : M W (Duration * option string) :=
  let options :=
    {| OTravelers := {| Adults := 1 |};
       Currency := USD;
       OStops := Stop2;
       OClass := Economy;
       OTripType := RoundTrip;
       Lang := English |} in
  let* t1 := Now in
  let* t2 := Now in
  let* r := GetOffers
              {| Date := time_AddDate E t1 0 1 0;
                 ReturnDate := time_AddDate E t2 0 1 7;
                 SrcCities := [src];
                 DstCities := [dst];
                 AOptions := options |} in
  match r with
  | Err _ => log_Fatal
  | Res offers => ret (FlightDuration (bestDuration_loop offers), None)
  end.

(** [GetFlightClass], lines 160-178. *)
Definition GetFlightClass (src dst : string) : M W Class :=
  let* (flight_time, err) := lookup_flight_time src dst in
  match err with
  | Some _ => log_Fatal
  | None =>
      ret (if flight_time <? 6 * Hour then Economy
           else if (6 * Hour <=? flight_time) && (flight_time <? 10 * Hour)
                then PremiumEconomy
                else Business)
  end.

(** [Processor], lines 115-122: the head of the loop body, up to the
    assignment of the class.  [Req.SrcCities[0]] panics on an empty
    slice. *)
Definition Processor_class (Req : PriceGraphArgs)
  : M W (PriceGraphArgs * string * string) :=
  match PSrcCities Req with
  | [] => panic
  | src :: _ =>
      match PDstCities Req with
      | [] => panic
      | dst :: _ =>
          let* class := GetFlightClass src dst in
          ret (set_Class Req class, src, dst)
      end
  end.

(** [Processor], lines 124-127: the price-graph call. *)
Definition Processor_graph (Req : PriceGraphArgs) : M W (list Offer) :=
  let* r := GetPriceGraph Req in
  match r with
  | Err _ => log_Fatal
  | Res priceGraphOffers => ret priceGraphOffers
  end.

(** [GetActualOffers], lines 141-156: the call and the reduction. *)
Definition GetActualOffers_best (priceGraphOffer : Offer) (Req : PriceGraphArgs)
  : M W FullOffer :=
  let* r := GetOffers
              {| Date := StartDate priceGraphOffer;
                 ReturnDate := OReturnDate priceGraphOffer;
                 SrcCities := PSrcCities Req;
                 DstCities := PDstCities Req;
                 AOptions := POptions Req |} in
  match r with
  | Err _ => log_Fatal
  | Res offers => ret (bestOffer_loop offers)
  end.

(** [GetActualOffers], line 157. *)
Definition GetActualOffers_print (src dst : string) (bestOffer : FullOffer)
  : M W unit :=
  emit (EvPrintBest src dst (Price (FOffer bestOffer))).

(** The whole of [GetActualOffers] but its [lg.Done()]. *)
Definition GetActualOffers (priceGraphOffer : Offer) (Req : PriceGraphArgs)
    (src dst : string) : M W unit :=
  let* bestOffer := GetActualOffers_best priceGraphOffer Req in
  GetActualOffers_print src dst bestOffer.

(** The values of the four flags after [flag.Parse()], lines 183-189.
    [nights] is an [int]: [flag.Parse()] does not return on a value that
    does not fit (it exits with status 2), so the value it assigns is in
    range; nothing below depends on the range. *)
Record Flags := {
  destination : string;
  startDate : string;
  endDate : string;
  nights : Z
}.

(** Line 191. *)
Definition flags_missing (fl : Flags) : bool :=
  String.eqb (destination fl) ""
  || String.eqb (startDate fl) ""
  || String.eqb (endDate fl) ""
  || (nights fl =? 0).

(** [main], lines 195-225: what follows the check of the flags, up to
    [baseArgs]. *)
Definition main_setup (fl : Flags) : M W (Config * PriceGraphArgs) :=
  let* config := importConfig in
  let* r := ask (flights_New E) in
  let* _ := emit (EvFlightsNew r) in
  match r with
  | Err _ => log_Fatal
  | Res _ =>
      match time_Parse E "2006-01-02" (startDate fl) with
      | Err _ => log_Fatal
      | Res startDateParsed =>
          match time_Parse E "2006-01-02" (endDate fl) with
          | Err _ => log_Fatal
          | Res endDateParsed =>
              ret (config,
                   {| RangeStartDate := startDateParsed;
                      RangeEndDate := endDateParsed;
                      TripLength := nights fl;
                      PSrcCities := [];
                      PDstCities := [destination fl];
                      POptions :=
                        {| OTravelers := {| Adults := 0 |};
                           Currency := USD;
                           OStops := Stop2;
                           OClass := ClassUnset;
                           OTripType := RoundTrip;
                           Lang := English |} |})
          end
      end
  end.

(** [main], lines 181-225, in a run in which [flag.Parse()] (line 189)
    returns, having given the flags the values [fl].  ([main_from_args]
    below is the same code with line 189 in it.) *)
Definition main_startup (fl : Flags) : M W (Time * Config * PriceGraphArgs) :=
  let* t := Now in
  if flags_missing fl then log_Fatal
  else
    let* (config, baseArgs) := main_setup fl in
    ret (t, config, baseArgs).

(** [main], lines 181-225, from the command line.  Package [flag] is not
    the program's: [flag_Parse] is what [flag.Parse()] makes of the
    arguments once the four flags of lines 185-188 are declared.  It gives
    the flags their values, or it ends the process by itself: the default
    [flag.CommandLine] is an [ExitOnError] set, which calls [os.Exit(2)] on
    an unknown or malformed flag and [os.Exit(0)] after [-help]. *)
Definition main_from_args (flag_Parse : list string -> outcome Flags)
    (args : list string) : M W (Time * Config * PriceGraphArgs) :=
  let* t := Now in
  match flag_Parse args with
  | Exit c => os_Exit c
  | Ok fl =>
      if flags_missing fl then log_Fatal
      else
        let* (config, baseArgs) := main_setup fl in
        ret (t, config, baseArgs)
  end.

(** [main], lines 236-238: the query of one attendee. *)
Definition attendee_args (baseArgs : PriceGraphArgs) (source : Attendee)
  : PriceGraphArgs :=
  {| RangeStartDate := RangeStartDate baseArgs;
     RangeEndDate := RangeEndDate baseArgs;
     TripLength := TripLength baseArgs;
     PSrcCities := [City source];
     PDstCities := PDstCities baseArgs;
     POptions :=
       {| OTravelers := {| Adults := ATravelers source |};
          Currency := Currency (POptions baseArgs);
          OStops := OStops (POptions baseArgs);
          OClass := OClass (POptions baseArgs);
          OTripType := OTripType (POptions baseArgs);
          Lang := Lang (POptions baseArgs) |} |}.

(** [main], line 245, after [ProcessorWg.Wait()] has returned. *)
Definition main_finish (t : Time) : M W unit :=
  let* now := Now in
  emit (EvPrintElapsed (now - t)).

End Sequential.

(* ===================================================================== *)
(** ** Part 4: the goroutines *)
(* ===================================================================== *)

(** The process is [main], the [Processor] goroutines and the
    [GetActualOffers] goroutines, interleaved by a scheduler.  A move takes
    one goroutine from one point where it acts on the outside or may block
    (a call of the service, a line on standard output, the channel, a
    WaitGroup) to the next.  The test [if err != nil { log.Fatal(err) }]
    that follows a call belongs to the move of that call, but [log.Fatal]
    itself does not: the goroutine whose call failed is then at
    [log.Fatal], and the process ends at the next move of that goroutine.
    Until then every other goroutine can move.  A goroutine that panics is
    treated in the same way. *)

(** A goroutine started at line 133 ([go GetActualOffers(...)]): where it
    is.  [Req], [src] and [dst] are those of the worker that started it. *)
Inductive FetcherPc :=
| FCall                            (* line 141, before [session.GetOffers] *)
| FPrint (bestOffer : FullOffer)   (* line 157, before [fmt.Println] *)
| FDone                            (* returned; [lg.Done()] has run *)
| FExit (code : Z).                (* at [log.Fatal] (1) or panicking (2) *)

Record Fetcher := { priceGraphOffer : Offer; fpc : FetcherPc }.

(** A goroutine started at line 239 ([go Processor(...)]): where it is, with
    its local variables.  [lg] is the counter of its [sync.WaitGroup].
    [got] is a ghost: the value of [Req] as it was received at line 114,
    kept beside the [Req] whose class line 122 has assigned. *)
Inductive WorkerPc :=
| WRecv                                          (* line 114, at the channel *)
| WGot (Req : PriceGraphArgs)                    (* line 115 *)
| WClassed (got Req : PriceGraphArgs) (src dst : string)   (* line 124 *)
| WWait (Req : PriceGraphArgs) (src dst : string)
        (lg : Z) (fetchers : list Fetcher)       (* line 135, [lg.Wait()] *)
| WDone                                          (* returned; [wg.Done()] has run *)
| WExit (code : Z).                              (* at [log.Fatal] (1) or panicking (2) *)

(** The goroutine of [main] from line 235 on. *)
Inductive MainPc :=
| MLoop (rest : list Attendee)                   (* line 235, loop head *)
| MSend (args : PriceGraphArgs) (rest : list Attendee)  (* line 240, at the channel *)
| MWait.                                         (* line 244, [ProcessorWg.Wait()] *)

(** The process.  [status] is [Some c] once it has exited with status [c].
    [sent] is a ghost: the queries handed over the channel so far. *)
Record State (W : Type) := {
  st : St W;
  status : option Z;
  t_start : Time;
  baseArgs : PriceGraphArgs;
  mainpc : MainPc;
  closed : bool;
  ProcessorWg : Z;
  workers : list WorkerPc;
  sent : list PriceGraphArgs
}.
Arguments st {W} _.
Arguments status {W} _.
Arguments t_start {W} _.
Arguments baseArgs {W} _.
Arguments mainpc {W} _.
Arguments closed {W} _.
Arguments ProcessorWg {W} _.
Arguments workers {W} _.
Arguments sent {W} _.
Arguments Build_State {W} _ _ _ _ _ _ _ _ _.

(** What the scheduler picks: the next step of [main], the hand-over of
    [main]'s pending send to worker [w], the next step of worker [w], or the
    next step of the [i]-th goroutine that worker [w] started. *)
Inductive Action :=
| ActMain
| ActSend (w : nat)
| ActWorker (w : nat)
| ActFetcher (w i : nat).

Definition zero_Options : Options :=
  {| OTravelers := {| Adults := 0 |}; Currency := CurrencyUnset;
     OStops := AnyStops; OClass := ClassUnset; OTripType := TripTypeUnset;
     Lang := LangUnset |}.
Definition zero_PriceGraphArgs : PriceGraphArgs :=
  {| RangeStartDate := 0; RangeEndDate := 0; TripLength := 0;
     PSrcCities := []; PDstCities := []; POptions := zero_Options |}.

Section Goroutines.
Context {W : Type} (E : Env W).

Definition set_main (s : State W) (pc : MainPc) : State W :=
  {| st := st s; status := status s; t_start := t_start s;
     baseArgs := baseArgs s; mainpc := pc; closed := closed s;
     ProcessorWg := ProcessorWg s; workers := workers s; sent := sent s |}.

Definition set_workers (s : State W) (ws : list WorkerPc) : State W :=
  {| st := st s; status := status s; t_start := t_start s;
     baseArgs := baseArgs s; mainpc := mainpc s; closed := closed s;
     ProcessorWg := ProcessorWg s; workers := ws; sent := sent s |}.

Definition set_worker (s : State W) (w : nat) (pc : WorkerPc) : State W :=
  set_workers s (<[w := pc]> (workers s)).

Definition set_st (s : State W) (x : St W) : State W :=
  {| st := x; status := status s; t_start := t_start s;
     baseArgs := baseArgs s; mainpc := mainpc s; closed := closed s;
     ProcessorWg := ProcessorWg s; workers := workers s; sent := sent s |}.

Definition set_status (s : State W) (c : Z) : State W :=
  {| st := st s; status := Some c; t_start := t_start s;
     baseArgs := baseArgs s; mainpc := mainpc s; closed := closed s;
     ProcessorWg := ProcessorWg s; workers := workers s; sent := sent s |}.

Definition set_closed (s : State W) : State W :=
  {| st := st s; status := status s; t_start := t_start s;
     baseArgs := baseArgs s; mainpc := mainpc s; closed := true;
     ProcessorWg := ProcessorWg s; workers := workers s; sent := sent s |}.

Definition set_ProcessorWg (s : State W) (n : Z) : State W :=
  {| st := st s; status := status s; t_start := t_start s;
     baseArgs := baseArgs s; mainpc := mainpc s; closed := closed s;
     ProcessorWg := n; workers := workers s; sent := sent s |}.

Definition add_sent (s : State W) (args : PriceGraphArgs) : State W :=
  {| st := st s; status := status s; t_start := t_start s;
     baseArgs := baseArgs s; mainpc := mainpc s; closed := closed s;
     ProcessorWg := ProcessorWg s; workers := workers s;
     sent := sent s ++ [args] |}.

(** A goroutine runs a piece of sequential code up to its next point.  It
    goes on with the value ([k]); or the code has come to [log.Fatal] or to
    a panic, and the goroutine is the one that will end the process with
    that status ([die]): the process itself goes on until that goroutine
    moves again. *)
Definition run_seq {A} (s : State W) (m : M W A)
    (k : A -> State W -> State W) (die : Z -> State W -> State W) : State W :=
  match m (st s) with
  | (Ok a, x) => k a (set_st s x)
  | (Exit c, x) => die c (set_st s x)
  end.

(** The state of the process when [main] reaches the loop of line 235. *)
Definition pipeline_init (t : Time) (config : Config)
    (baseArgs : PriceGraphArgs) (x : St W) : State W :=
  {| st := x; status := None; t_start := t; baseArgs := baseArgs;
     mainpc := MLoop (Attendees config);
     closed := false;
     (* line 232: ProcessorWg.Add(len(config.Attendees)) *)
     ProcessorWg := Z.of_nat (length (Attendees config));
     workers := []; sent := [] |}.

(** The process whose start has ended it: [main] was its only goroutine. *)
Definition exited (c : Z) (x : St W) : State W :=
  {| st := x; status := Some c; t_start := 0;
     baseArgs := zero_PriceGraphArgs; mainpc := MWait; closed := false;
     ProcessorWg := 0; workers := []; sent := [] |}.

(** The process after the sequential start of [main], lines 181-232, when
    [flag.Parse()] has returned with the flags [fl]. *)
Definition main_init (fl : Flags) (w0 : W) : State W :=
  match main_startup E fl {| world := w0; trace := [] |} with
  | (Ok (t, config, baseArgs), x) => pipeline_init t config baseArgs x
  | (Exit c, x) =>
      {| st := x; status := Some c; t_start := 0;
         baseArgs := zero_PriceGraphArgs; mainpc := MWait; closed := false;
         ProcessorWg := 0; workers := []; sent := [] |}
  end.

(** The process after the sequential start of [main], from the command
    line. *)
Definition main_init_from_args (flag_Parse : list string -> outcome Flags)
    (args : list string) (w0 : W) : State W :=
  match main_from_args E flag_Parse args {| world := w0; trace := [] |} with
  | (Ok (t, config, baseArgs), x) => pipeline_init t config baseArgs x
  | (Exit c, x) => exited c x
  end.

Definition main_step (s : State W) : option (State W) :=
  match mainpc s with
  | MLoop (source :: rest) =>
      (* lines 236-239: build [args], start a [Processor] *)
      Some (set_main (set_workers s (workers s ++ [WRecv]))
                     (MSend (attendee_args (baseArgs s) source) rest))
  | MLoop [] =>
      (* line 243: close(FlightRequirements) *)
      Some (set_main (set_closed s) MWait)
  | MSend _ _ => None
  | MWait =>
      (* lines 244-246: the wait is over when the counter is zero; [main]
         prints the elapsed time and returns, which ends the process
         ([main_finish] has no [log.Fatal] and no panic) *)
      if ProcessorWg s =? 0
      then Some (run_seq s (main_finish E (t_start s))
                         (fun _ s' => set_status s' 0)
                         (fun c s' => set_status s' c))
      else None
  end.

(** Line 240 meets line 114: the channel is unbuffered, so the send and
    the receive of one waiting worker happen together. *)
Definition FlightRequirements_step (w : nat) (s : State W) : option (State W) :=
  match mainpc s, workers s !! w with
  | MSend args rest, Some WRecv =>
      Some (set_main (add_sent (set_worker s w (WGot args)) args) (MLoop rest))
  | _, _ => None
  end.

(** [wg.Done()]: the counter goes down by one and must not go below 0. *)
Definition wg_Done (counter : Z) : option Z :=
  if counter - 1 <? 0 then None else Some (counter - 1).

Definition Processor_step (w : nat) (s : State W) : option (State W) :=
  match workers s !! w with
  | Some WRecv =>
      (* line 114 on a closed channel: the loop ends, the deferred
         [wg.Done()] of line 113 runs *)
      if closed s
      then match wg_Done (ProcessorWg s) with
           | Some n => Some (set_ProcessorWg (set_worker s w WDone) n)
           | None => Some (set_worker s w (WExit 2))
           end
      else None
  | Some (WGot Req) =>
      (* lines 115-122 *)
      Some (run_seq s (Processor_class E Req)
              (fun '(Req', src, dst) s' =>
                 set_worker s' w (WClassed Req Req' src dst))
              (fun c s' => set_worker s' w (WExit c)))
  | Some (WClassed _ Req src dst) =>
      (* lines 124-134: the call, [lg.Add], one goroutine per offer *)
      Some (run_seq s (Processor_graph E Req)
              (fun priceGraphOffers s' =>
                 set_worker s' w
                   (WWait Req src dst
                      (Z.of_nat (length priceGraphOffers))
                      (map (fun o => {| priceGraphOffer := o; fpc := FCall |})
                           priceGraphOffers)))
              (fun c s' => set_worker s' w (WExit c)))
  | Some (WWait Req src dst lg fetchers) =>
      (* line 135: [lg.Wait()] returns when the counter is zero; back to
         line 114 *)
      if lg =? 0 then Some (set_worker s w WRecv) else None
  | Some WDone => None
  | Some (WExit c) =>
      (* [log.Fatal] calls [os.Exit(1)]; a panic ends the process with 2 *)
      Some (set_status s c)
  | None => None
  end.

Definition GetActualOffers_step (w i : nat) (s : State W) : option (State W) :=
  match workers s !! w with
  | Some (WWait Req src dst lg fetchers) =>
      match fetchers !! i with
      | Some {| priceGraphOffer := o; fpc := FCall |} =>
          (* lines 141-156 *)
          Some (run_seq s (GetActualOffers_best E o Req)
                  (fun bestOffer s' =>
                     set_worker s' w
                       (WWait Req src dst lg
                          (<[i := {| priceGraphOffer := o; fpc := FPrint bestOffer |}]>
                             fetchers)))
                  (fun c s' =>
                     set_worker s' w
                       (WWait Req src dst lg
                          (<[i := {| priceGraphOffer := o; fpc := FExit c |}]>
                             fetchers))))
      | Some {| priceGraphOffer := o; fpc := FPrint bestOffer |} =>
          (* line 157, then the deferred [lg.Done()] of line 140 *)
          Some (run_seq s (GetActualOffers_print src dst bestOffer)
                  (fun _ s' =>
                     match wg_Done lg with
                     | Some n =>
                         set_worker s' w
                           (WWait Req src dst n
                              (<[i := {| priceGraphOffer := o; fpc := FDone |}]>
                                 fetchers))
                     | None =>
                         set_worker s' w
                           (WWait Req src dst lg
                              (<[i := {| priceGraphOffer := o; fpc := FExit 2 |}]>
                                 fetchers))
                     end)
                  (fun c s' =>
                     set_worker s' w
                       (WWait Req src dst lg
                          (<[i := {| priceGraphOffer := o; fpc := FExit c |}]>
                             fetchers))))
      | Some {| priceGraphOffer := o; fpc := FExit c |} =>
          (* [log.Fatal] calls [os.Exit(1)]; a panic ends the process with 2 *)
          Some (set_status s c)
      | _ => None
      end
  | _ => None
  end.

(** One step of the process; [None] when the chosen goroutine cannot move
    (it is blocked, has returned, or does not exist) or the process has
    exited. *)
Definition step (a : Action) (s : State W) : option (State W) :=
  match status s with
  | Some _ => None
  | None =>
      match a with
      | ActMain => main_step s
      | ActSend w => FlightRequirements_step w s
      | ActWorker w => Processor_step w s
      | ActFetcher w i => GetActualOffers_step w i s
      end
  end.

(** A schedule is a list of picks; a pick that cannot move is skipped. *)
Definition exec (acts : list Action) (s : State W) : State W :=
  fold_left (fun s a => default s (step a s)) acts s.

End Goroutines.

(* ===================================================================== *)
(** ** Part 5: a scripted world, for concrete runs *)
(* ===================================================================== *)

(** A world that answers from a script: the clock ticks at every reading,
    and the [n]-th call of [GetOffers] (of [GetPriceGraph]) gets the [n]-th
    answer of its list; a call beyond the script fails. *)
Record Script := {
  s_clock : Time;
  s_config : result Config;
  s_offers : list (result (list FullOffer));
  s_graphs : list (result (list Offer))
}.

Definition scripted : Env Script :=
  {| time_Now := fun w =>
       (s_clock w,
        {| s_clock := s_clock w + 1; s_config := s_config w;
           s_offers := s_offers w; s_graphs := s_graphs w |});
     time_AddDate := fun t years months days =>
       t + ((years * 12 + months) * 30 + days) * 24 * Hour;
     time_Parse := fun layout value =>
       if (String.length value =? 10)%nat then Res 0 else Err "parsing time";
     conf_yml := fun w => (s_config w, w);
     flights_New := fun w => (Res tt, w);
     session_GetOffers := fun a w =>
       match s_offers w with
       | [] => (Err "no answer", w)
       | r :: rest =>
           (r, {| s_clock := s_clock w; s_config := s_config w;
                  s_offers := rest; s_graphs := s_graphs w |})
       end;
     session_GetPriceGraph := fun a w =>
       match s_graphs w with
       | [] => (Err "no answer", w)
       | r :: rest =>
           (r, {| s_clock := s_clock w; s_config := s_config w;
                  s_offers := s_offers w; s_graphs := rest |})
       end |}.

(** An offer of a given price and duration, and a date pair. *)
Definition offer_of (p : float) (d : Duration) : FullOffer :=
  {| FOffer := {| StartDate := 0; OReturnDate := 0; Price := p |};
     FlightDuration := d |}.
Definition dates (d1 d2 : Time) : Offer :=
  {| StartDate := d1; OReturnDate := d2; Price := 0%float |}.

Definition flags_IST : Flags :=
  {| destination := "IST"; startDate := "2025-02-02";
     endDate := "2025-02-07"; nights := 6 |}.

Definition config_NYC : Config :=
  {| CRules := {| BusinessMinHrs := 10; PremiumMinHrs := 6 |};
     Attendees := [ {| City := "NYC"; ATravelers := 1 |} ] |}.

(** One attendee; the probe finds an 11-hour flight; the price graph names
    two date pairs; each has one offer. *)
Definition world_two_pairs : Script :=
  {| s_clock := 0;
     s_config := Res config_NYC;
     s_offers := [ Res [offer_of 700 (11 * Hour)];
                   Res [offer_of 3100 (11 * Hour)];
                   Res [offer_of 2900 (11 * Hour)] ];
     s_graphs := [ Res [dates 1 7; dates 2 8] ] |}.

Definition sched_two_pairs : list Action :=
  [ ActMain; ActSend 0; ActMain; ActWorker 0; ActWorker 0;
    ActFetcher 0 0; ActFetcher 0 1; ActFetcher 0 1; ActFetcher 0 0;
    ActWorker 0; ActWorker 0; ActMain ].

(** The same attendee under other rules. *)
Definition config_NYC_other_rules : Config :=
  {| CRules := {| BusinessMinHrs := 3; PremiumMinHrs := 1 |};
     Attendees := [ {| City := "NYC"; ATravelers := 1 |} ] |}.

(** The probe finds a flight of exactly six hours among others. *)
Definition world_six_hours : Script :=
  {| s_clock := 0;
     s_config := Res config_NYC;
     s_offers := [ Res [offer_of 500 (7 * Hour); offer_of 450 (6 * Hour);
                        offer_of 300 0] ];
     s_graphs := [] |}.

(** The price graph fails; the schedule stops after the failed call. *)
Definition world_graph_fails : Script :=
  {| s_clock := 0;
     s_config := Res config_NYC;
     s_offers := [ Res [offer_of 700 (11 * Hour)] ];
     s_graphs := [ Err "502 Bad Gateway" ] |}.

Definition sched_graph_fails : list Action :=
  [ ActMain; ActSend 0; ActMain; ActWorker 0; ActWorker 0 ].

(** Two date pairs; the call for the second fails.  In the schedule the
    goroutine of the first pair has its answer when the call of the second
    fails, and prints its line before the goroutine of the second pair
    moves again. *)
Definition world_second_pair_fails : Script :=
  {| s_clock := 0;
     s_config := Res config_NYC;
     s_offers := [ Res [offer_of 700 (11 * Hour)];
                   Res [offer_of 3100 (11 * Hour)];
                   Err "timeout" ];
     s_graphs := [ Res [dates 1 7; dates 2 8] ] |}.

Definition sched_line_after_failure : list Action :=
  [ ActMain; ActSend 0; ActMain; ActWorker 0; ActWorker 0;
    ActFetcher 0 0; ActFetcher 0 1; ActFetcher 0 0 ].

Definition flags_no_nights : Flags :=
  {| destination := "IST"; startDate := "2025-02-02";
     endDate := "2025-02-07"; nights := 0 |}.

Definition flags_negative_nights : Flags :=
  {| destination := "IST"; startDate := "2025-02-02";
     endDate := "2025-02-07"; nights := -3 |}.

(* ===================================================================== *)
(** ** Part 6: what is read off a trace and off a process state *)
(* ===================================================================== *)

(** The events of the sequential start of [main]. *)
Definition startup_event (e : Event) : bool :=
  match e with
  | EvImportConfig _ | EvFlightsNew _ => true
  | _ => false
  end.

(** A call of the pricing service that returned an error. *)
Definition failed_call (e : Event) : bool :=
  match e with
  | EvGetOffers _ (Err _) | EvGetPriceGraph _ (Err _) => true
  | _ => false
  end.

(** The number of "Best offer for ..." lines printed. *)
Definition lines_of (e : Event) : nat :=
  match e with EvPrintBest _ _ _ => 1%nat | _ => 0%nat end.
Definition best_lines (tr : list Event) : nat := sum_list_with lines_of tr.

(** The number of date pairs the price graph has returned. *)
Definition pairs_of (e : Event) : nat :=
  match e with EvGetPriceGraph _ (Res l) => length l | _ => 0%nat end.
Definition date_pairs (tr : list Event) : nat := sum_list_with pairs_of tr.

(** The goroutines a worker has started that have not returned. *)
Definition unfinished (f : Fetcher) : nat :=
  match fpc f with FDone => 0%nat | _ => 1%nat end.
Definition w_pending (pc : WorkerPc) : nat :=
  match pc with
  | WWait _ _ _ _ fetchers => sum_list_with unfinished fetchers
  | _ => 0%nat
  end.
Definition w_done (pc : WorkerPc) : nat :=
  match pc with WDone => 1%nat | _ => 0%nat end.

(** The queries [main] has still to send, and the workers it has still to
    start. *)
Definition todo (baseArgs : PriceGraphArgs) (pc : MainPc) : list PriceGraphArgs :=
  match pc with
  | MLoop rest => map (attendee_args baseArgs) rest
  | MSend args rest => args :: map (attendee_args baseArgs) rest
  | MWait => []
  end.
Definition to_start (pc : MainPc) : nat :=
  match pc with
  | MLoop rest => length rest
  | MSend _ rest => length rest
  | MWait => 0%nat
  end.

(** The classes [GetFlightClass] can return. *)
Definition resolved (c : Class) : bool :=
  match c with Economy | PremiumEconomy | Business => true | _ => false end.

(** What a worker holds, given the queries sent so far: a received query is
    one that was sent; a query about to go to the price graph is the
    received one, a sent one, with its class set; the counter of the
    WaitGroup counts the goroutines that have not returned. *)
Definition w_ok (sent : list PriceGraphArgs) (pc : WorkerPc) : Prop :=
  match pc with
  | WGot Req => Req ∈ sent
  | WClassed got Req' _ _ =>
      got ∈ sent /\ exists c, resolved c = true /\ Req' = set_Class got c
  | WWait _ _ _ lg fetchers => lg = Z.of_nat (sum_list_with unfinished fetchers)
  | _ => True
  end.

(** The invariant of the process started on the attendees [atts]. *)
Record Inv {W} (atts : list Attendee) (s : State W) : Prop := {
  inv_lines :
    date_pairs (trace (st s))
    = (best_lines (trace (st s)) + sum_list_with w_pending (workers s))%nat;
  inv_workers : Forall (w_ok (sent s)) (workers s);
  inv_wg :
    ProcessorWg s
    = Z.of_nat (length (workers s) + to_start (mainpc s))
      - Z.of_nat (sum_list_with w_done (workers s));
  inv_sent :
    sent s ++ todo (baseArgs s) (mainpc s) = map (attendee_args (baseArgs s)) atts;
  inv_graph :
    forall a r, EvGetPriceGraph a r ∈ trace (st s) ->
      exists Req c, Req ∈ sent s /\ resolved c = true /\ a = set_Class Req c
}.

(** The process exits with status 0 only from line 245, when the counter of
    [ProcessorWg] is zero. *)
Definition exit0_inv {W} (s : State W) : Prop :=
  status s = Some 0 -> mainpc s = MWait /\ ProcessorWg s = 0.

Definition sending (pc : MainPc) : nat :=
  match pc with MSend _ _ => 1%nat | _ => 0%nat end.
Definition waiting (pc : MainPc) : bool :=
  match pc with MWait => true | _ => false end.

(** Workers that are not at the channel. *)
Definition w_away (pc : WorkerPc) : nat :=
  match pc with WRecv => 0%nat | _ => 1%nat end.

(** What keeps the process from getting stuck: the channel is closed exactly
    when [main] waits; no worker has returned before that; as long as the
    channel is open the workers away from it are no more than the queries
    sent; [main] has started one worker per query sent, and one more when it
    is about to send; and the destination of the queries is there. *)
Record Inv2 {W} (s : State W) : Prop := {
  inv_closed : closed s = waiting (mainpc s);
  inv_open : closed s = false -> sum_list_with w_done (workers s) = 0%nat;
  inv_away :
    closed s = false ->
    (sum_list_with w_away (workers s) <= length (sent s))%nat;
  inv_started :
    length (workers s) = (length (sent s) + sending (mainpc s))%nat;
  inv_dst : PDstCities (baseArgs s) <> []
}.

(** The calls of the service that returned an error, and the goroutines
    that are about to end the process. *)
Definition failure_of (e : Event) : nat :=
  if failed_call e then 1%nat else 0%nat.
Definition failed_calls (tr : list Event) : nat := sum_list_with failure_of tr.
Definition f_exiting (f : Fetcher) : nat :=
  match fpc f with FExit _ => 1%nat | _ => 0%nat end.
Definition w_exiting (pc : WorkerPc) : nat :=
  match pc with
  | WExit _ => 1%nat
  | WWait _ _ _ _ fetchers => sum_list_with f_exiting fetchers
  | _ => 0%nat
  end.

(** A goroutine that is about to end the process is at [log.Fatal]: none
    panics. *)
Definition f_fatal (f : Fetcher) : Prop :=
  match fpc f with FExit c => c = 1 | _ => True end.
Definition w_fatal (pc : WorkerPc) : Prop :=
  match pc with
  | WExit c => c = 1
  | WWait _ _ _ _ fetchers => Forall f_fatal fetchers
  | _ => True
  end.

(** No goroutine panics, and every failed call has left its goroutine at
    [log.Fatal]: a failed call is not made again. *)
Record Inv5 {W} (s : State W) : Prop := {
  inv_fatal : Forall w_fatal (workers s);
  inv_failed :
    failed_calls (trace (st s)) = sum_list_with w_exiting (workers s)
}.

(** The calls of the service the goroutines have still to make before
    their fan-out, and the moves left apart from those; the pair goes down,
    in the lexicographic order, at every move. *)
Definition f_weight (f : Fetcher) : nat :=
  match fpc f with FCall => 2%nat | FPrint _ => 1%nat | _ => 0%nat end.
Definition w_before (pc : WorkerPc) : nat :=
  match pc with WGot _ => 2%nat | WClassed _ _ _ _ => 1%nat | _ => 0%nat end.
Definition w_after (pc : WorkerPc) : nat :=
  match pc with
  | WRecv => 1%nat
  | WWait _ _ _ _ fetchers => (2 + sum_list_with f_weight fetchers)%nat
  | _ => 0%nat
  end.
Definition main_before (pc : MainPc) : nat :=
  match pc with
  | MLoop rest => (3 * length rest)%nat
  | MSend _ rest => (3 * S (length rest))%nat
  | MWait => 0%nat
  end.
Definition main_after (pc : MainPc) : nat :=
  match pc with
  | MLoop rest => (3 * length rest + 1)%nat
  | MSend _ rest => (3 * length rest + 2)%nat
  | MWait => 0%nat
  end.
Definition calls_left {W} (s : State W) : nat :=
  (main_before (mainpc s) + sum_list_with w_before (workers s))%nat.
Definition moves_left {W} (s : State W) : nat :=
  (main_after (mainpc s) + sum_list_with w_after (workers s))%nat.

(** The process has ended as it should: with status 0, or with status 1
    after a failed call. *)
Definition ended {W} (s : State W) : Prop :=
  status s = Some 0 \/
  (status s = Some 1 /\ exists e, e ∈ trace (st s) /\ failed_call e = true).

(** What holds of every state the process reaches once [main] has started
    the pipeline. *)
Definition Good {W} (atts : list Attendee) (s : State W) : Prop :=
  Inv atts s /\ Inv2 s /\ Inv5 s /\ (status s = None \/ ended s).

(** The price of an offer. *)
Definition price (o : FullOffer) : float := Price (FOffer o).

(** The arguments of the probe, lines 80-95, at the two readings [t1] and
    [t2] of the clock. *)
Definition probe_args {W} (E : Env W) (t1 t2 : Time) (src dst : string) : Args :=
  {| Date := time_AddDate E t1 0 1 0;
     ReturnDate := time_AddDate E t2 0 1 7;
     SrcCities := [src];
     DstCities := [dst];
     AOptions :=
       {| OTravelers := {| Adults := 1 |};
          Currency := USD;
          OStops := Stop2;
          OClass := Economy;
          OTripType := RoundTrip;
          Lang := English |} |}.

(** The probe made in the state [x], lines 89-95: its arguments, with the
    clock read twice, first for [Date] and then for [ReturnDate]; and the
    answer of the service with the world it leaves. *)
Definition probe_now {W} (E : Env W) (x : St W) (src dst : string) : Args :=
  let n1 := time_Now E (world x) in
  let n2 := time_Now E n1.2 in
  probe_args E n1.1 n2.1 src dst.
Definition probe_answer {W} (E : Env W) (x : St W) (src dst : string)
  : result (list FullOffer) * W :=
  session_GetOffers E (probe_now E x src dst)
    (time_Now E (time_Now E (world x)).2).2.

(** The arguments of the call of [GetActualOffers], lines 141-147. *)
Definition offers_args (priceGraphOffer : Offer) (Req : PriceGraphArgs) : Args :=
  {| Date := StartDate priceGraphOffer;
     ReturnDate := OReturnDate priceGraphOffer;
     SrcCities := PSrcCities Req;
     DstCities := PDstCities Req;
     AOptions := POptions Req |}.

(** The moves of the process, read off [step]: the sequential code of each
    move is replaced by what it does to the world and to the trace.
    [step_Step] below shows that every move of [step] is one of these. *)
Inductive Step {W} (E : Env W) : Action -> State W -> State W -> Prop :=
| Step_start s source rest :
    mainpc s = MLoop (source :: rest) ->
    Step E ActMain s
      (set_main (set_workers s (workers s ++ [WRecv]))
                (MSend (attendee_args (baseArgs s) source) rest))
| Step_close s :
    mainpc s = MLoop [] ->
    Step E ActMain s (set_main (set_closed s) MWait)
| Step_finish s x d :
    mainpc s = MWait -> ProcessorWg s = 0 ->
    trace x = trace (st s) ++ [EvPrintElapsed d] ->
    Step E ActMain s (set_status (set_st s x) 0)
| Step_send s w args rest :
    mainpc s = MSend args rest -> workers s !! w = Some WRecv ->
    Step E (ActSend w) s
      (set_main (add_sent (set_worker s w (WGot args)) args) (MLoop rest))
| Step_end s w n :
    workers s !! w = Some WRecv -> closed s = true ->
    wg_Done (ProcessorWg s) = Some n ->
    Step E (ActWorker w) s (set_ProcessorWg (set_worker s w WDone) n)
| Step_end_panic s w :
    workers s !! w = Some WRecv -> closed s = true ->
    wg_Done (ProcessorWg s) = None ->
    Step E (ActWorker w) s (set_worker s w (WExit 2))
| Step_class_panic s w Req x :
    workers s !! w = Some (WGot Req) ->
    PSrcCities Req = [] \/ PDstCities Req = [] ->
    trace x = trace (st s) ->
    Step E (ActWorker w) s (set_worker (set_st s x) w (WExit 2))
| Step_class s w Req x offers c src rs dst rd :
    workers s !! w = Some (WGot Req) ->
    PSrcCities Req = src :: rs -> PDstCities Req = dst :: rd ->
    probe_answer E (st s) src dst = (Res offers, world x) ->
    trace x = trace (st s)
              ++ [EvGetOffers (probe_now E (st s) src dst) (Res offers)] ->
    resolved c = true ->
    Step E (ActWorker w) s
      (set_worker (set_st s x) w (WClassed Req (set_Class Req c) src dst))
| Step_class_fatal s w Req x e src rs dst rd :
    workers s !! w = Some (WGot Req) ->
    PSrcCities Req = src :: rs -> PDstCities Req = dst :: rd ->
    probe_answer E (st s) src dst = (Err e, world x) ->
    trace x = trace (st s)
              ++ [EvGetOffers (probe_now E (st s) src dst) (Err e)] ->
    Step E (ActWorker w) s (set_worker (set_st s x) w (WExit 1))
| Step_graph s w got Req src dst x offers :
    workers s !! w = Some (WClassed got Req src dst) ->
    session_GetPriceGraph E Req (world (st s)) = (Res offers, world x) ->
    trace x = trace (st s) ++ [EvGetPriceGraph Req (Res offers)] ->
    Step E (ActWorker w) s
      (set_worker (set_st s x) w
         (WWait Req src dst (Z.of_nat (length offers))
            (map (fun o => {| priceGraphOffer := o; fpc := FCall |}) offers)))
| Step_graph_fatal s w got Req src dst x e :
    workers s !! w = Some (WClassed got Req src dst) ->
    session_GetPriceGraph E Req (world (st s)) = (Err e, world x) ->
    trace x = trace (st s) ++ [EvGetPriceGraph Req (Err e)] ->
    Step E (ActWorker w) s (set_worker (set_st s x) w (WExit 1))
| Step_waited s w Req src dst fetchers :
    workers s !! w = Some (WWait Req src dst 0 fetchers) ->
    Step E (ActWorker w) s (set_worker s w WRecv)
| Step_exit s w c :
    workers s !! w = Some (WExit c) ->
    Step E (ActWorker w) s (set_status s c)
| Step_fetch s w i Req src dst lg fetchers o x offers :
    workers s !! w = Some (WWait Req src dst lg fetchers) ->
    fetchers !! i = Some {| priceGraphOffer := o; fpc := FCall |} ->
    session_GetOffers E (offers_args o Req) (world (st s))
    = (Res offers, world x) ->
    trace x = trace (st s) ++ [EvGetOffers (offers_args o Req) (Res offers)] ->
    Step E (ActFetcher w i) s
      (set_worker (set_st s x) w
         (WWait Req src dst lg
            (<[i := {| priceGraphOffer := o;
                       fpc := FPrint (bestOffer_loop offers) |}]>
               fetchers)))
| Step_fetch_fatal s w i Req src dst lg fetchers o x e :
    workers s !! w = Some (WWait Req src dst lg fetchers) ->
    fetchers !! i = Some {| priceGraphOffer := o; fpc := FCall |} ->
    session_GetOffers E (offers_args o Req) (world (st s))
    = (Err e, world x) ->
    trace x = trace (st s) ++ [EvGetOffers (offers_args o Req) (Err e)] ->
    Step E (ActFetcher w i) s
      (set_worker (set_st s x) w
         (WWait Req src dst lg
            (<[i := {| priceGraphOffer := o; fpc := FExit 1 |}]> fetchers)))
| Step_print s w i Req src dst lg fetchers o x bestOffer n :
    workers s !! w = Some (WWait Req src dst lg fetchers) ->
    fetchers !! i = Some {| priceGraphOffer := o; fpc := FPrint bestOffer |} ->
    trace x = trace (st s) ++ [EvPrintBest src dst (Price (FOffer bestOffer))] ->
    wg_Done lg = Some n ->
    Step E (ActFetcher w i) s
      (set_worker (set_st s x) w
         (WWait Req src dst n
            (<[i := {| priceGraphOffer := o; fpc := FDone |}]> fetchers)))
| Step_print_panic s w i Req src dst lg fetchers o x bestOffer :
    workers s !! w = Some (WWait Req src dst lg fetchers) ->
    fetchers !! i = Some {| priceGraphOffer := o; fpc := FPrint bestOffer |} ->
    trace x = trace (st s) ++ [EvPrintBest src dst (Price (FOffer bestOffer))] ->
    wg_Done lg = None ->
    Step E (ActFetcher w i) s
      (set_worker (set_st s x) w
         (WWait Req src dst lg
            (<[i := {| priceGraphOffer := o; fpc := FExit 2 |}]> fetchers)))
| Step_fexit s w i Req src dst lg fetchers o c :
    workers s !! w = Some (WWait Req src dst lg fetchers) ->
    fetchers !! i = Some {| priceGraphOffer := o; fpc := FExit c |} ->
    Step E (ActFetcher w i) s (set_status s c).

(** The goroutine that the pick [g] names is at [log.Fatal]. *)
Definition at_log_Fatal {W} (g : Action) (s : State W) : bool :=
  match g with
  | ActWorker w =>
      match workers s !! w with
      | Some (WExit c) => c =? 1
      | _ => false
      end
  | ActFetcher w i =>
      match workers s !! w with
      | Some (WWait _ _ _ _ fetchers) =>
          match fetchers !! i with
          | Some {| fpc := FExit c |} => c =? 1
          | _ => false
          end
      | _ => false
      end
  | _ => false
  end.

(** Whether the pick [g] is about worker [w]: the hand-over of a query to
    it, its own next step, or the next step of a goroutine it started. *)
Definition about_worker (g : Action) (w : nat) : bool :=
  match g with
  | ActMain => false
  | ActSend w' | ActWorker w' | ActFetcher w' _ => Nat.eqb w' w
  end.

(** The origin and the destination a worker prints are the first cities of
    its query. *)
Definition w_labelled (pc : WorkerPc) : Prop :=
  match pc with
  | WClassed _ Req src dst | WWait Req src dst _ _ =>
      (exists rs, PSrcCities Req = src :: rs) /\
      (exists rd, PDstCities Req = dst :: rd)
  | _ => True
  end.

(** A goroutine about to print holds the reduction of the offers its call
    returned. *)
Definition f_known (tr : list Event) (Req : PriceGraphArgs) (f : Fetcher) : Prop :=
  match fpc f with
  | FPrint bestOffer =>
      exists offers,
        EvGetOffers (offers_args (priceGraphOffer f) Req) (Res offers) ∈ tr /\
        bestOffer = bestOffer_loop offers
  | _ => True
  end.

(** A worker that waits holds a sent query with its class set, and one
    goroutine per date pair the price graph returned for it. *)
Definition w_known (tr : list Event) (sent : list PriceGraphArgs)
    (pc : WorkerPc) : Prop :=
  match pc with
  | WWait Req _ _ _ fetchers =>
      (exists Req0 c, Req0 ∈ sent /\ resolved c = true /\ Req = set_Class Req0 c) /\
      EvGetPriceGraph Req (Res (map priceGraphOffer fetchers)) ∈ tr /\
      Forall (f_known tr Req) fetchers
  | _ => True
  end.

(** Where a printed line comes from: from the offers returned for one date
    pair of a sent query. *)
Definition event_known (tr : list Event) (sent : list PriceGraphArgs)
    (e : Event) : Prop :=
  match e with
  | EvPrintBest src dst p =>
      exists Req0 c l o offers,
        Req0 ∈ sent /\ resolved c = true /\
        (exists rs, PSrcCities Req0 = src :: rs) /\
        (exists rd, PDstCities Req0 = dst :: rd) /\
        EvGetPriceGraph (set_Class Req0 c) (Res l) ∈ tr /\ o ∈ l /\
        EvGetOffers (offers_args o (set_Class Req0 c)) (Res offers) ∈ tr /\
        p = Price (FOffer (bestOffer_loop offers))
  | _ => True
  end.

(** The invariant on where the data comes from: the labels of the workers,
    what the waiting workers hold, and every line of the trace. *)
Record Inv3 {W} (s : State W) : Prop := {
  inv_labelled : Forall w_labelled (workers s);
  inv_known : Forall (w_known (trace (st s)) (sent s)) (workers s);
  inv_events :
    forall e, e ∈ trace (st s) -> event_known (trace (st s)) (sent s) e
}.

(** The calls of [GetOffers] and of [GetPriceGraph] made so far. *)
Definition offers_call (e : Event) : nat :=
  match e with EvGetOffers _ _ => 1%nat | _ => 0%nat end.
Definition offers_calls (tr : list Event) : nat := sum_list_with offers_call tr.
Definition graph_call (e : Event) : nat :=
  match e with EvGetPriceGraph _ _ => 1%nat | _ => 0%nat end.
Definition graph_calls (tr : list Event) : nat := sum_list_with graph_call tr.

(** Workers before their probe, workers before their price-graph call, and
    the goroutines of a worker that have not made their call. *)
Definition w_got (pc : WorkerPc) : nat :=
  match pc with WGot _ => 1%nat | _ => 0%nat end.
Definition w_classed (pc : WorkerPc) : nat :=
  match pc with WClassed _ _ _ _ => 1%nat | _ => 0%nat end.
Definition f_call (f : Fetcher) : nat :=
  match fpc f with FCall => 1%nat | _ => 0%nat end.
Definition w_fcalls (pc : WorkerPc) : nat :=
  match pc with
  | WWait _ _ _ _ fetchers => sum_list_with f_call fetchers
  | _ => 0%nat
  end.

(** As long as no call has failed, every call made is accounted for by a
    query sent or by a date pair returned. *)
Record Inv4 {W} (s : State W) : Prop := {
  inv_offers_calls :
    failed_calls (trace (st s)) = 0%nat ->
    (offers_calls (trace (st s)) + sum_list_with w_got (workers s)
     + sum_list_with w_fcalls (workers s)
     = length (sent s) + date_pairs (trace (st s)))%nat;
  inv_graph_calls :
    failed_calls (trace (st s)) = 0%nat ->
    (graph_calls (trace (st s)) + sum_list_with w_got (workers s)
     + sum_list_with w_classed (workers s)
     = length (sent s))%nat
}.

(** The line of line 245 is printed when the process exits with status 0,
    and only then; it is the last event. *)
Definition is_elapsed (e : Event) : bool :=
  match e with EvPrintElapsed _ => true | _ => false end.
Definition elapsed_inv {W} (s : State W) : Prop :=
  match status s with
  | Some 0 =>
      exists pre d, trace (st s) = pre ++ [EvPrintElapsed d] /\
                    forallb (fun e => negb (is_elapsed e)) pre = true
  | _ => forallb (fun e => negb (is_elapsed e)) (trace (st s)) = true
  end.

(* ===================================================================== *)
(** ** Part 7: the selection loops, proved *)
(* ===================================================================== *)

Lemma Hour_value : Hour = 3600000000000.
Proof. reflexivity. Qed.

(** The loop of [lookup_flight_time] from any running best [b]: the result
    is [b] or an offer of the list; a nonzero [b] is only ever replaced by a
    shorter nonzero offer; and no nonzero offer of the list is shorter than
    the result. *)
Lemma bestDuration_fold_spec (offers : list FullOffer) :
  forall b : FullOffer,
    let r := fold_left bestDuration_step offers b in
    (r = b \/ r ∈ offers) /\
    (FlightDuration b <> 0 ->
     FlightDuration r <> 0 /\ FlightDuration r <= FlightDuration b) /\
    (forall o, o ∈ offers -> FlightDuration o <> 0 ->
               FlightDuration r <> 0 /\ FlightDuration r <= FlightDuration o).
Proof.
  induction offers as [|o l IH]; intros b; cbn [fold_left].
  - split; [auto | split; [intros; split; [assumption | lia] | intros o' Ho'; inversion Ho']].
  - destruct (IH (bestDuration_step b o)) as (Hin & Hb & Hall).
    assert (Hstep :
      (bestDuration_step b o = o /\ FlightDuration o <> 0 /\
       (FlightDuration b = 0 \/ FlightDuration o < FlightDuration b)) \/
      (bestDuration_step b o = b /\
       (FlightDuration o = 0 \/
        (FlightDuration b <> 0 /\ FlightDuration b <= FlightDuration o)))).
    { unfold bestDuration_step.
      destruct (Z.eqb_spec (FlightDuration o) 0);
        destruct (Z.eqb_spec (FlightDuration b) 0);
        destruct (Z.ltb_spec (FlightDuration o) (FlightDuration b));
        cbn; auto; right; split; auto; right; lia. }
    cbv zeta. split; [|split].
    + destruct Hin as [-> | Hin].
      * destruct Hstep as [(-> & _) | (-> & _)]; auto.
        right. apply list_elem_of_here.
      * right. now apply list_elem_of_further.
    + intros Hb0. destruct Hstep as [(Hs & Ho & Hlt) | (Hs & _)];
        rewrite Hs in Hb |- *.
      * destruct (Hb Ho). split; lia.
      * auto.
    + intros o' Ho' Hnz. apply elem_of_cons in Ho' as [-> | Ho']; [|auto].
      destruct Hstep as [(Hs & Ho & Hlt) | (Hs & [Hz | (Hbn & Hle)])];
        rewrite Hs in Hb |- *; try contradiction.
      * auto.
      * destruct (Hb Hbn). split; lia.
Qed.

(** What lines 100-108 compute from the offers of the probe. *)
Lemma bestDuration_loop_spec (offers : list FullOffer) :
  let d := FlightDuration (bestDuration_loop offers) in
  ((forall o, o ∈ offers -> FlightDuration o = 0) -> d = 0) /\
  ((exists o, o ∈ offers /\ FlightDuration o <> 0) ->
   d <> 0 /\ (exists o, o ∈ offers /\ FlightDuration o = d) /\
   forall o, o ∈ offers -> FlightDuration o <> 0 -> d <= FlightDuration o).
Proof.
  unfold bestDuration_loop.
  destruct (bestDuration_fold_spec offers zero_FullOffer) as (Hin & _ & Hall).
  cbv zeta. split.
  - intros Hz. destruct Hin as [-> | Hin]; [reflexivity | auto].
  - intros (o & Ho & Hnz). destruct (Hall o Ho Hnz) as [Hd Hle].
    split; [exact Hd | split].
    + destruct Hin as [Heq | Hin]; [|eauto].
      rewrite Heq in Hd. now contradiction Hd.
    + intros o' Ho' Hnz'. now apply Hall.
Qed.

(** ** The sequential code, step by step *)

Ltac unfold_M :=
  unfold GetFlightClass, lookup_flight_time, Processor_class, Processor_graph,
    GetActualOffers, GetActualOffers_best, GetActualOffers_print,
    main_startup, main_from_args, main_setup, main_finish, importConfig,
    GetOffers, GetPriceGraph, Now,
    bind, ret, ask, emit, log_Fatal, panic, os_Exit in *.

(** [lookup_flight_time] is the probe: the clock read twice, one call of
    the service, and the selected duration or the end of the process. *)
Lemma lookup_flight_time_spec {W} (E : Env W) (src dst : string) (s : St W) :
  lookup_flight_time E src dst s
  = (match (probe_answer E s src dst).1 with
     | Err _ => Exit 1
     | Res offers => Ok (FlightDuration (bestDuration_loop offers), None)
     end,
     {| world := (probe_answer E s src dst).2;
        trace := trace s ++ [EvGetOffers (probe_now E s src dst)
                                         (probe_answer E s src dst).1] |}).
Proof.
  unfold probe_answer, probe_now, probe_args. unfold_M. cbn.
  destruct (time_Now E (world s)) as [t1 w1]. cbn.
  destruct (time_Now E w1) as [t2 w2]. cbn.
  match goal with |- context [session_GetOffers E ?a w2] =>
    destruct (session_GetOffers E a w2) as [ans w3] end.
  destruct ans; reflexivity.
Qed.

(** C7.  [lookup_flight_time] makes exactly one call of the service, the
    probe of lines 89-95: its arguments are built from two readings of the
    clock, it is asked of the world as those readings left it, the trace
    grows by that one call with the answer the service gave, and the world
    is the one the call leaves.  When the answer is a list of offers, the
    function returns, with a [nil] error, the minimum nonzero
    [FlightDuration] of the list, and 0 when no offer of the list (an empty
    list included) has a nonzero duration.  (When the call fails the
    function does not return: [log.Fatal].) *)
Theorem C7_lookup_flight_time_minimum_nonzero_duration :
  forall (W : Type) (E : Env W) (src dst : string) (s : St W),
    let t1 := (time_Now E (world s)).1 in
    let t2 := (time_Now E (time_Now E (world s)).2).1 in
    let a := probe_args E t1 t2 src dst in
    let answer := session_GetOffers E a (time_Now E (time_Now E (world s)).2).2 in
    (lookup_flight_time E src dst s).2
    = {| world := answer.2; trace := trace s ++ [EvGetOffers a answer.1] |} /\
    match answer.1 with
    | Err _ => (lookup_flight_time E src dst s).1 = Exit 1
    | Res offers =>
        exists d : Duration,
          (lookup_flight_time E src dst s).1 = Ok (d, None) /\
          ((forall o, o ∈ offers -> FlightDuration o = 0) -> d = 0) /\
          ((exists o, o ∈ offers /\ FlightDuration o <> 0) ->
           d <> 0 /\
           (exists o, o ∈ offers /\ FlightDuration o = d) /\
           (forall o, o ∈ offers -> FlightDuration o <> 0 ->
                      d <= FlightDuration o))
    end.
Proof.
  intros W E src dst s. cbv zeta.
  rewrite (lookup_flight_time_spec E src dst s).
  unfold probe_answer, probe_now. cbn [fst snd].
  split; [reflexivity|].
  destruct (session_GetOffers E _ _) as [[offers|e] w3]; cbn [fst snd];
    [|reflexivity].
  exists (FlightDuration (bestDuration_loop offers)).
  split; [reflexivity|]. apply bestDuration_loop_spec.
Qed.

(** C4.  Whenever the probe of [lookup_flight_time] yields a duration [d],
    [GetFlightClass] returns a class [c] in the same state, with
    [c = Economy] if [d < 6h], [c = PremiumEconomy] if [6h <= d < 10h] and
    [c = Business] if [10h <= d]; so 6h is Premium Economy, 10h is Business
    and the undefined duration 0 is Economy. *)
Theorem C4_GetFlightClass_thresholds :
  forall (W : Type) (E : Env W) (src dst : string) (s s' : St W) (d : Duration),
    lookup_flight_time E src dst s = (Ok (d, None), s') ->
    exists c : Class,
      GetFlightClass E src dst s = (Ok c, s') /\
      (d < 6 * Hour -> c = Economy) /\
      (6 * Hour <= d < 10 * Hour -> c = PremiumEconomy) /\
      (10 * Hour <= d -> c = Business) /\
      (d = 6 * Hour -> c = PremiumEconomy) /\
      (d = 10 * Hour -> c = Business) /\
      (d = 0 -> c = Economy).
Proof.
  intros W E src dst s s' d Hl.
  unfold GetFlightClass, bind. rewrite Hl. unfold ret.
  eexists. split; [reflexivity|].
  rewrite Hour_value.
  destruct (Z.ltb_spec d (6 * 3600000000000));
    destruct (Z.leb_spec (6 * 3600000000000) d);
    destruct (Z.ltb_spec d (10 * 3600000000000));
    cbn [andb]; repeat split; intros; first [reflexivity | lia].
Qed.

Lemma C4_witness_six_hours :
  let s := {| world := world_six_hours; trace := [] |} in
  let s' := (lookup_flight_time scripted "NYC" "IST" s).2 in
  lookup_flight_time scripted "NYC" "IST" s = (Ok (6 * Hour, None), s') /\
  GetFlightClass scripted "NYC" "IST" s = (Ok PremiumEconomy, s').
Proof.
  cbv zeta.
  assert (Hl : lookup_flight_time scripted "NYC" "IST"
                 {| world := world_six_hours; trace := [] |}
               = (Ok (6 * Hour, None),
                  (lookup_flight_time scripted "NYC" "IST"
                     {| world := world_six_hours; trace := [] |}).2))
    by reflexivity.
  split; [exact Hl|].
  destruct (C4_GetFlightClass_thresholds Script scripted "NYC" "IST" _ _ _ Hl)
    as (c & Hc & _ & _ & _ & H6 & _).
  rewrite Hc, (H6 eq_refl). reflexivity.
Defined.

(** C8.  The reduction of [GetActualOffers] leaves the zero-valued offer
    (price 0) on the empty list, and on a list of one offer it selects that
    offer, whatever its price. *)
Theorem C8_offer_reduction_empty_and_single :
  Price (FOffer (bestOffer_loop [])) = 0%float /\
  (forall offer : FullOffer, bestOffer_loop [offer] = offer) /\
  (forall (P : float) (d : Duration),
      Price (FOffer (bestOffer_loop [offer_of P d])) = P).
Proof.
  split; [reflexivity|].
  assert (H : forall offer, bestOffer_loop [offer] = offer) by reflexivity.
  split; [exact H|]. intros P d. now rewrite H.
Qed.

(** C1, at the failing input.  In the list of a 5-dollar offer followed by
    an offer of price 0, the offer of price 0 replaces the running best of
    price 5, and the reduction ends with price 0 although an offer with a
    nonzero price is in the list. *)
Theorem C1_zero_price_replaces_running_best :
  let offers := [offer_of 5 (2 * Hour); offer_of 0 (3 * Hour)] in
  PrimFloat.eqb (Price (FOffer (offer_of 5 (2 * Hour)))) 0 = false /\
  offer_of 5 (2 * Hour) ∈ offers /\
  bestOffer_step (offer_of 5 (2 * Hour)) (offer_of 0 (3 * Hour))
  = offer_of 0 (3 * Hour) /\
  Price (FOffer (bestOffer_loop offers)) = 0%float.
Proof.
  cbv zeta. split; [reflexivity|]. split; [apply list_elem_of_here|].
  split; reflexivity.
Qed.

(** C3, at the failing input.  The two orders of the same two offers, one
    of price 5 and one of price 0, are reduced to different prices: 0 when
    the priced offer comes first, 5 when it comes last. *)
Theorem C3_reduction_depends_on_order :
  let l1 := [offer_of 5 (2 * Hour); offer_of 0 (3 * Hour)] in
  let l2 := [offer_of 0 (3 * Hour); offer_of 5 (2 * Hour)] in
  Permutation l1 l2 /\
  Price (FOffer (bestOffer_loop l1)) = 0%float /\
  Price (FOffer (bestOffer_loop l2)) = 5%float /\
  PrimFloat.eqb (Price (FOffer (bestOffer_loop l1)))
                (Price (FOffer (bestOffer_loop l2))) = false.
Proof.
  cbv zeta. split; [apply perm_swap|]. repeat split.
Qed.

(** ** The start of [main] *)

(** The sequential start of [main] touches the configuration file and the
    session only. *)
Lemma main_startup_trace {W} (E : Env W) (fl : Flags) (s : St W) :
  exists evs,
    trace (main_startup E fl s).2 = trace s ++ evs /\
    forallb startup_event evs = true.
Proof.
  unfold_M. cbn.
  destruct (time_Now E (world s)) as [t w1]. cbn.
  destruct (flags_missing fl); cbn.
  { exists []. now rewrite app_nil_r. }
  destruct (conf_yml E w1) as [[config|e] w2]; cbn.
  2:{ eexists [_]. split; reflexivity. }
  destruct (flights_New E w2) as [[u|e] w3]; cbn.
  2:{ eexists [_; _]. rewrite <- app_assoc. split; reflexivity. }
  destruct (time_Parse E "2006-01-02" (startDate fl)) as [d1|e]; cbn.
  2:{ eexists [_; _]. rewrite <- app_assoc. split; reflexivity. }
  destruct (time_Parse E "2006-01-02" (endDate fl)) as [d2|e]; cbn.
  2:{ eexists [_; _]. rewrite <- app_assoc. split; reflexivity. }
  eexists [_; _]. rewrite <- app_assoc. split; reflexivity.
Qed.

Lemma flags_missing_true (fl : Flags) :
  flags_missing fl = true <->
  destination fl = "" \/ startDate fl = "" \/ endDate fl = "" \/ nights fl = 0.
Proof.
  unfold flags_missing. rewrite !orb_true_iff, !String.eqb_eq, Z.eqb_eq.
  tauto.
Qed.

(** C10.  When one of the four flags is absent (an empty [destination],
    [start-date] or [end-date], or [nights] equal to 0) the process has
    exited with status 1 at the end of the start of [main], having read the
    clock once and nothing else: no event is in the trace, so neither the
    configuration nor the pricing service was touched, and no goroutine can
    move.  When all four are present (any nonzero [nights], negative ones
    included) the check passes: [main] goes on to [importConfig], whose
    event is the first of the trace. *)
Theorem C10_missing_flag_is_fatal_before_anything_else :
  forall (W : Type) (E : Env W) (fl : Flags) (w0 : W),
    (destination fl = "" \/ startDate fl = "" \/ endDate fl = "" \/
     nights fl = 0 ->
     let s := main_init E fl w0 in
     status s = Some 1 /\
     trace (st s) = [] /\
     world (st s) = (time_Now E w0).2 /\
     forall a, step E a s = None) /\
    (destination fl <> "" /\ startDate fl <> "" /\ endDate fl <> "" /\
     nights fl <> 0 ->
     main_startup E fl {| world := w0; trace := [] |}
     = (let* t := Now E in
        let* (config, baseArgs) := main_setup E fl in
        ret (t, config, baseArgs)) {| world := w0; trace := [] |} /\
     exists ok rest, trace (st (main_init E fl w0)) = EvImportConfig ok :: rest).
Proof.
  intros W E fl w0. split.
  - intros Hmiss. apply flags_missing_true in Hmiss.
    unfold main_init, main_startup, Now, bind, ask, log_Fatal. cbn.
    destruct (time_Now E w0) as [t w1]. cbn. rewrite Hmiss. cbn.
    repeat split.
  - intros (Hd & Hs & He & Hn).
    assert (Hpass : flags_missing fl = false).
    { destruct (flags_missing fl) eqn:Hm; [|reflexivity].
      apply flags_missing_true in Hm. tauto. }
    split.
    + unfold main_startup, bind. destruct (Now E _) as [[t|c] x]; [|reflexivity].
      now rewrite Hpass.
    + unfold main_init. unfold_M. cbn.
      destruct (time_Now E w0) as [t w1]. cbn. rewrite Hpass. cbn.
      destruct (conf_yml E w1) as [[config|e] w2]; cbn; [|eauto].
      destruct (flights_New E w2) as [[u|e] w3]; cbn; [|eauto].
      destruct (time_Parse E "2006-01-02" (startDate fl)) as [d1|e]; cbn; [|eauto].
      destruct (time_Parse E "2006-01-02" (endDate fl)) as [d2|e]; cbn; eauto.
Qed.

Lemma C10_witness_nights :
  (nights flags_no_nights = 0 /\
   status (main_init scripted flags_no_nights world_two_pairs) = Some 1 /\
   trace (st (main_init scripted flags_no_nights world_two_pairs)) = []) /\
  (nights flags_negative_nights <> 0 /\
   exists ok rest,
     trace (st (main_init scripted flags_negative_nights world_two_pairs))
     = EvImportConfig ok :: rest).
Proof.
  split.
  - split; [reflexivity|].
    destruct (proj1 (C10_missing_flag_is_fatal_before_anything_else
                       Script scripted flags_no_nights world_two_pairs))
      as (Hst & Htr & _).
    + right. right. right. reflexivity.
    + split; assumption.
  - split; [discriminate|].
    apply (proj2 (C10_missing_flag_is_fatal_before_anything_else
                    Script scripted flags_negative_nights world_two_pairs)).
    repeat split; discriminate.
Defined.

(* ===================================================================== *)
(** ** Part 8: the moves of the goroutines *)
(* ===================================================================== *)

Lemma GetFlightClass_cases {W} (E : Env W) (src dst : string) (x : St W) :
  let x' := {| world := (probe_answer E x src dst).2;
               trace := trace x ++ [EvGetOffers (probe_now E x src dst)
                                                (probe_answer E x src dst).1] |} in
  match (probe_answer E x src dst).1 with
  | Err _ => GetFlightClass E src dst x = (Exit 1, x')
  | Res _ => exists c, GetFlightClass E src dst x = (Ok c, x') /\ resolved c = true
  end.
Proof.
  cbv zeta. unfold GetFlightClass, bind.
  rewrite (lookup_flight_time_spec E src dst x).
  destruct ((probe_answer E x src dst).1); [|reflexivity].
  unfold ret. eexists. split; [reflexivity|].
  destruct (_ <? _); [reflexivity|]. destruct (_ && _); reflexivity.
Qed.

Lemma Processor_class_detail {W} (E : Env W) (Req : PriceGraphArgs) (x : St W) :
  ((PSrcCities Req = [] \/ PDstCities Req = []) /\
   Processor_class E Req x = (Exit 2, x)) \/
  (exists src rs dst rd,
      PSrcCities Req = src :: rs /\ PDstCities Req = dst :: rd /\
      let x' := {| world := (probe_answer E x src dst).2;
                   trace := trace x ++ [EvGetOffers (probe_now E x src dst)
                                                    (probe_answer E x src dst).1] |} in
      match (probe_answer E x src dst).1 with
      | Err _ => Processor_class E Req x = (Exit 1, x')
      | Res _ =>
          exists c, Processor_class E Req x = (Ok (set_Class Req c, src, dst), x') /\
                    resolved c = true
      end).
Proof.
  unfold Processor_class.
  destruct (PSrcCities Req) as [|src rs]; [left; split; auto|].
  destruct (PDstCities Req) as [|dst rd]; [left; split; auto|].
  right. exists src, rs, dst, rd.
  split; [reflexivity|]. split; [reflexivity|].
  pose proof (GetFlightClass_cases E src dst x) as H. cbv zeta in H |- *.
  unfold bind.
  destruct ((probe_answer E x src dst).1).
  - destruct H as (c & -> & Hc). exists c. auto.
  - now rewrite H.
Qed.

Lemma Processor_graph_spec {W} (E : Env W) (Req : PriceGraphArgs) (x : St W) :
  Processor_graph E Req x
  = (match (session_GetPriceGraph E Req (world x)).1 with
     | Err _ => Exit 1
     | Res priceGraphOffers => Ok priceGraphOffers
     end,
     {| world := (session_GetPriceGraph E Req (world x)).2;
        trace := trace x ++ [EvGetPriceGraph Req
                               (session_GetPriceGraph E Req (world x)).1] |}).
Proof.
  unfold_M. cbn.
  destruct (session_GetPriceGraph E Req (world x)) as [[offers|e] w']; reflexivity.
Qed.

Lemma GetActualOffers_best_spec {W} (E : Env W) (o : Offer)
    (Req : PriceGraphArgs) (x : St W) :
  GetActualOffers_best E o Req x
  = (match (session_GetOffers E (offers_args o Req) (world x)).1 with
     | Err _ => Exit 1
     | Res offers => Ok (bestOffer_loop offers)
     end,
     {| world := (session_GetOffers E (offers_args o Req) (world x)).2;
        trace := trace x ++ [EvGetOffers (offers_args o Req)
                               (session_GetOffers E (offers_args o Req) (world x)).1] |}).
Proof.
  unfold_M. cbn. fold (offers_args o Req).
  destruct (session_GetOffers E (offers_args o Req) (world x)) as [[offers|e] w'];
    reflexivity.
Qed.

(** Every move of [step] is a move of [Step], from a running process. *)
Lemma step_Step {W} (E : Env W) (a : Action) (s s' : State W) :
  step E a s = Some s' -> status s = None /\ Step E a s s'.
Proof.
  unfold step. destruct (status s) eqn:Hst; [discriminate|].
  intros H. split; [reflexivity|]. destruct a as [|w|w|w i].
  - unfold main_step in H.
    destruct (mainpc s) as [[|source rest]|args rest|] eqn:Hpc;
      try discriminate.
    + injection H as <-. now apply Step_close.
    + injection H as <-. now apply Step_start.
    + destruct (Z.eqb_spec (ProcessorWg s) 0) as [Hz|]; [|discriminate].
      injection H as <-. unfold run_seq, main_finish, Now, bind, ask, emit. cbn.
      destruct (time_Now E (world (st s))) as [now w']. cbn.
      eapply Step_finish; eauto.
  - unfold FlightRequirements_step in H.
    destruct (mainpc s) as [|args rest|] eqn:Hpc; try discriminate.
    destruct (workers s !! w) as [[]|] eqn:Hw; try discriminate.
    injection H as <-. now apply Step_send.
  - unfold Processor_step in H.
    destruct (workers s !! w)
      as [[|Req|got Req src dst|Req src dst lg fs| |c]|] eqn:Hw;
      try discriminate.
    + destruct (closed s) eqn:Hcl; [|discriminate].
      destruct (wg_Done (ProcessorWg s)) as [n|] eqn:Hd; injection H as <-.
      * now apply Step_end.
      * now apply Step_end_panic.
    + injection H as <-. unfold run_seq.
      destruct (Processor_class_detail E Req (st s))
        as [(Hnil & ->) | (src & rs & dst & rd & Hs & Hd & H)].
      * eapply Step_class_panic; eauto.
      * cbv zeta in H.
        destruct (probe_answer E (st s) src dst) as [[offers|e] w'] eqn:Hans;
          cbn [fst snd] in H.
        -- destruct H as (c & -> & Hc).
           eapply (Step_class E s w Req
                     {| world := w';
                        trace := trace (st s)
                                 ++ [EvGetOffers (probe_now E (st s) src dst)
                                                 (Res offers)] |});
             eauto.
        -- rewrite H.
           eapply (Step_class_fatal E s w Req
                     {| world := w';
                        trace := trace (st s)
                                 ++ [EvGetOffers (probe_now E (st s) src dst)
                                                 (Err e)] |});
             eauto.
    + injection H as <-. unfold run_seq. rewrite Processor_graph_spec.
      destruct (session_GetPriceGraph E Req (world (st s)))
        as [[offers|e] w'] eqn:Hans; cbn [fst snd].
      * eapply (Step_graph E s w got Req src dst
                  {| world := w';
                     trace := trace (st s) ++ [EvGetPriceGraph Req (Res offers)] |});
          eauto.
      * eapply (Step_graph_fatal E s w got Req src dst
                  {| world := w';
                     trace := trace (st s) ++ [EvGetPriceGraph Req (Err e)] |});
          eauto.
    + destruct (Z.eqb_spec lg 0) as [->|]; [|discriminate].
      injection H as <-. eapply Step_waited; eauto.
    + injection H as <-. now apply Step_exit.
  - unfold GetActualOffers_step in H.
    destruct (workers s !! w)
      as [[|Req|got Req src dst|Req src dst lg fs| |c]|] eqn:Hw;
      try discriminate.
    destruct (fs !! i) as [[o [|bestOffer| |c]]|] eqn:Hf; try discriminate;
      injection H as <-; unfold run_seq.
    + rewrite GetActualOffers_best_spec.
      destruct (session_GetOffers E (offers_args o Req) (world (st s)))
        as [[offers|e] w'] eqn:Hans; cbn [fst snd].
      * eapply (Step_fetch E s w i Req src dst lg fs o
                  {| world := w';
                     trace := trace (st s)
                              ++ [EvGetOffers (offers_args o Req) (Res offers)] |});
          eauto.
      * eapply (Step_fetch_fatal E s w i Req src dst lg fs o
                  {| world := w';
                     trace := trace (st s)
                              ++ [EvGetOffers (offers_args o Req) (Err e)] |});
          eauto.
    + unfold GetActualOffers_print, emit.
      destruct (wg_Done lg) as [n|] eqn:Hd.
      * eapply Step_print; eauto.
      * eapply Step_print_panic; eauto.
    + eapply Step_fexit; eauto.
Qed.

(** ** Sums over the workers and the trace *)

Lemma sum_list_with_insert {A} (f : A -> nat) (l : list A) (i : nat) (x y : A) :
  l !! i = Some x ->
  (sum_list_with f (<[i := y]> l) + f x = sum_list_with f l + f y)%nat.
Proof.
  revert i. induction l as [|z l IH]; intros [|i] H; simpl in *;
    try discriminate.
  - injection H as ->. lia.
  - specialize (IH i H). lia.
Qed.

Lemma sum_list_with_lookup {A} (f : A -> nat) (l : list A) (i : nat) (x : A) :
  l !! i = Some x -> (f x <= sum_list_with f l)%nat.
Proof.
  revert i. induction l as [|z l IH]; intros [|i] H; simpl in *;
    try discriminate.
  - injection H as ->. lia.
  - specialize (IH i H). lia.
Qed.

Lemma sum_list_with_le_length {A} (f : A -> nat) (l : list A) :
  (forall x, f x <= 1)%nat -> (sum_list_with f l <= length l)%nat.
Proof.
  intros Hf. induction l as [|z l IH]; cbn; [lia|]. specialize (Hf z). lia.
Qed.

Lemma sum_list_with_all_one {A} (f : A -> nat) (l : list A) :
  (forall x, f x <= 1)%nat -> sum_list_with f l = length l ->
  forall x, x ∈ l -> f x = 1%nat.
Proof.
  intros Hf. induction l as [|z l IH]; cbn; intros Hs x Hx.
  - inversion Hx.
  - pose proof (Hf z). pose proof (sum_list_with_le_length f l Hf).
    apply elem_of_cons in Hx as [-> | Hx]; [lia|]. apply IH; [lia | exact Hx].
Qed.

Lemma sum_list_with_le {A} (f g : A -> nat) (l : list A) :
  (forall x, f x <= g x)%nat -> (sum_list_with f l <= sum_list_with g l)%nat.
Proof.
  intros Hfg. induction l as [|z l IH]; simpl; [lia|]. specialize (Hfg z). lia.
Qed.

Lemma sum_list_with_fresh (f : Fetcher -> nat) (n : nat) (offers : list Offer) :
  (forall o, f {| priceGraphOffer := o; fpc := FCall |} = n) ->
  sum_list_with f
    (map (fun o => {| priceGraphOffer := o; fpc := FCall |}) offers)
  = (n * length offers)%nat.
Proof.
  intros Hf. induction offers as [|o l IH]; simpl; [lia|].
  rewrite IH, Hf. lia.
Qed.

Lemma unfinished_fresh (offers : list Offer) :
  sum_list_with unfinished
    (map (fun o => {| priceGraphOffer := o; fpc := FCall |}) offers)
  = length offers.
Proof. rewrite (sum_list_with_fresh _ 1); [lia | reflexivity]. Qed.

Lemma f_exiting_fresh (offers : list Offer) :
  sum_list_with f_exiting
    (map (fun o => {| priceGraphOffer := o; fpc := FCall |}) offers)
  = 0%nat.
Proof. rewrite (sum_list_with_fresh _ 0); [lia | reflexivity]. Qed.

Lemma f_exiting_le_unfinished (fs : list Fetcher) :
  (sum_list_with f_exiting fs <= sum_list_with unfinished fs)%nat.
Proof. apply sum_list_with_le. intros [o []]; cbv; lia. Qed.

Lemma date_pairs_snoc (tr : list Event) (e : Event) :
  date_pairs (tr ++ [e]) = (date_pairs tr + pairs_of e)%nat.
Proof. unfold date_pairs. rewrite sum_list_with_app. cbn. lia. Qed.

Lemma best_lines_snoc (tr : list Event) (e : Event) :
  best_lines (tr ++ [e]) = (best_lines tr + lines_of e)%nat.
Proof. unfold best_lines. rewrite sum_list_with_app. cbn. lia. Qed.

Lemma failed_calls_snoc (tr : list Event) (e : Event) :
  failed_calls (tr ++ [e]) = (failed_calls tr + failure_of e)%nat.
Proof. unfold failed_calls. rewrite sum_list_with_app. cbn. lia. Qed.

Lemma failed_calls_pos (tr : list Event) :
  failed_calls tr <> 0%nat -> exists e, e ∈ tr /\ failed_call e = true.
Proof.
  induction tr as [|e tr IH]; simpl; intros H; [now contradiction H|].
  unfold failed_calls in H. simpl in H. unfold failure_of at 1 in H.
  destruct (failed_call e) eqn:He.
  - exists e. split; [apply list_elem_of_here | exact He].
  - destruct (IH H) as (e' & Hin & He'). exists e'.
    split; [now apply list_elem_of_further | exact He'].
Qed.

Lemma failed_calls_zero (tr : list Event) (e : Event) :
  failed_calls tr = 0%nat -> e ∈ tr -> failed_call e = false.
Proof.
  induction tr as [|e' tr IH]; intros H Hin; [inversion Hin|].
  unfold failed_calls in H. simpl in H. unfold failure_of at 1 in H.
  apply elem_of_cons in Hin as [-> | Hin].
  - destruct (failed_call e'); [discriminate | reflexivity].
  - apply IH; [|exact Hin]. unfold failed_calls. lia.
Qed.

Lemma w_ok_more (sent : list PriceGraphArgs) (args : PriceGraphArgs) (pc : WorkerPc) :
  w_ok sent pc -> w_ok (sent ++ [args]) pc.
Proof.
  destruct pc; cbn; auto.
  - intros H. apply elem_of_app. now left.
  - intros (H & Hc). split; [apply elem_of_app; now left | exact Hc].
Qed.

(** ** The invariant is kept by every move *)

Ltac inv_trace H :=
  rewrite H; try rewrite date_pairs_snoc; try rewrite best_lines_snoc; simpl.

Ltac inv_sums Hw new :=
  pose proof (sum_list_with_insert w_pending _ _ _ new Hw);
  pose proof (sum_list_with_insert w_done _ _ _ new Hw);
  simpl in *.

Lemma graph_event_snoc (tr : list Event) (e : Event) a r :
  EvGetPriceGraph a r ∈ tr ++ [e] ->
  EvGetPriceGraph a r ∈ tr \/ e = EvGetPriceGraph a r.
Proof.
  intros Hin. apply elem_of_app in Hin as [Hin|Hin]; [now left|].
  apply list_elem_of_singleton in Hin. now right.
Qed.

(** A goroutine that has not returned keeps the counter of its WaitGroup
    above zero, so [Done] cannot take it below. *)
Lemma lg_Done_ok (lg : Z) (fetchers : list Fetcher) (i : nat) (f : Fetcher) :
  lg = Z.of_nat (sum_list_with unfinished fetchers) ->
  fetchers !! i = Some f -> unfinished f = 1%nat ->
  wg_Done lg = None -> False.
Proof.
  intros Hlg Hf Hu Hd.
  pose proof (sum_list_with_lookup unfinished _ _ _ Hf) as Hle.
  unfold wg_Done in Hd. destruct (Z.ltb_spec (lg - 1) 0); [|discriminate].
  lia.
Qed.

Lemma Inv_Step {W} (E : Env W) (atts : list Attendee) (a : Action)
    (s s' : State W) :
  Inv atts s -> Step E a s s' -> Inv atts s'.
Proof.
  intros [HA HB HC HD HE] HS.
  destruct HS.
  - (* start *) constructor; simpl.
    + rewrite sum_list_with_app. simpl. lia.
    + apply Forall_app. split; [assumption|]. repeat constructor.
    + rewrite H in HC. simpl in HC. rewrite sum_list_with_app, length_app. simpl. lia.
    + rewrite H in HD. exact HD.
    + exact HE.
  - (* close *) constructor; simpl; auto.
    + rewrite H in HC. simpl in HC. exact HC.
    + rewrite H in HD. exact HD.
  - (* finish *) constructor; simpl; auto.
    + inv_trace H1. lia.
    + intros a r Hin. rewrite H1 in Hin.
      apply graph_event_snoc in Hin as [Hin|Hin]; [eauto | discriminate].
  - (* send *) inv_sums H0 (WGot args). constructor; simpl.
    + lia.
    + apply Forall_insert.
      * eapply Forall_impl; [exact HB|]. intros pc. apply w_ok_more.
      * simpl. apply elem_of_app. right. apply list_elem_of_here.
    + rewrite H in HC. simpl in HC. rewrite length_insert. lia.
    + rewrite H in HD. simpl in HD. rewrite <- app_assoc. exact HD.
    + intros a r Hin. destruct (HE a r Hin) as (Req & c & Hs & Hc & ->).
      exists Req, c. split; [apply elem_of_app; now left | auto].
  - (* end *) inv_sums H (WDone). constructor; simpl; auto.
    + lia.
    + apply Forall_insert; [assumption | exact I].
    + unfold wg_Done in H1. destruct (_ <? _); [discriminate|].
      injection H1 as <-. rewrite length_insert. lia.
  - (* end, panic *) inv_sums H (WExit 2). constructor; simpl; auto.
    + lia.
    + apply Forall_insert; [assumption | exact I].
    + rewrite length_insert. lia.
  - (* class, panic *) inv_sums H (WExit 2). constructor; simpl; auto.
    + rewrite H1. lia.
    + apply Forall_insert; [assumption | exact I].
    + rewrite length_insert. lia.
    + rewrite H1. exact HE.
  - (* class *) inv_sums H (WClassed Req (set_Class Req c) src dst).
    pose proof (Forall_lookup_1 _ _ _ _ HB H) as Hok. simpl in Hok.
    constructor; simpl; auto.
    + inv_trace H3. lia.
    + apply Forall_insert; [assumption|]. simpl. eauto.
    + rewrite length_insert. lia.
    + intros a' r Hin. rewrite H3 in Hin.
      apply graph_event_snoc in Hin as [Hin|Hin]; [eauto | discriminate].
  - (* class, fatal *) inv_sums H (WExit 1).
    constructor; simpl; auto.
    + inv_trace H3. lia.
    + apply Forall_insert; [assumption | exact I].
    + rewrite length_insert. lia.
    + intros a' r Hin. rewrite H3 in Hin.
      apply graph_event_snoc in Hin as [Hin|Hin]; [eauto | discriminate].
  - (* graph *)
    inv_sums H (WWait Req src dst (Z.of_nat (length offers))
                  (map (fun o => {| priceGraphOffer := o; fpc := FCall |}) offers)).
    pose proof (Forall_lookup_1 _ _ _ _ HB H) as Hok. simpl in Hok.
    destruct Hok as (Hgot & c & Hc & Hreq).
    rewrite unfinished_fresh in *.
    constructor; simpl; auto.
    + inv_trace H1. lia.
    + apply Forall_insert; [assumption|]. simpl. now rewrite unfinished_fresh.
    + rewrite length_insert. lia.
    + intros a' r Hin. rewrite H1 in Hin.
      apply graph_event_snoc in Hin as [Hin|Hin]; [eauto|].
      injection Hin as <- _. eauto.
  - (* graph, fatal *) inv_sums H (WExit 1).
    pose proof (Forall_lookup_1 _ _ _ _ HB H) as Hok. simpl in Hok.
    destruct Hok as (Hgot & c & Hc & Hreq).
    constructor; simpl; auto.
    + inv_trace H1. lia.
    + apply Forall_insert; [assumption | exact I].
    + rewrite length_insert. lia.
    + intros a' r Hin. rewrite H1 in Hin.
      apply graph_event_snoc in Hin as [Hin|Hin]; [eauto|].
      injection Hin as <- _. eauto.
  - (* waited *) inv_sums H WRecv.
    pose proof (Forall_lookup_1 _ _ _ _ HB H) as Hok. simpl in Hok.
    constructor; simpl; auto.
    + lia.
    + apply Forall_insert; [assumption | exact I].
    + rewrite length_insert. lia.
  - (* exit *) constructor; simpl; auto.
  - (* fetch *)
    inv_sums H (WWait Req src dst lg
                  (<[i := {| priceGraphOffer := o;
                             fpc := FPrint (bestOffer_loop offers) |}]> fetchers)).
    pose proof (Forall_lookup_1 _ _ _ _ HB H) as Hok. simpl in Hok.
    pose proof (sum_list_with_insert unfinished _ _ _
                  {| priceGraphOffer := o;
                     fpc := FPrint (bestOffer_loop offers) |} H0) as Hf.
    change (unfinished {| priceGraphOffer := o; fpc := FCall |}) with 1%nat in Hf.
    change (unfinished {| priceGraphOffer := o;
                          fpc := FPrint (bestOffer_loop offers) |})
      with 1%nat in Hf.
    constructor; simpl; auto.
    + inv_trace H2. lia.
    + apply Forall_insert; [assumption|]. simpl. lia.
    + rewrite length_insert. lia.
    + intros a' r Hin. rewrite H2 in Hin.
      apply graph_event_snoc in Hin as [Hin|Hin]; [eauto | discriminate].
  - (* fetch, fatal *)
    inv_sums H (WWait Req src dst lg
                  (<[i := {| priceGraphOffer := o; fpc := FExit 1 |}]> fetchers)).
    pose proof (Forall_lookup_1 _ _ _ _ HB H) as Hok. simpl in Hok.
    pose proof (sum_list_with_insert unfinished _ _ _
                  {| priceGraphOffer := o; fpc := FExit 1 |} H0) as Hf.
    change (unfinished {| priceGraphOffer := o; fpc := FCall |}) with 1%nat in Hf.
    change (unfinished {| priceGraphOffer := o; fpc := FExit 1 |})
      with 1%nat in Hf.
    constructor; simpl; auto.
    + inv_trace H2. lia.
    + apply Forall_insert; [assumption|]. simpl. lia.
    + rewrite length_insert. lia.
    + intros a' r Hin. rewrite H2 in Hin.
      apply graph_event_snoc in Hin as [Hin|Hin]; [eauto | discriminate].
  - (* print *)
    inv_sums H (WWait Req src dst n
                  (<[i := {| priceGraphOffer := o; fpc := FDone |}]> fetchers)).
    pose proof (Forall_lookup_1 _ _ _ _ HB H) as Hok. simpl in Hok.
    pose proof (sum_list_with_insert unfinished _ _ _
                  {| priceGraphOffer := o; fpc := FDone |} H0) as Hf.
    change (unfinished {| priceGraphOffer := o; fpc := FPrint bestOffer |})
      with 1%nat in Hf.
    change (unfinished {| priceGraphOffer := o; fpc := FDone |}) with 0%nat in Hf.
    unfold wg_Done in H2. destruct (_ <? _); [discriminate|].
    injection H2 as <-.
    constructor; simpl; auto.
    + inv_trace H1. lia.
    + apply Forall_insert; [assumption|]. simpl. lia.
    + rewrite length_insert. lia.
    + intros a' r Hin. rewrite H1 in Hin.
      apply graph_event_snoc in Hin as [Hin|Hin]; [eauto | discriminate].
  - (* print, panic: impossible *) exfalso.
    pose proof (Forall_lookup_1 _ _ _ _ HB H) as Hok. simpl in Hok.
    eapply lg_Done_ok; eauto.
  - (* exit of a fetcher *) constructor; simpl; auto.
Qed.

Lemma exec_snoc {W} (E : Env W) (acts : list Action) (a : Action) (s : State W) :
  exec E (acts ++ [a]) s = default (exec E acts s) (step E a (exec E acts s)).
Proof. unfold exec. now rewrite fold_left_app. Qed.

(** A property kept by every move of a running process holds after every
    schedule. *)
Lemma exec_ind {W} (E : Env W) (P : State W -> Prop) :
  (forall a s s', P s -> status s = None -> Step E a s s' -> P s') ->
  forall acts s, P s -> P (exec E acts s).
Proof.
  intros HP acts. induction acts as [|a acts IH] using rev_ind; intros s Hs.
  - exact Hs.
  - rewrite exec_snoc. specialize (IH s Hs).
    destruct (step E a (exec E acts s)) as [s'|] eqn:Hstep; [|exact IH].
    apply step_Step in Hstep as [Hrun HS]. cbn. eauto.
Qed.

Lemma exec_Inv {W} (E : Env W) (atts : list Attendee) (acts : list Action)
    (s : State W) :
  Inv atts s -> Inv atts (exec E acts s).
Proof. apply exec_ind. intros a s1 s2 H _ HS. eapply Inv_Step; eauto. Qed.

(** ** The state at the start of the pipeline *)

Lemma main_init_trace {W} (E : Env W) (fl : Flags) (w0 : W) :
  forallb startup_event (trace (st (main_init E fl w0))) = true.
Proof.
  destruct (main_startup_trace E fl {| world := w0; trace := [] |})
    as (evs & Htr & Hev).
  unfold main_init.
  destruct (main_startup E fl _) as [[[[t config] baseArgs]|c] x]; cbn in *;
    now rewrite Htr.
Qed.

Lemma startup_events_count (evs : list Event) :
  forallb startup_event evs = true ->
  date_pairs evs = 0%nat /\ best_lines evs = 0%nat /\
  failed_calls evs = 0%nat /\
  forall a r, EvGetPriceGraph a r ∉ evs.
Proof.
  induction evs as [|e evs IH]; cbn; intros H.
  - repeat split. intros a r Hin. inversion Hin.
  - apply andb_true_iff in H as [He H]. destruct (IH H) as (Hd & Hb & Hf & Hg).
    unfold date_pairs, best_lines, failed_calls in *. cbn. rewrite Hd, Hb, Hf.
    destruct e; try discriminate;
      (split; [reflexivity | split; [reflexivity | split; [reflexivity|]]]);
      intros a0 r0 Hin; apply elem_of_cons in Hin as [Hin|Hin];
      try discriminate; now apply Hg in Hin.
Qed.

(** The process started by [main] satisfies the invariant, for the attendees
    of the configuration it read (for none when the start failed). *)
Lemma Inv_main_init {W} (E : Env W) (fl : Flags) (w0 : W) :
  exists atts,
    Inv atts (main_init E fl w0) /\
    forall t config bA x,
      main_startup E fl {| world := w0; trace := [] |}
      = (Ok (t, config, bA), x) ->
      atts = Attendees config /\ baseArgs (main_init E fl w0) = bA /\
      status (main_init E fl w0) = None.
Proof.
  destruct (startup_events_count _ (main_init_trace E fl w0)) as (Hd & Hb & _ & Hg).
  unfold main_init in *.
  destruct (main_startup E fl _) as [[[[t config] bA]|c] x].
  - exists (Attendees config). split.
    + constructor; simpl in *.
      * rewrite Hd, Hb. reflexivity.
      * constructor.
      * lia.
      * reflexivity.
      * intros a r Hin. now apply Hg in Hin.
    + intros ? ? ? ? [= <- <- <- <-]. auto.
  - exists []. split; [|discriminate].
    constructor; simpl in *.
    + rewrite Hd, Hb. reflexivity.
    + constructor.
    + reflexivity.
    + reflexivity.
    + intros a r Hin. now apply Hg in Hin.
Qed.

Lemma exec_baseArgs {W} (E : Env W) (acts : list Action) (s : State W) :
  baseArgs (exec E acts s) = baseArgs s.
Proof.
  apply (exec_ind E (fun s' => baseArgs s' = baseArgs s)); [|reflexivity].
  intros a s1 s2 H _ HS. rewrite <- H. now destruct HS.
Qed.

Lemma w_done_le_1 (pc : WorkerPc) : (w_done pc <= 1)%nat.
Proof. destruct pc; simpl; lia. Qed.

Lemma all_done_workers (ws : list WorkerPc) :
  sum_list_with w_done ws = length ws -> forall pc, pc ∈ ws -> pc = WDone.
Proof.
  intros H pc Hin.
  pose proof (sum_list_with_all_one w_done ws w_done_le_1 H pc Hin) as H1.
  now destruct pc.
Qed.

Lemma all_done_sum (f : WorkerPc -> nat) (ws : list WorkerPc) :
  f WDone = 0%nat -> (forall pc, pc ∈ ws -> pc = WDone) ->
  sum_list_with f ws = 0%nat.
Proof.
  intros Hf. induction ws as [|pc ws IH]; simpl; intros H; [reflexivity|].
  rewrite (H pc (list_elem_of_here _ _)), Hf. simpl.
  apply IH. intros pc' Hin. apply H. now apply list_elem_of_further.
Qed.

Lemma all_done_none_pending (ws : list WorkerPc) :
  sum_list_with w_done ws = length ws -> sum_list_with w_pending ws = 0%nat.
Proof.
  intros H. apply all_done_sum; [reflexivity|]. now apply all_done_workers.
Qed.

(* ===================================================================== *)
(** ** Part 9: every run can be completed *)
(* ===================================================================== *)

Ltac inv_sums2 Hw new :=
  pose proof (sum_list_with_insert w_away _ _ _ new Hw);
  pose proof (sum_list_with_insert w_done _ _ _ new Hw);
  simpl in *.

Lemma Inv2_Step {W} (E : Env W) (a : Action) (s s' : State W) :
  Inv2 s -> Step E a s s' -> Inv2 s'.
Proof.
  intros [HA HB HC HD HE] HS.
  destruct HS.
  - (* start *) rewrite H in *. simpl in *. constructor; simpl; auto.
    + intros Hc. rewrite sum_list_with_app. simpl. rewrite (HB Hc). reflexivity.
    + intros Hc. rewrite sum_list_with_app. simpl. specialize (HC Hc). lia.
    + rewrite length_app. simpl. lia.
  - (* close *) rewrite H in *. simpl in *. constructor; simpl; auto.
  - (* finish *) constructor; simpl; auto.
  - (* send *) rewrite H in *. simpl in *. inv_sums2 H0 (WGot args).
    constructor; simpl; auto.
    + intros Hc. specialize (HB Hc). lia.
    + intros Hc. specialize (HC Hc). rewrite length_app. simpl. lia.
    + rewrite length_insert, length_app. simpl. lia.
  - (* end *) inv_sums2 H WDone. constructor; simpl; auto.
    + congruence.
    + congruence.
    + now rewrite length_insert.
  - (* end, panic *) inv_sums2 H (WExit 2). constructor; simpl; auto.
    + congruence.
    + congruence.
    + now rewrite length_insert.
  - (* class, panic *) inv_sums2 H (WExit 2). constructor; simpl; auto.
    + intros Hc. specialize (HB Hc). lia.
    + intros Hc. specialize (HC Hc). lia.
    + now rewrite length_insert.
  - (* class *) inv_sums2 H (WClassed Req (set_Class Req c) src dst).
    constructor; simpl; auto.
    + intros Hc. specialize (HB Hc). lia.
    + intros Hc. specialize (HC Hc). lia.
    + now rewrite length_insert.
  - (* class, fatal *) inv_sums2 H (WExit 1). constructor; simpl; auto.
    + intros Hc. specialize (HB Hc). lia.
    + intros Hc. specialize (HC Hc). lia.
    + now rewrite length_insert.
  - (* graph *)
    inv_sums2 H (WWait Req src dst (Z.of_nat (length offers))
                  (map (fun o => {| priceGraphOffer := o; fpc := FCall |}) offers)).
    constructor; simpl; auto.
    + intros Hc. specialize (HB Hc). lia.
    + intros Hc. specialize (HC Hc). lia.
    + now rewrite length_insert.
  - (* graph, fatal *) inv_sums2 H (WExit 1). constructor; simpl; auto.
    + intros Hc. specialize (HB Hc). lia.
    + intros Hc. specialize (HC Hc). lia.
    + now rewrite length_insert.
  - (* waited *) inv_sums2 H WRecv. constructor; simpl; auto.
    + intros Hc. specialize (HB Hc). lia.
    + intros Hc. specialize (HC Hc). lia.
    + now rewrite length_insert.
  - (* exit *) constructor; simpl; auto.
  - (* fetch *)
    inv_sums2 H (WWait Req src dst lg
                  (<[i := {| priceGraphOffer := o;
                             fpc := FPrint (bestOffer_loop offers) |}]> fetchers)).
    constructor; simpl; auto.
    + intros Hc. specialize (HB Hc). lia.
    + intros Hc. specialize (HC Hc). lia.
    + now rewrite length_insert.
  - (* fetch, fatal *)
    inv_sums2 H (WWait Req src dst lg
                  (<[i := {| priceGraphOffer := o; fpc := FExit 1 |}]> fetchers)).
    constructor; simpl; auto.
    + intros Hc. specialize (HB Hc). lia.
    + intros Hc. specialize (HC Hc). lia.
    + now rewrite length_insert.
  - (* print *)
    inv_sums2 H (WWait Req src dst n
                  (<[i := {| priceGraphOffer := o; fpc := FDone |}]> fetchers)).
    constructor; simpl; auto.
    + intros Hc. specialize (HB Hc). lia.
    + intros Hc. specialize (HC Hc). lia.
    + now rewrite length_insert.
  - (* print, panic *)
    inv_sums2 H (WWait Req src dst lg
                  (<[i := {| priceGraphOffer := o; fpc := FExit 2 |}]> fetchers)).
    constructor; simpl; auto.
    + intros Hc. specialize (HB Hc). lia.
    + intros Hc. specialize (HC Hc). lia.
    + now rewrite length_insert.
  - (* exit of a fetcher *) constructor; simpl; auto.
Qed.

Lemma sum_list_with_lt_length {A} (f : A -> nat) (l : list A) (i : nat) (x : A) :
  (forall y, f y <= 1)%nat -> l !! i = Some x -> f x = 0%nat ->
  (sum_list_with f l < length l)%nat.
Proof.
  intros Hf. revert i. induction l as [|z l IH]; intros [|i] H Hx; simpl in *;
    try discriminate.
  - injection H as ->. pose proof (sum_list_with_le_length f l Hf). lia.
  - specialize (IH i H Hx). specialize (Hf z). lia.
Qed.

(** The three panics the code could raise do not happen. *)
Lemma no_end_panic {W} (atts : list Attendee) (s : State W) (w : nat) :
  Inv atts s -> workers s !! w = Some WRecv ->
  wg_Done (ProcessorWg s) = None -> False.
Proof.
  intros [_ _ HC _ _] Hw Hd.
  pose proof (sum_list_with_lt_length w_done _ _ _ w_done_le_1 Hw eq_refl).
  unfold wg_Done in Hd. destruct (Z.ltb_spec (ProcessorWg s - 1) 0);
    [|discriminate]. lia.
Qed.

Lemma no_class_panic {W} (atts : list Attendee) (s : State W) (w : nat)
    (Req : PriceGraphArgs) :
  Inv atts s -> Inv2 s -> workers s !! w = Some (WGot Req) ->
  PSrcCities Req = [] \/ PDstCities Req = [] -> False.
Proof.
  intros [_ HB _ HD _] [_ _ _ _ QE] Hw Hnil.
  pose proof (Forall_lookup_1 _ _ _ _ HB Hw) as Hok. simpl in Hok.
  assert (Hmap : Req ∈ map (attendee_args (baseArgs s)) atts).
  { rewrite <- HD. apply elem_of_app. now left. }
  apply list_elem_of_In, in_map_iff in Hmap as (source & <- & _).
  simpl in Hnil. destruct Hnil as [Hnil|Hnil]; [discriminate | contradiction].
Qed.

Lemma no_print_panic {W} (atts : list Attendee) (s : State W) (w i : nat)
    Req src dst lg fetchers o bestOffer :
  Inv atts s -> workers s !! w = Some (WWait Req src dst lg fetchers) ->
  fetchers !! i = Some {| priceGraphOffer := o; fpc := FPrint bestOffer |} ->
  wg_Done lg = None -> False.
Proof.
  intros [_ HB _ _ _] Hw Hf Hd.
  pose proof (Forall_lookup_1 _ _ _ _ HB Hw) as Hok. simpl in Hok.
  eapply lg_Done_ok; eauto.
Qed.

Ltac fail_sums Hw new :=
  pose proof (sum_list_with_insert w_exiting _ _ _ new Hw);
  simpl in *.

Ltac fail_trace H :=
  rewrite H; rewrite ?failed_calls_snoc; unfold failure_of; simpl.

Lemma f_fatal_fresh (offers : list Offer) :
  Forall f_fatal (map (fun o => {| priceGraphOffer := o; fpc := FCall |}) offers).
Proof.
  apply Forall_forall. intros f Hf.
  apply list_elem_of_In, in_map_iff in Hf as (o & <- & _). exact I.
Qed.

Lemma Inv5_Step {W} (E : Env W) (atts : list Attendee) (a : Action)
    (s s' : State W) :
  Inv atts s -> Inv2 s -> Inv5 s -> Step E a s s' -> Inv5 s'.
Proof.
  intros HI HQ [HF HN] HS. pose proof HI as [_ HB _ _ _].
  destruct HS.
  - (* start *) constructor; simpl.
    + apply Forall_app. split; [assumption | repeat constructor].
    + rewrite sum_list_with_app. simpl. lia.
  - (* close *) constructor; simpl; auto.
  - (* finish *) constructor; simpl; auto. fail_trace H1. lia.
  - (* send *) fail_sums H0 (WGot args). constructor; simpl.
    + apply Forall_insert; [assumption | exact I].
    + lia.
  - (* end *) fail_sums H WDone. constructor; simpl.
    + apply Forall_insert; [assumption | exact I].
    + lia.
  - (* end, panic: impossible *) exfalso. eapply no_end_panic; eauto.
  - (* class, panic: impossible *) exfalso. eapply no_class_panic; eauto.
  - (* class *) fail_sums H (WClassed Req (set_Class Req c) src dst).
    constructor; simpl.
    + apply Forall_insert; [assumption | exact I].
    + fail_trace H3. lia.
  - (* class, fatal *) fail_sums H (WExit 1). constructor; simpl.
    + apply Forall_insert; [assumption | reflexivity].
    + fail_trace H3. lia.
  - (* graph *)
    fail_sums H (WWait Req src dst (Z.of_nat (length offers))
                   (map (fun o => {| priceGraphOffer := o; fpc := FCall |}) offers)).
    rewrite f_exiting_fresh in *.
    constructor; simpl.
    + apply Forall_insert; [assumption | apply f_fatal_fresh].
    + fail_trace H1. lia.
  - (* graph, fatal *) fail_sums H (WExit 1). constructor; simpl.
    + apply Forall_insert; [assumption | reflexivity].
    + fail_trace H1. lia.
  - (* waited *) fail_sums H WRecv.
    pose proof (Forall_lookup_1 _ _ _ _ HB H) as Hok. simpl in Hok.
    pose proof (f_exiting_le_unfinished fetchers).
    constructor; simpl.
    + apply Forall_insert; [assumption | exact I].
    + lia.
  - (* exit *) constructor; simpl; auto.
  - (* fetch *)
    fail_sums H (WWait Req src dst lg
                   (<[i := {| priceGraphOffer := o;
                              fpc := FPrint (bestOffer_loop offers) |}]> fetchers)).
    pose proof (sum_list_with_insert f_exiting _ _ _
                  {| priceGraphOffer := o;
                     fpc := FPrint (bestOffer_loop offers) |} H0) as Hf.
    pose proof (Forall_lookup_1 _ _ _ _ HF H) as Hfat. simpl in Hfat.
    cbn in Hf.
    constructor; simpl.
    + apply Forall_insert; [assumption|]. simpl.
      apply Forall_insert; [assumption | exact I].
    + fail_trace H2. lia.
  - (* fetch, fatal *)
    fail_sums H (WWait Req src dst lg
                   (<[i := {| priceGraphOffer := o; fpc := FExit 1 |}]> fetchers)).
    pose proof (sum_list_with_insert f_exiting _ _ _
                  {| priceGraphOffer := o; fpc := FExit 1 |} H0) as Hf.
    pose proof (Forall_lookup_1 _ _ _ _ HF H) as Hfat. simpl in Hfat.
    cbn in Hf.
    constructor; simpl.
    + apply Forall_insert; [assumption|]. simpl.
      apply Forall_insert; [assumption | reflexivity].
    + fail_trace H2. lia.
  - (* print *)
    fail_sums H (WWait Req src dst n
                   (<[i := {| priceGraphOffer := o; fpc := FDone |}]> fetchers)).
    pose proof (sum_list_with_insert f_exiting _ _ _
                  {| priceGraphOffer := o; fpc := FDone |} H0) as Hf.
    pose proof (Forall_lookup_1 _ _ _ _ HF H) as Hfat. simpl in Hfat.
    cbn in Hf.
    constructor; simpl.
    + apply Forall_insert; [assumption|]. simpl.
      apply Forall_insert; [assumption | exact I].
    + fail_trace H1. lia.
  - (* print, panic: impossible *) exfalso. eapply no_print_panic; eauto.
  - (* exit of a fetcher *) constructor; simpl; auto.
Qed.

Ltac measure_sums Hw new :=
  pose proof (sum_list_with_insert w_before _ _ _ new Hw);
  pose proof (sum_list_with_insert w_after _ _ _ new Hw);
  simpl in *.

Ltac weight_sums Hf new :=
  let Hw := fresh "Hweight" in
  pose proof (sum_list_with_insert f_weight _ _ _ new Hf) as Hw;
  cbn in Hw.

(** A move ends the process as it should, or it leaves it running with
    less to do. *)
Lemma Step_ended_or_less {W} (E : Env W) (a : Action) (s s' : State W) :
  Inv5 s -> status s = None -> Step E a s s' ->
  ended s' \/
  (status s' = None /\
   ((calls_left s' < calls_left s)%nat \/
    (calls_left s' = calls_left s /\ (moves_left s' < moves_left s)%nat))).
Proof.
  intros [HF HN] Hrun HS.
  unfold calls_left, moves_left, ended.
  destruct HS.
  - (* start *) right. rewrite H. simpl. split; [exact Hrun|]. right.
    rewrite !sum_list_with_app. simpl. lia.
  - (* close *) right. rewrite H. simpl. split; [exact Hrun|]. right. lia.
  - (* finish *) left. left. reflexivity.
  - (* send *) right. rewrite H. measure_sums H0 (WGot args).
    split; [exact Hrun|]. left. lia.
  - (* end *) right. measure_sums H WDone. split; [exact Hrun|]. right. lia.
  - (* end, panic *) right. measure_sums H (WExit 2).
    split; [exact Hrun|]. right. lia.
  - (* class, panic *) right. measure_sums H (WExit 2).
    split; [exact Hrun|]. left. lia.
  - (* class *) right. measure_sums H (WClassed Req (set_Class Req c) src dst).
    split; [exact Hrun|]. left. lia.
  - (* class, fatal *) right. measure_sums H (WExit 1).
    split; [exact Hrun|]. left. lia.
  - (* graph *) right.
    measure_sums H (WWait Req src dst (Z.of_nat (length offers))
                      (map (fun o => {| priceGraphOffer := o; fpc := FCall |}) offers)).
    split; [exact Hrun|]. left. lia.
  - (* graph, fatal *) right. measure_sums H (WExit 1).
    split; [exact Hrun|]. left. lia.
  - (* waited *) right. measure_sums H WRecv. split; [exact Hrun|]. right. lia.
  - (* exit *) left. right. simpl.
    pose proof (Forall_lookup_1 _ _ _ _ HF H) as Hc. simpl in Hc. subst c.
    split; [reflexivity|]. apply failed_calls_pos.
    pose proof (sum_list_with_lookup w_exiting _ _ _ H) as Hle. simpl in Hle. lia.
  - (* fetch *) right.
    measure_sums H (WWait Req src dst lg
                  (<[i := {| priceGraphOffer := o;
                             fpc := FPrint (bestOffer_loop offers) |}]> fetchers)).
    weight_sums H0 {| priceGraphOffer := o; fpc := FPrint (bestOffer_loop offers) |}.
    split; [exact Hrun|]. right. lia.
  - (* fetch, fatal *) right.
    measure_sums H (WWait Req src dst lg
                  (<[i := {| priceGraphOffer := o; fpc := FExit 1 |}]> fetchers)).
    weight_sums H0 {| priceGraphOffer := o; fpc := FExit 1 |}.
    split; [exact Hrun|]. right. lia.
  - (* print *) right.
    measure_sums H (WWait Req src dst n
                  (<[i := {| priceGraphOffer := o; fpc := FDone |}]> fetchers)).
    weight_sums H0 {| priceGraphOffer := o; fpc := FDone |}.
    split; [exact Hrun|]. right. lia.
  - (* print, panic *) right.
    measure_sums H (WWait Req src dst lg
                  (<[i := {| priceGraphOffer := o; fpc := FExit 2 |}]> fetchers)).
    weight_sums H0 {| priceGraphOffer := o; fpc := FExit 2 |}.
    split; [exact Hrun|]. right. lia.
  - (* exit of a fetcher *) left. right. simpl.
    pose proof (Forall_lookup_1 _ _ _ _ HF H) as Hfs. simpl in Hfs.
    pose proof (Forall_lookup_1 _ _ _ _ Hfs H0) as Hc. cbn in Hc. subst c.
    split; [reflexivity|]. apply failed_calls_pos.
    pose proof (sum_list_with_lookup w_exiting _ _ _ H) as Hle. simpl in Hle.
    pose proof (sum_list_with_lookup f_exiting _ _ _ H0) as Hle'. cbn in Hle'.
    lia.
Qed.

Lemma sum_list_with_exists_zero {A} (f : A -> nat) (l : list A) :
  (forall y, f y <= 1)%nat -> (sum_list_with f l < length l)%nat ->
  exists i x, l !! i = Some x /\ f x = 0%nat.
Proof.
  intros Hf. induction l as [|z l IH]; simpl; intros H; [lia|].
  destruct (f z) eqn:Hz.
  - exists 0%nat, z. auto.
  - pose proof (Hf z). destruct IH as (i & x & Hi & Hx); [lia|].
    exists (S i), x. auto.
Qed.

Lemma sum_list_with_exists_pos {A} (f : A -> nat) (l : list A) :
  sum_list_with f l <> 0%nat -> exists i x, l !! i = Some x /\ f x <> 0%nat.
Proof.
  induction l as [|z l IH]; simpl; intros H; [lia|].
  destruct (f z) eqn:Hz.
  - destruct IH as (i & x & Hi & Hx); [lia|]. exists (S i), x. auto.
  - exists 0%nat, z. split; [reflexivity | lia].
Qed.

(** A running process is never stuck: some goroutine can move. *)
Lemma progress {W} (E : Env W) (atts : list Attendee) (s : State W) :
  Inv atts s -> Inv2 s -> status s = None ->
  exists a s', step E a s = Some s'.
Proof.
  intros [HA HB HC HD HE] [QA QB QC QD QE] Hrun.
  unfold step. rewrite Hrun.
  destruct (mainpc s) as [rest|args rest|] eqn:Hpc; simpl in *.
  - exists ActMain. unfold main_step. rewrite Hpc. destruct rest; eauto.
  - destruct (sum_list_with_exists_zero w_away (workers s)) as (w & pc & Hw & Hpcw).
    + intros []; simpl; lia.
    + specialize (QC QA). lia.
    + destruct pc; try discriminate. exists (ActSend w).
      unfold FlightRequirements_step. rewrite Hpc, Hw. eauto.
  - destruct (Z.eqb_spec (ProcessorWg s) 0) as [Hz|Hnz].
    { exists ActMain. unfold main_step. rewrite Hpc, Hz. simpl. eauto. }
    pose proof (sum_list_with_le_length w_done (workers s) w_done_le_1).
    destruct (sum_list_with_exists_zero w_done (workers s) w_done_le_1)
      as (w & pc & Hw & Hpcw); [lia|].
    destruct pc as [|Req|got Req src dst|Req src dst lg fs| |c]; try discriminate.
    + exists (ActWorker w). unfold Processor_step. rewrite Hw, QA.
      destruct (wg_Done _); eauto.
    + exists (ActWorker w). unfold Processor_step. rewrite Hw. eauto.
    + exists (ActWorker w). unfold Processor_step. rewrite Hw. eauto.
    + destruct (Z.eqb_spec lg 0) as [Hlg|Hlg].
      * exists (ActWorker w). unfold Processor_step. rewrite Hw, Hlg. simpl. eauto.
      * pose proof (Forall_lookup_1 _ _ _ _ HB Hw) as Hok. simpl in Hok.
        destruct (sum_list_with_exists_pos unfinished fs) as (i & f & Hi & Hf);
          [lia|].
        exists (ActFetcher w i). unfold GetActualOffers_step. rewrite Hw, Hi.
        destruct f as [o [|b| |c]]; eauto. now contradiction Hf.
    + exists (ActWorker w). unfold Processor_step. rewrite Hw. eauto.
Qed.

Lemma exec_cons {W} (E : Env W) (a : Action) (acts : list Action) (s : State W) :
  exec E (a :: acts) s = exec E acts (default s (step E a s)).
Proof. reflexivity. Qed.

Lemma Good_Step {W} (E : Env W) (atts : list Attendee) (a : Action)
    (s s' : State W) :
  Good atts s -> status s = None -> Step E a s s' -> Good atts s'.
Proof.
  intros (HI & HQ & HF & _) Hrun HS.
  split; [eapply Inv_Step; eauto|]. split; [eapply Inv2_Step; eauto|].
  split; [eapply Inv5_Step; eauto|].
  destruct (Step_ended_or_less E a s s' HF Hrun HS) as [H | [H _]]; auto.
Qed.

(** From a running state that satisfies the invariants, some schedule ends
    the process, with status 0 or, after a failed call, with status 1. *)
Lemma can_end {W} (E : Env W) (atts : list Attendee) :
  forall (n m : nat) (s : State W),
    Good atts s -> status s = None ->
    calls_left s = n -> moves_left s = m ->
    exists more, ended (exec E more s).
Proof.
  induction n as [n IHn] using lt_wf_ind.
  induction m as [m IHm] using lt_wf_ind.
  intros s HG Hrun Hn Hm. pose proof HG as (HI & HQ & HF & _).
  destruct (progress E atts s HI HQ Hrun) as (a & s' & Hstep).
  destruct (step_Step E a s s' Hstep) as [_ HS].
  pose proof (Good_Step E atts a s s' HG Hrun HS) as HG'.
  destruct (Step_ended_or_less E a s s' HF Hrun HS)
    as [Hend | (Hrun' & [Hlt | (Heq & Hlt)])].
  - exists [a]. rewrite exec_cons, Hstep. exact Hend.
  - destruct (IHn (calls_left s') ltac:(lia) (moves_left s') s' HG' Hrun'
                eq_refl eq_refl) as (more & Hmore).
    exists (a :: more). now rewrite exec_cons, Hstep.
  - destruct (IHm (moves_left s') ltac:(lia) s' HG' Hrun'
                ltac:(lia) eq_refl) as (more & Hmore).
    exists (a :: more). now rewrite exec_cons, Hstep.
Qed.

Lemma main_startup_dst {W} (E : Env W) (fl : Flags) (s : St W) t config bA x :
  main_startup E fl s = (Ok (t, config, bA), x) ->
  PDstCities bA = [destination fl].
Proof.
  unfold_M. cbn.
  destruct (time_Now E (world s)) as [t' w1]. cbn.
  destruct (flags_missing fl); cbn; [discriminate|].
  destruct (conf_yml E w1) as [[config'|e] w2]; cbn; [|discriminate].
  destruct (flights_New E w2) as [[u|e] w3]; cbn; [|discriminate].
  destruct (time_Parse E "2006-01-02" (startDate fl)) as [d1|e]; cbn;
    [|discriminate].
  destruct (time_Parse E "2006-01-02" (endDate fl)) as [d2|e]; cbn;
    [|discriminate].
  now intros [= <- <- <- <-].
Qed.

Lemma Inv2_main_init {W} (E : Env W) (fl : Flags) (w0 : W) t config bA x :
  main_startup E fl {| world := w0; trace := [] |} = (Ok (t, config, bA), x) ->
  Inv2 (main_init E fl w0).
Proof.
  intros Hstart. pose proof (main_startup_dst E fl _ _ _ _ _ Hstart) as Hdst.
  unfold main_init. rewrite Hstart.
  constructor; simpl; auto. now rewrite Hdst.
Qed.

Lemma Inv5_main_init {W} (E : Env W) (fl : Flags) (w0 : W) :
  Inv5 (main_init E fl w0).
Proof.
  destruct (startup_events_count _ (main_init_trace E fl w0)) as (_ & _ & Hf & _).
  assert (Hws : workers (main_init E fl w0) = []).
  { unfold main_init.
    now destruct (main_startup E fl _) as [[[[t config] bA]|c] x]. }
  constructor; rewrite Hws; [constructor | exact Hf].
Qed.

Lemma Good_exec {W} (E : Env W) (atts : list Attendee) (acts : list Action)
    (s : State W) :
  Good atts s -> Good atts (exec E acts s).
Proof. apply exec_ind. intros a s1 s2 HG Hrun HS. eapply Good_Step; eauto. Qed.

Lemma Good_main_init {W} (E : Env W) (fl : Flags) (w0 : W) t config bA x :
  main_startup E fl {| world := w0; trace := [] |} = (Ok (t, config, bA), x) ->
  Good (Attendees config) (main_init E fl w0).
Proof.
  intros Hstart.
  destruct (Inv_main_init E fl w0) as (atts & Hinv & Hatts).
  destruct (Hatts _ _ _ _ Hstart) as (-> & _ & Hrun).
  split; [exact Hinv|]. split; [eapply Inv2_main_init; eauto|].
  split; [apply Inv5_main_init | now left].
Qed.

(** A property kept by every move from a state that satisfies the
    invariants holds after every schedule. *)
Lemma exec_ind_Good {W} (E : Env W) (atts : list Attendee) (P : State W -> Prop) :
  (forall a s s', Good atts s -> P s -> status s = None -> Step E a s s' -> P s') ->
  forall acts s, Good atts s -> P s -> P (exec E acts s).
Proof.
  intros HP acts s HG Hs.
  apply (exec_ind E (fun s => Good atts s /\ P s)); [|auto].
  intros a s1 s2 [HG1 H1] Hrun HS. split; [eapply Good_Step; eauto | eauto].
Qed.

(** Every run of the pipeline can be continued to its end. *)
Lemma can_end_from_reachable {W} (E : Env W) (fl : Flags) (w0 : W)
    t config bA x (acts : list Action) :
  main_startup E fl {| world := w0; trace := [] |} = (Ok (t, config, bA), x) ->
  exists more, ended (exec E more (exec E acts (main_init E fl w0))).
Proof.
  intros Hstart.
  pose proof (Good_exec E _ acts _ (Good_main_init E fl w0 _ _ _ _ Hstart)) as HG.
  pose proof HG as (_ & _ & _ & [Hrun | Hend]).
  - eapply can_end; eauto.
  - exists []. exact Hend.
Qed.

Lemma exec_exit0 {W} (E : Env W) (atts : list Attendee) (acts : list Action)
    (s : State W) :
  Good atts s -> status s = None -> exit0_inv (exec E acts s).
Proof.
  intros HG Hs. apply (exec_ind_Good E atts); [|exact HG|unfold exit0_inv; congruence].
  intros a s1 s2 (_ & _ & [HF _] & _) _ Hrun HS. unfold exit0_inv.
  destruct HS; simpl; intros Hc; try congruence; auto.
  - pose proof (Forall_lookup_1 _ _ _ _ HF H) as Hc1. simpl in Hc1. congruence.
  - pose proof (Forall_lookup_1 _ _ _ _ HF H) as Hfs. simpl in Hfs.
    pose proof (Forall_lookup_1 _ _ _ _ Hfs H0) as Hc1. cbn in Hc1. congruence.
Qed.

Lemma main_startup_exit {W} (E : Env W) (fl : Flags) (s : St W) c x :
  main_startup E fl s = (Exit c, x) -> c = 1.
Proof.
  unfold_M. cbn.
  destruct (time_Now E (world s)) as [t' w1]. cbn.
  destruct (flags_missing fl); cbn; [now intros [= <- _]|].
  destruct (conf_yml E w1) as [[config'|e] w2]; cbn; [|now intros [= <- _]].
  destruct (flights_New E w2) as [[u|e] w3]; cbn; [|now intros [= <- _]].
  destruct (time_Parse E "2006-01-02" (startDate fl)) as [d1|e]; cbn;
    [|now intros [= <- _]].
  destruct (time_Parse E "2006-01-02" (endDate fl)) as [d2|e]; cbn;
    [discriminate | now intros [= <- _]].
Qed.

Lemma main_init_failed {W} (E : Env W) (fl : Flags) (w0 : W) c x :
  main_startup E fl {| world := w0; trace := [] |} = (Exit c, x) ->
  status (main_init E fl w0) = Some 1.
Proof.
  intros H. pose proof (main_startup_exit E fl _ _ _ H) as ->.
  unfold main_init. now rewrite H.
Qed.

Lemma exec_exited {W} (E : Env W) (acts : list Action) (s : State W) (c : Z) :
  status s = Some c -> exec E acts s = s.
Proof.
  intros Hs. induction acts as [|a acts IH] using rev_ind; [reflexivity|].
  rewrite exec_snoc, IH. unfold step. now rewrite Hs.
Qed.

(** What a run is: the pipeline was started and every state satisfies the
    invariants, or the start of [main] failed and nothing ever moves. *)
Lemma run_cases {W} (E : Env W) (fl : Flags) (w0 : W) (acts : list Action) :
  (exists t config bA x,
      main_startup E fl {| world := w0; trace := [] |} = (Ok (t, config, bA), x) /\
      Good (Attendees config) (exec E acts (main_init E fl w0)) /\
      baseArgs (exec E acts (main_init E fl w0)) = bA) \/
  (exists x,
      main_startup E fl {| world := w0; trace := [] |} = (Exit 1, x) /\
      exec E acts (main_init E fl w0) = main_init E fl w0 /\
      status (main_init E fl w0) = Some 1 /\
      workers (main_init E fl w0) = [] /\ sent (main_init E fl w0) = []).
Proof.
  destruct (main_startup E fl {| world := w0; trace := [] |})
    as [[[[t config] bA]|c0] x] eqn:Hstart.
  - left. exists t, config, bA, x. split; [reflexivity|].
    split; [apply Good_exec; eapply Good_main_init; eauto|].
    rewrite exec_baseArgs. unfold main_init. now rewrite Hstart.
  - right. pose proof (main_startup_exit E fl _ _ _ Hstart) as ->.
    pose proof (main_init_failed E fl w0 _ _ Hstart) as Hf.
    exists x. split; [reflexivity|].
    split; [eapply exec_exited; eauto|]. split; [exact Hf|].
    unfold main_init. rewrite Hstart. auto.
Qed.

(** A process that has exited with status 0 has seen no call fail: every
    worker has returned, so no goroutine is at [log.Fatal]. *)
Lemma exit0_all_done {W} (atts : list Attendee) (s : State W) :
  Inv atts s -> exit0_inv s -> status s = Some 0 ->
  forall pc, pc ∈ workers s -> pc = WDone.
Proof.
  intros [_ _ HC _ _] H0 Hexit. destruct (H0 Hexit) as [Hpc Hwg].
  rewrite Hpc, Hwg in HC. simpl in HC.
  pose proof (sum_list_with_le_length w_done (workers s) w_done_le_1).
  apply all_done_workers. lia.
Qed.

Lemma no_failed_call_at_exit0 {W} (E : Env W) (fl : Flags) (w0 : W)
    (acts : list Action) :
  status (exec E acts (main_init E fl w0)) = Some 0 ->
  forall e, e ∈ trace (st (exec E acts (main_init E fl w0))) ->
            failed_call e = false.
Proof.
  intros Hexit e He.
  destruct (run_cases E fl w0 acts)
    as [(t & config & bA & x & Hstart & HG & _) | (x & _ & Heq & Hst & _)].
  - pose proof HG as (HI & _ & [_ HN] & _).
    assert (Hrun : status (main_init E fl w0) = None).
    { unfold main_init. now rewrite Hstart. }
    pose proof (exec_exit0 E _ acts _ (Good_main_init E fl w0 _ _ _ _ Hstart) Hrun)
      as H0.
    pose proof (exit0_all_done _ _ HI H0 Hexit) as Hdone.
    rewrite (all_done_sum w_exiting) in HN by (auto; reflexivity).
    eapply failed_calls_zero; eauto.
  - rewrite Heq in Hexit. congruence.
Qed.

(* ===================================================================== *)
(** ** Part 10: the pipeline as a whole *)
(* ===================================================================== *)

Lemma snoc_inj {A} (l : list A) (x y : A) : l ++ [x] = l ++ [y] -> x = y.
Proof. intros H. apply app_inv_head in H. now injection H. Qed.

Lemma snoc_not_same {A} (l : list A) (x : A) : l = l ++ [x] -> False.
Proof.
  intros H. apply (f_equal length) in H. rewrite length_app in H. simpl in H. lia.
Qed.

Lemma lookup_set_worker (ws : list WorkerPc) (w : nat) (pc0 pc : WorkerPc) :
  ws !! w = Some pc0 -> <[w := pc]> ws !! w = Some pc.
Proof. intros H. apply list_lookup_insert_eq. eapply lookup_lt_Some; eauto. Qed.

Lemma lookup_set_fetcher (fs : list Fetcher) (i : nat) (f0 f : Fetcher) :
  fs !! i = Some f0 -> <[i := f]> fs !! i = Some f.
Proof. intros H. apply list_lookup_insert_eq. eapply lookup_lt_Some; eauto. Qed.

(** What a move adds to the trace: nothing, or one event. *)
Ltac trace_of_move Htr :=
  repeat match goal with
         | Hx : trace ?x = _ |- _ =>
             tryif constr_eq Hx Htr then fail else (rewrite Hx in Htr; clear Hx)
         end;
  first [ exfalso; now apply snoc_not_same in Htr
        | apply snoc_inj in Htr ].

(** A move whose call fails leaves its goroutine at [log.Fatal], and the
    process running. *)
Lemma Step_failed {W} (E : Env W) (g : Action) (s s' : State W) (e : Event) :
  Step E g s s' -> trace (st s') = trace (st s) ++ [e] ->
  failed_call e = true ->
  status s' = status s /\ at_log_Fatal g s' = true.
Proof.
  intros HS. destruct HS; simpl; intros Htr He; trace_of_move Htr;
    subst e; try discriminate He; (split; [reflexivity|]).
  - erewrite lookup_set_worker by eauto. reflexivity.
  - erewrite lookup_set_worker by eauto. reflexivity.
  - erewrite lookup_set_worker by eauto.
    erewrite lookup_set_fetcher by eauto. reflexivity.
Qed.

(** The goroutine at [log.Fatal] stays there whatever moves. *)
Lemma Step_keeps_log_Fatal {W} (E : Env W) (atts : list Attendee)
    (a g : Action) (s s' : State W) :
  Inv atts s -> Step E a s s' ->
  at_log_Fatal g s = true -> at_log_Fatal g s' = true.
Proof.
  intros [_ HB _ _ _] HS Hg. destruct g as [|w0|w0|w0 i0]; try discriminate Hg.
  - simpl in Hg. destruct (workers s !! w0) as [[| | | | |c0]|] eqn:Hw0;
      try discriminate Hg.
    destruct HS; simpl;
      first
        [ rewrite Hw0; exact Hg
        | rewrite lookup_app_l by (eapply lookup_lt_Some; eauto);
          rewrite Hw0; exact Hg
        | match goal with
          | H : workers s !! ?w = Some _ |- _ =>
              destruct (decide (w = w0)) as [->|Hne];
              [ congruence
              | rewrite list_lookup_insert_ne by exact Hne;
                rewrite Hw0; exact Hg ]
          end ].
  - simpl in Hg.
    destruct (workers s !! w0) as [[| | |Req0 src0 dst0 lg0 fs0| |]|] eqn:Hw0;
      try discriminate Hg.
    destruct (fs0 !! i0) as [[o0 [| | |c0]]|] eqn:Hf0; try discriminate Hg.
    pose proof (Forall_lookup_1 _ _ _ _ HB Hw0) as Hok. simpl in Hok.
    pose proof (sum_list_with_lookup unfinished _ _ _ Hf0) as Hle.
    change (unfinished {| priceGraphOffer := o0; fpc := FExit c0 |})
      with 1%nat in Hle.
    destruct HS; simpl;
      first
        [ rewrite Hw0, Hf0; exact Hg
        | rewrite lookup_app_l by (eapply lookup_lt_Some; eauto);
          rewrite Hw0, Hf0; exact Hg
        | match goal with
          | H : workers s !! ?w = Some _ |- _ =>
              destruct (decide (w = w0)) as [->|Hne];
              [ rewrite Hw0 in H; first [ discriminate H | injection H as ? ? ? ? ? ];
                subst;
                first
                  [ lia
                  | erewrite lookup_set_worker by eauto;
                    match goal with
                    | Hf : _ !! ?i = Some {| priceGraphOffer := _; fpc := _ |} |- _ =>
                        destruct (decide (i = i0)) as [->|Hni];
                        [ congruence
                        | rewrite list_lookup_insert_ne by exact Hni;
                          rewrite Hf0; exact Hg ]
                    end ]
              | rewrite list_lookup_insert_ne by exact Hne;
                rewrite Hw0, Hf0; exact Hg ]
          end ].
Qed.

Lemma failed_calls_nonzero (tr : list Event) (e : Event) :
  e ∈ tr -> failed_call e = true -> failed_calls tr <> 0%nat.
Proof.
  intros Hin He Hz. rewrite (failed_calls_zero tr e Hz Hin) in He. discriminate.
Qed.

(** After a failed call some goroutine is at [log.Fatal]. *)
Lemma some_goroutine_at_log_Fatal {W} (s : State W) :
  Inv5 s -> failed_calls (trace (st s)) <> 0%nat ->
  exists g, at_log_Fatal g s = true.
Proof.
  intros [HF HN] Hnz. rewrite HN in Hnz.
  destruct (sum_list_with_exists_pos w_exiting _ Hnz) as (w & pc & Hw & Hpc).
  pose proof (Forall_lookup_1 _ _ _ _ HF Hw) as Hfat.
  destruct pc as [| | |Req src dst lg fs| |c]; simpl in Hpc, Hfat;
    try now contradiction Hpc.
  - destruct (sum_list_with_exists_pos f_exiting _ Hpc) as (i & [o pc] & Hi & Hf).
    pose proof (Forall_lookup_1 _ _ _ _ Hfat Hi) as Hc.
    destruct pc as [| | |c]; cbn in Hf, Hc; try now contradiction Hf.
    subst c. exists (ActFetcher w i). simpl. now rewrite Hw, Hi.
  - subst c. exists (ActWorker w). simpl. now rewrite Hw.
Qed.

(** The goroutine at [log.Fatal] can move, and its move ends the process
    with status 1 and does nothing else. *)
Lemma log_Fatal_exits {W} (E : Env W) (g : Action) (s : State W) :
  at_log_Fatal g s = true -> status s = None ->
  step E g s = Some (set_status s 1).
Proof.
  intros Hg Hrun. unfold step. rewrite Hrun.
  destruct g as [|w|w|w i]; try discriminate Hg; simpl in Hg.
  - unfold Processor_step.
    destruct (workers s !! w) as [[| | | | |c]|]; try discriminate Hg.
    apply Z.eqb_eq in Hg. now subst c.
  - unfold GetActualOffers_step.
    destruct (workers s !! w) as [[| | |Req src dst lg fs| |]|];
      try discriminate Hg.
    destruct (fs !! i) as [[o [| | |c]]|]; try discriminate Hg.
    apply Z.eqb_eq in Hg. now subst c.
Qed.

(** C6, amended.  Each of the three calls of the pricing service, when it
    returns an error, takes its code to [log.Fatal] (exit status 1) with
    nothing done after the call: the probe in [GetFlightClass],
    [GetPriceGraph] in [Processor], and [GetOffers] in [GetActualOffers]
    (which then prints nothing).  In the process, under every schedule:
    - the move whose call fails leaves its goroutine at [log.Fatal], the
      process still running;
    - a goroutine at [log.Fatal] stays there whatever the other goroutines
      do (it makes no other call and prints nothing: no retry), and its own
      next move ends the whole process with status 1 without touching the
      world or the trace (no isolation of the failing origin);
    - once a call has failed the process never exits with status 0, some
      goroutine is at [log.Fatal] as long as it runs, and the run can be
      continued to exit status 1;
    - once the process has exited nothing moves any more.
    Until the goroutine at [log.Fatal] moves, the other goroutines go on:
    in the run that follows the theorem a line is printed after the failed
    call. *)
Theorem C6_failed_call_leaves_its_goroutine_at_log_Fatal :
  forall (W : Type) (E : Env W),
    (forall src dst (x : St W),
        is_Res (probe_answer E x src dst).1 = false ->
        GetFlightClass E src dst x
        = (Exit 1,
           {| world := (probe_answer E x src dst).2;
              trace := trace x ++ [EvGetOffers (probe_now E x src dst)
                                               (probe_answer E x src dst).1] |})) /\
    (forall Req (x : St W),
        is_Res (session_GetPriceGraph E Req (world x)).1 = false ->
        Processor_graph E Req x
        = (Exit 1,
           {| world := (session_GetPriceGraph E Req (world x)).2;
              trace := trace x
                       ++ [EvGetPriceGraph Req
                             (session_GetPriceGraph E Req (world x)).1] |})) /\
    (forall o Req src dst (x : St W),
        is_Res (session_GetOffers E (offers_args o Req) (world x)).1 = false ->
        GetActualOffers E o Req src dst x
        = (Exit 1,
           {| world := (session_GetOffers E (offers_args o Req) (world x)).2;
              trace := trace x
                       ++ [EvGetOffers (offers_args o Req)
                             (session_GetOffers E (offers_args o Req) (world x)).1] |})) /\
    (forall (fl : Flags) (w0 : W) (acts : list Action),
        let s := exec E acts (main_init E fl w0) in
        (forall g s' e,
            step E g s = Some s' ->
            trace (st s') = trace (st s) ++ [e] ->
            failed_call e = true ->
            status s' = None /\ at_log_Fatal g s' = true) /\
        (forall g,
            at_log_Fatal g s = true -> status s = None ->
            (exists s', step E g s = Some s' /\ status s' = Some 1 /\
                        st s' = st s) /\
            (forall a s', step E a s = Some s' -> at_log_Fatal g s' = true)) /\
        ((exists e, e ∈ trace (st s) /\ failed_call e = true) ->
         status s <> Some 0 /\
         (status s = None -> exists g, at_log_Fatal g s = true) /\
         (exists more, status (exec E more s) = Some 1)) /\
        (forall c, status s = Some c ->
           (forall a, step E a s = None) /\
           (forall more, exec E more s = s))).
Proof.
  intros W E. split; [|split; [|split]].
  - intros src dst x Hans.
    pose proof (GetFlightClass_cases E src dst x) as H. cbv zeta in H.
    destruct ((probe_answer E x src dst).1); [discriminate Hans | exact H].
  - intros Req x Hans. rewrite Processor_graph_spec.
    destruct ((session_GetPriceGraph E Req (world x)).1);
      [discriminate Hans | reflexivity].
  - intros o Req src dst x Hans. unfold GetActualOffers, bind.
    rewrite GetActualOffers_best_spec.
    destruct ((session_GetOffers E (offers_args o Req) (world x)).1);
      [discriminate Hans | reflexivity].
  - intros fl w0 acts s. split; [|split; [|split]].
    + intros g s' e Hstep Htr He.
      destruct (step_Step E g s s' Hstep) as [Hrun HS].
      destruct (Step_failed E g s s' e HS Htr He) as [Hst Hg].
      split; [congruence | exact Hg].
    + intros g Hg Hrun. split.
      * exists (set_status s 1).
        split; [now apply log_Fatal_exits | split; reflexivity].
      * intros a s' Hstep. destruct (step_Step E a s s' Hstep) as [_ HS].
        destruct (run_cases E fl w0 acts)
          as [(t & config & bA & x & _ & (HI & _) & _) | (x & _ & Heq & Hst & _)].
        -- eapply Step_keeps_log_Fatal; eauto.
        -- unfold s in Hrun. rewrite Heq in Hrun. congruence.
    + intros (e & Hin & He).
      pose proof (failed_calls_nonzero _ _ Hin He) as Hnz.
      destruct (run_cases E fl w0 acts)
        as [(t & config & bA & x & _ & HG & _) | (x & _ & Heq & Hst & Hws & _)].
      * fold s in HG. destruct HG as (_ & _ & H5 & Hend).
        destruct (some_goroutine_at_log_Fatal s H5 Hnz) as (g & Hg).
        split; [|split].
        -- intros Hexit.
           rewrite (no_failed_call_at_exit0 E fl w0 acts Hexit e Hin) in He.
           discriminate.
        -- eauto.
        -- destruct Hend as [Hrun | [Hexit | [Hexit _]]].
           ++ exists [g]. rewrite exec_cons, (log_Fatal_exits E g s Hg Hrun).
              reflexivity.
           ++ rewrite (no_failed_call_at_exit0 E fl w0 acts Hexit e Hin) in He.
              discriminate.
           ++ exists []. exact Hexit.
      * exfalso. fold s in Heq.
        destruct (startup_events_count _ (main_init_trace E fl w0))
          as (_ & _ & Hf & _).
        rewrite Heq in Hnz. contradiction.
    + intros c Hc. split.
      * intros a. unfold step. now rewrite Hc.
      * intros more. eapply exec_exited; eauto.
Qed.

Lemma C6_witness_price_graph_fails :
  let s := exec scripted sched_graph_fails
             (main_init scripted flags_IST world_graph_fails) in
  (exists e, e ∈ trace (st s) /\ failed_call e = true) /\
  status s = None /\
  at_log_Fatal (ActWorker 0) s = true /\
  status s <> Some 0 /\
  exists more, status (exec scripted more s) = Some 1.
Proof.
  cbv zeta.
  destruct (C6_failed_call_leaves_its_goroutine_at_log_Fatal Script scripted)
    as (_ & _ & _ & H).
  destruct (H flags_IST world_graph_fails sched_graph_fails) as (_ & _ & H3 & _).
  assert (Hfail : exists e,
            e ∈ trace (st (exec scripted sched_graph_fails
                             (main_init scripted flags_IST world_graph_fails))) /\
            failed_call e = true).
  { exists (EvGetPriceGraph
              (set_Class (attendee_args
                            (baseArgs (main_init scripted flags_IST world_graph_fails))
                            {| City := "NYC"; ATravelers := 1 |})
                         Business)
              (Err "502 Bad Gateway")).
    split; [vm_compute; repeat constructor | reflexivity]. }
  destruct (H3 Hfail) as (Hn0 & _ & Hmore).
  split; [exact Hfail|]. split; [vm_compute; reflexivity|].
  split; [vm_compute; reflexivity|]. split; assumption.
Defined.

(** C6 as stated fails: a "Best offer" line can be printed after a call
    has failed.  In this run the call for the second date pair fails while
    the goroutine of the first pair holds its answer; that goroutine prints
    its line before the goroutine of the second pair, which is at
    [log.Fatal], ends the process. *)
Lemma C6_counterexample_line_after_failed_call :
  ~ (forall (W : Type) (E : Env W) (fl : Flags) (w0 : W) (acts : list Action)
            (pre : list Event) (e : Event) (post : list Event),
        let s := exec E acts (main_init E fl w0) in
        trace (st s) = pre ++ e :: post ->
        failed_call e = true ->
        best_lines post = 0%nat).
Proof.
  intros H.
  specialize (H Script scripted flags_IST world_second_pair_fails
                sched_line_after_failure).
  cbv zeta in H.
  match type of H with
  | context [trace (st ?s) = _] =>
      let tr := eval vm_compute in (trace (st s)) in
      match tr with
      | [?e1; ?e2; ?e3; ?e4; ?e5; ?e6; ?e7] =>
          assert (Htr : trace (st s) = [e1; e2; e3; e4; e5] ++ e6 :: [e7])
            by (vm_compute; reflexivity);
          pose proof (H [e1; e2; e3; e4; e5] e6 [e7] Htr eq_refl) as Hlines
      end
  end.
  vm_compute in Hlines. discriminate Hlines.
Qed.

(** C2, amended.  Let [main] have started the pipeline on a configuration
    of N attendees, and take the process after any schedule.
    - When it has exited with status 0, no call of the service has failed,
      the queries sent over the channel are exactly the N queries of the
      attendees, in order, and the number of "Best offer" lines printed is
      the number of date pairs the price-graph calls have returned: one line
      per date pair, not one per attendee.
    - The run can always be continued to its end, and it ends with status 0
      unless a call of the service has failed (then with status 1). *)
Theorem C2_one_query_per_attendee_one_line_per_date_pair :
  forall (W : Type) (E : Env W) (fl : Flags) (w0 : W) (t : Time)
         (config : Config) (bA : PriceGraphArgs) (x : St W) (acts : list Action),
    main_startup E fl {| world := w0; trace := [] |} = (Ok (t, config, bA), x) ->
    let s := exec E acts (main_init E fl w0) in
    (status s = Some 0 ->
     (forall e, e ∈ trace (st s) -> failed_call e = false) /\
     sent s = map (attendee_args bA) (Attendees config) /\
     length (sent s) = length (Attendees config) /\
     best_lines (trace (st s)) = date_pairs (trace (st s))) /\
    (exists more,
        let s' := exec E more s in
        status s' = Some 0 \/
        (status s' = Some 1 /\
         exists e, e ∈ trace (st s') /\ failed_call e = true)).
Proof.
  intros W E fl w0 t config bA x acts Hstart s.
  split; [|exact (can_end_from_reachable E fl w0 _ _ _ _ acts Hstart)].
  intros Hexit.
  destruct (Inv_main_init E fl w0) as (atts & Hinv & Hatts).
  destruct (Hatts _ _ _ _ Hstart) as (-> & HbA & Hrun).
  pose proof (exec_Inv E _ acts _ Hinv) as [HA _ HC HD _]. fold s in HA, HC, HD.
  destruct (exec_exit0 E _ acts _ (Good_main_init E fl w0 _ _ _ _ Hstart)
              Hrun Hexit) as [Hpc Hwg].
  fold s in Hpc, Hwg.
  assert (Hb : baseArgs s = bA) by (unfold s; now rewrite exec_baseArgs).
  rewrite Hpc, Hb in HD. simpl in HD. rewrite app_nil_r in HD.
  rewrite Hpc, Hwg in HC. simpl in HC.
  split; [|split; [exact HD | split]].
  - now apply no_failed_call_at_exit0.
  - now rewrite HD, length_map.
  - rewrite HA, all_done_none_pending; lia.
Qed.

Lemma C2_witness_two_pairs :
  let s := exec scripted sched_two_pairs
             (main_init scripted flags_IST world_two_pairs) in
  status s = Some 0 /\
  length (sent s) = 1%nat /\
  best_lines (trace (st s)) = date_pairs (trace (st s)).
Proof.
  cbv zeta.
  destruct (main_startup scripted flags_IST
              {| world := world_two_pairs; trace := [] |})
    as [[[[t config] bA]|c] x] eqn:Hstart; [|discriminate Hstart].
  assert (Hexit : status (exec scripted sched_two_pairs
                            (main_init scripted flags_IST world_two_pairs))
                  = Some 0) by (vm_compute; reflexivity).
  destruct (C2_one_query_per_attendee_one_line_per_date_pair
              Script scripted flags_IST world_two_pairs t config bA x
              sched_two_pairs Hstart) as [H _].
  destruct (H Hexit) as (_ & _ & Hlen & Hlines).
  injection Hstart as _ <- _ _.
  repeat split; assumption.
Defined.

(** C2 as stated fails: in a run on one attendee in which no call fails and
    the price graph returns two date pairs, two "Best offer" lines are
    printed. *)
Lemma C2_counterexample_two_lines_for_one_attendee :
  ~ (forall (W : Type) (E : Env W) (fl : Flags) (w0 : W) (t : Time)
            (config : Config) (bA : PriceGraphArgs) (x : St W)
            (acts : list Action),
        main_startup E fl {| world := w0; trace := [] |}
        = (Ok (t, config, bA), x) ->
        let s := exec E acts (main_init E fl w0) in
        status s = Some 0 ->
        (forall e, e ∈ trace (st s) -> failed_call e = false) ->
        length (sent s) = length (Attendees config) /\
        (best_lines (trace (st s)) <= length (Attendees config))%nat).
Proof.
  intros H.
  destruct (main_startup scripted flags_IST
              {| world := world_two_pairs; trace := [] |})
    as [[[[t config] bA]|c] x] eqn:Hstart; [|discriminate Hstart].
  specialize (H Script scripted flags_IST world_two_pairs t config bA x
                sched_two_pairs Hstart).
  cbv zeta in H.
  assert (Hexit : status (exec scripted sched_two_pairs
                            (main_init scripted flags_IST world_two_pairs))
                  = Some 0) by (vm_compute; reflexivity).
  destruct (H Hexit (no_failed_call_at_exit0 _ _ _ _ Hexit)) as [_ Hle].
  injection Hstart as _ <- _ _.
  vm_compute in Hle. lia.
Qed.

(** ** What a worker does to its query *)

(** A query that was sent is the query of an attendee. *)
Lemma sent_of_attendee {W} (atts : list Attendee) (s : State W)
    (Req : PriceGraphArgs) :
  Inv atts s -> Req ∈ sent s ->
  exists source, source ∈ atts /\ Req = attendee_args (baseArgs s) source.
Proof.
  intros [_ _ _ HD _] Hin.
  assert (Hmap : Req ∈ map (attendee_args (baseArgs s)) atts).
  { rewrite <- HD. apply elem_of_app. now left. }
  apply list_elem_of_In, in_map_iff in Hmap as (source & <- & Hsrc).
  exists source. split; [now apply list_elem_of_In | reflexivity].
Qed.

(** A move leaves alone what the other workers hold. *)
Lemma Step_frame {W} (E : Env W) (g : Action) (s s' : State W)
    (w : nat) (pc : WorkerPc) :
  Step E g s s' -> workers s !! w = Some pc -> about_worker g w = false ->
  workers s' !! w = Some pc.
Proof.
  intros HS Hw Hg.
  assert (Hne : forall w', about_worker g w = false ->
                           (g = ActSend w' \/ g = ActWorker w' \/
                            exists i, g = ActFetcher w' i) -> w' <> w).
  { intros w' Hf Hw' ->.
    destruct Hw' as [-> | [-> | [i ->]]]; simpl in Hf;
      now rewrite Nat.eqb_refl in Hf. }
  destruct HS; simpl;
    first
      [ exact Hw
      | rewrite lookup_app_l by (eapply lookup_lt_Some; eauto); exact Hw
      | rewrite list_lookup_insert_ne; [exact Hw|];
        apply Hne; eauto ].
Qed.

(** The query a move submits to the price graph. *)
Lemma Step_submits {W} (E : Env W) (g : Action) (s s' : State W)
    (a : PriceGraphArgs) (r : result (list Offer)) :
  Step E g s s' -> trace (st s') = trace (st s) ++ [EvGetPriceGraph a r] ->
  exists w got src dst,
    g = ActWorker w /\ workers s !! w = Some (WClassed got a src dst) /\
    r = (session_GetPriceGraph E a (world (st s))).1.
Proof.
  intros HS. destruct HS; simpl; intros Htr; trace_of_move Htr;
    try discriminate Htr; injection Htr as <- <-;
    exists w, got, src, dst;
    (split; [reflexivity|]; split; [assumption|]);
    match goal with H : session_GetPriceGraph _ _ _ = _ |- _ => now rewrite H end.
Qed.

(** The move of a worker that holds a received query. *)
Lemma Step_classes {W} (E : Env W) (atts : list Attendee) (s s' : State W)
    (w : nat) (Req : PriceGraphArgs) :
  Inv atts s -> Inv2 s ->
  Step E (ActWorker w) s s' -> workers s !! w = Some (WGot Req) ->
  (exists class src dst,
      resolved class = true /\
      workers s' !! w = Some (WClassed Req (set_Class Req class) src dst)) \/
  workers s' !! w = Some (WExit 1).
Proof.
  intros HI HQ HS Hw.
  inversion HS; subst; try congruence.
  - exfalso. eapply no_class_panic; eauto.
  - left. assert (Req0 = Req) by congruence. subst Req0.
    exists c, src, dst. split; [assumption|]. simpl.
    eapply lookup_set_worker; eauto.
  - right. simpl. eapply lookup_set_worker; eauto.
Qed.

(** C9.  Under every schedule:
    - every submission to [GetPriceGraph] is made by a worker, at line 124,
      with the query [a] the worker holds, and [a] is the query that very
      worker received from the channel with its class set: the received
      query is one [main] sent, the query of an attendee; the class is one
      [GetFlightClass] returns; the origin, the destination, the date
      range, the trip length and every option but the class are those of
      the query received; and the answer recorded is the service's;
    - what the channel hands to a worker is the query [main] is sending;
    - the worker that holds a received query either comes to line 124 with
      that query, its class set, beside the query as received, or it is at
      [log.Fatal];
    - no move of [main], of another worker or of another worker's
      goroutines changes what a worker holds;
    so every query in the trace of [GetPriceGraph] calls is a sent query
    with its class set. *)
Theorem C9_worker_changes_the_class_only :
  forall (W : Type) (E : Env W) (fl : Flags) (w0 : W) (acts : list Action),
    let s := exec E acts (main_init E fl w0) in
    (forall (g : Action) (s' : State W) (a : PriceGraphArgs)
            (r : result (list Offer)),
        step E g s = Some s' ->
        trace (st s') = trace (st s) ++ [EvGetPriceGraph a r] ->
        exists (w : nat) (got : PriceGraphArgs) (src dst : string) (class : Class),
          g = ActWorker w /\
          workers s !! w = Some (WClassed got a src dst) /\
          got ∈ sent s /\
          (forall t config bA x,
              main_startup E fl {| world := w0; trace := [] |}
              = (Ok (t, config, bA), x) ->
              exists source, source ∈ Attendees config /\
                             got = attendee_args bA source) /\
          a = set_Class got class /\
          resolved class = true /\
          PSrcCities a = PSrcCities got /\
          PDstCities a = PDstCities got /\
          RangeStartDate a = RangeStartDate got /\
          RangeEndDate a = RangeEndDate got /\
          TripLength a = TripLength got /\
          OTravelers (POptions a) = OTravelers (POptions got) /\
          Currency (POptions a) = Currency (POptions got) /\
          OStops (POptions a) = OStops (POptions got) /\
          OTripType (POptions a) = OTripType (POptions got) /\
          Lang (POptions a) = Lang (POptions got) /\
          OClass (POptions a) = class /\
          r = (session_GetPriceGraph E a (world (st s))).1) /\
    (forall (w : nat) (s' : State W),
        step E (ActSend w) s = Some s' ->
        exists args rest,
          mainpc s = MSend args rest /\
          workers s' !! w = Some (WGot args) /\
          sent s' = sent s ++ [args]) /\
    (forall (w : nat) (Req : PriceGraphArgs) (s' : State W),
        workers s !! w = Some (WGot Req) ->
        step E (ActWorker w) s = Some s' ->
        (exists class src dst,
            resolved class = true /\
            workers s' !! w = Some (WClassed Req (set_Class Req class) src dst)) \/
        workers s' !! w = Some (WExit 1)) /\
    (forall (g : Action) (s' : State W) (w : nat) (pc : WorkerPc),
        step E g s = Some s' ->
        workers s !! w = Some pc ->
        about_worker g w = false ->
        workers s' !! w = Some pc) /\
    (forall (a : PriceGraphArgs) (r : result (list Offer)),
        EvGetPriceGraph a r ∈ trace (st s) ->
        exists (Req : PriceGraphArgs) (class : Class),
          Req ∈ sent s /\
          (forall t config bA x,
              main_startup E fl {| world := w0; trace := [] |}
              = (Ok (t, config, bA), x) ->
              exists source, source ∈ Attendees config /\
                             Req = attendee_args bA source) /\
          a = set_Class Req class /\
          resolved class = true).
Proof.
  intros W E fl w0 acts s.
  destruct (Inv_main_init E fl w0) as (atts & Hinv & Hatts).
  pose proof (exec_Inv E _ acts _ Hinv) as HI. fold s in HI.
  assert (Hatt : forall Req, Req ∈ sent s ->
            forall t config bA x,
              main_startup E fl {| world := w0; trace := [] |}
              = (Ok (t, config, bA), x) ->
              exists source, source ∈ Attendees config /\
                             Req = attendee_args bA source).
  { intros Req Hsent t config bA x Hstart.
    destruct (Hatts _ _ _ _ Hstart) as (-> & HbA & _).
    destruct (sent_of_attendee _ _ _ HI Hsent) as (source & Hsrc & ->).
    exists source. split; [exact Hsrc|].
    unfold s. now rewrite exec_baseArgs, HbA. }
  split; [|split; [|split; [|split]]].
  - intros g s' a r Hstep Htr.
    destruct (step_Step E g s s' Hstep) as [_ HS].
    destruct (Step_submits E g s s' a r HS Htr) as (w & got & src & dst & -> & Hw & ->).
    pose proof HI as [_ HB _ _ _].
    pose proof (Forall_lookup_1 _ _ _ _ HB Hw) as (Hgot & class & Hc & Ha).
    exists w, got, src, dst, class.
    split; [reflexivity|]. split; [exact Hw|]. split; [exact Hgot|].
    split; [now apply Hatt|]. split; [exact Ha|]. split; [exact Hc|].
    rewrite Ha at 1 2 3 4 5 6 7 8 9 10 11. simpl. repeat split.
  - intros w s' Hstep. destruct (step_Step E _ s s' Hstep) as [_ HS].
    inversion HS; subst. exists args, rest. split; [assumption|].
    split; [|reflexivity]. simpl. eapply lookup_set_worker; eauto.
  - intros w Req s' Hw Hstep. destruct (step_Step E _ s s' Hstep) as [Hrun HS].
    destruct (run_cases E fl w0 acts)
      as [(t & config & bA & x & _ & (HI' & HQ & _) & _) | (x & _ & Heq & Hst & _)].
    + eapply Step_classes; eauto.
    + unfold s in Hrun. rewrite Heq in Hrun. congruence.
  - intros g s' w pc Hstep Hw Hg. destruct (step_Step E _ s s' Hstep) as [_ HS].
    eapply Step_frame; eauto.
  - intros a r Hin. pose proof HI as [_ _ _ _ HE].
    destruct (HE a r Hin) as (Req & class & Hsent & Hc & ->).
    exists Req, class. split; [exact Hsent|]. split; [now apply Hatt | auto].
Qed.

Lemma C9_witness_two_pairs :
  let s := exec scripted [ActMain; ActSend 0; ActMain; ActWorker 0]
             (main_init scripted flags_IST world_two_pairs) in
  let query := attendee_args (baseArgs (main_init scripted flags_IST world_two_pairs))
                 {| City := "NYC"; ATravelers := 1 |} in
  exists s',
    step scripted (ActWorker 0) s = Some s' /\
    trace (st s')
    = trace (st s) ++ [EvGetPriceGraph (set_Class query Business)
                                       (Res [dates 1 7; dates 2 8])] /\
    workers s !! 0%nat
    = Some (WClassed query (set_Class query Business) "NYC" "IST") /\
    sent s = [query].
Proof.
  cbv zeta.
  destruct (C9_worker_changes_the_class_only Script scripted flags_IST
              world_two_pairs [ActMain; ActSend 0; ActMain; ActWorker 0])
    as (H & _).
  destruct (step scripted (ActWorker 0)
              (exec scripted [ActMain; ActSend 0; ActMain; ActWorker 0]
                 (main_init scripted flags_IST world_two_pairs)))
    as [s'|] eqn:Hstep; [|vm_compute in Hstep; discriminate Hstep].
  assert (Htr : trace (st s')
                = trace (st (exec scripted [ActMain; ActSend 0; ActMain; ActWorker 0]
                               (main_init scripted flags_IST world_two_pairs)))
                  ++ [EvGetPriceGraph
                        (set_Class
                           (attendee_args
                              (baseArgs (main_init scripted flags_IST world_two_pairs))
                              {| City := "NYC"; ATravelers := 1 |})
                           Business)
                        (Res [dates 1 7; dates 2 8])]).
  { vm_compute in Hstep. injection Hstep as <-. vm_compute. reflexivity. }
  destruct (H (ActWorker 0) s' _ _ Hstep Htr)
    as (w & got & src & dst & class & Hg & Hw & _).
  exists s'. split; [reflexivity|]. split; [exact Htr|].
  split; vm_compute; reflexivity.
Defined.

(** ** The configured rules *)

Lemma step_with_config {W} (E : Env W) (config : Config) (a : Action)
    (s : State W) :
  step (with_config E config) a s = step E a s.
Proof. reflexivity. Qed.

Lemma exec_with_config {W} (E : Env W) (config : Config) (acts : list Action)
    (s : State W) :
  exec (with_config E config) acts s = exec E acts s.
Proof.
  induction acts as [|a acts IH] using rev_ind; [reflexivity|].
  now rewrite !exec_snoc, IH, step_with_config.
Qed.

(** C5.  Two runs that differ only in the rules of the configuration (the
    same attendees, flags, world and schedule) go through the same states:
    the same calls with the same classes, the same lines, the same exit
    status.  The thresholds [rules.business_min_hrs] and
    [rules.premium_min_hrs] are never read. *)
Theorem C5_configured_rules_have_no_influence :
  forall (W : Type) (E : Env W) (c1 c2 : Config) (fl : Flags) (w0 : W)
         (acts : list Action),
    Attendees c1 = Attendees c2 ->
    exec (with_config E c1) acts (main_init (with_config E c1) fl w0)
    = exec (with_config E c2) acts (main_init (with_config E c2) fl w0).
Proof.
  intros W E c1 c2 fl w0 acts Hatt.
  rewrite !exec_with_config. f_equal.
  unfold main_init. unfold_M. cbn.
  destruct (time_Now E w0) as [t w1]. cbn.
  destruct (flags_missing fl); cbn; [reflexivity|].
  destruct (flights_New E w1) as [[u|e] w2]; cbn; [|reflexivity].
  destruct (time_Parse E "2006-01-02" (startDate fl)); cbn; [|reflexivity].
  destruct (time_Parse E "2006-01-02" (endDate fl)); cbn; [|reflexivity].
  unfold pipeline_init. now rewrite Hatt.
Qed.

Lemma C5_witness_other_rules :
  Attendees config_NYC = Attendees config_NYC_other_rules /\
  CRules config_NYC <> CRules config_NYC_other_rules /\
  exec (with_config scripted config_NYC) sched_two_pairs
       (main_init (with_config scripted config_NYC) flags_IST world_two_pairs)
  = exec (with_config scripted config_NYC_other_rules) sched_two_pairs
         (main_init (with_config scripted config_NYC_other_rules) flags_IST
                    world_two_pairs).
Proof.
  split; [reflexivity|]. split; [discriminate|].
  apply (C5_configured_rules_have_no_influence Script scripted config_NYC
           config_NYC_other_rules flags_IST world_two_pairs sched_two_pairs).
  reflexivity.
Defined.

(* ===================================================================== *)
(** ** Part 11: the selection loops when no price is zero *)
(* ===================================================================== *)

Lemma SFltb_trans (x y z : spec_float) :
  SFltb x y = true -> SFltb y z = true -> SFltb x z = true.
Proof.
  unfold SFltb.
  destruct x as [sx|sx| |sx mx ex], y as [sy|sy| |sy my ey],
           z as [sz|sz| |sz mz ez]; simpl;
    try destruct sx; try destruct sy; try destruct sz; simpl;
    try discriminate; try reflexivity;
    change (Pos.compare_cont Eq) with Pos.compare;
    destruct (Z.compare_spec ex ey); destruct (Z.compare_spec ey ez);
    destruct (Z.compare_spec ex ez);
    try destruct (Pos.compare_spec mx my); try destruct (Pos.compare_spec my mz);
    try destruct (Pos.compare_spec mx mz);
    simpl; try discriminate; try reflexivity; try lia.
Qed.

Lemma ltb_trans (x y z : float) :
  PrimFloat.ltb x y = true -> PrimFloat.ltb y z = true -> PrimFloat.ltb x z = true.
Proof. rewrite !FloatAxioms.ltb_spec. apply SFltb_trans. Qed.

Lemma ltb_irrefl (x : float) : PrimFloat.ltb x x = false.
Proof.
  rewrite FloatAxioms.ltb_spec. unfold SFltb.
  destruct (Prim2SF x) as [s|s| |s m e]; simpl; try destruct s; try reflexivity;
    rewrite Z.compare_refl; change (Pos.compare_cont Eq) with Pos.compare;
    now rewrite Pos.compare_refl.
Qed.

Lemma SFcompare_antisym (x y : spec_float) :
  SFltb x y = false -> SFltb y x = false ->
  SFeqb x x = true -> SFeqb y y = true -> SFeqb x y = true.
Proof.
  unfold SFltb, SFeqb.
  destruct x as [sx|sx| |sx mx ex], y as [sy|sy| |sy my ey]; simpl;
    try destruct sx; try destruct sy; simpl;
    try discriminate; try reflexivity;
    change (Pos.compare_cont Eq) with Pos.compare;
    destruct (Z.compare_spec ex ey); destruct (Z.compare_spec ey ex);
    try destruct (Pos.compare_spec mx my); try destruct (Pos.compare_spec my mx);
    simpl; try discriminate; try reflexivity; try lia.
Qed.

Lemma ltb_asym (x y : float) :
  PrimFloat.ltb x y = true -> PrimFloat.ltb y x = false.
Proof.
  intros H. destruct (PrimFloat.ltb y x) eqn:H'; [|reflexivity].
  pose proof (ltb_trans _ _ _ H H') as Hxx. now rewrite ltb_irrefl in Hxx.
Qed.

Lemma ltb_not_below (x y z : float) :
  PrimFloat.ltb y z = true -> PrimFloat.ltb x z = false ->
  PrimFloat.ltb x y = false.
Proof.
  intros Hyz Hxz. destruct (PrimFloat.ltb x y) eqn:H; [|reflexivity].
  pose proof (ltb_trans _ _ _ H Hyz). congruence.
Qed.

Lemma bestOffer_step_nonzero (b o : FullOffer) :
  PrimFloat.eqb (price b) 0 = false ->
  bestOffer_step b o = if PrimFloat.ltb (price o) (price b) then o else b.
Proof. unfold bestOffer_step, price. now intros ->. Qed.

Lemma bestOffer_fold_min (l : list FullOffer) :
  forall b : FullOffer,
    PrimFloat.eqb (price b) 0 = false ->
    (forall o, o ∈ l -> PrimFloat.eqb (price o) 0 = false) ->
    let r := fold_left bestOffer_step l b in
    (r = b \/ (r ∈ l /\ PrimFloat.ltb (price r) (price b) = true)) /\
    (forall o, o ∈ l -> PrimFloat.ltb (price o) (price r) = false).
Proof.
  induction l as [|o l IH]; intros b Hb Hl; cbn [fold_left]; cbv zeta.
  - split; [now left|]. intros o Ho. inversion Ho.
  - rewrite (bestOffer_step_nonzero b o Hb).
    assert (Ho0 : PrimFloat.eqb (price o) 0 = false)
      by (apply Hl, list_elem_of_here).
    assert (Hl' : forall o', o' ∈ l -> PrimFloat.eqb (price o') 0 = false)
      by (intros o' Ho'; now apply Hl, list_elem_of_further).
    destruct (PrimFloat.ltb (price o) (price b)) eqn:Hlt.
    + destruct (IH o Ho0 Hl') as [Hr Hall]. split.
      * right. destruct Hr as [-> | [Hin Hro]].
        -- split; [apply list_elem_of_here | exact Hlt].
        -- split; [now apply list_elem_of_further|]. eapply ltb_trans; eauto.
      * intros o' Ho'. apply elem_of_cons in Ho' as [-> | Ho']; [|auto].
        destruct Hr as [-> | [_ Hro]]; [apply ltb_irrefl | now apply ltb_asym].
    + destruct (IH b Hb Hl') as [Hr Hall]. split.
      * destruct Hr as [-> | [Hin Hrb]]; [now left|].
        right. split; [now apply list_elem_of_further | exact Hrb].
      * intros o' Ho'. apply elem_of_cons in Ho' as [-> | Ho']; [|auto].
        destruct Hr as [-> | [_ Hrb]]; [exact Hlt|].
        eapply ltb_not_below; eauto.
Qed.

(** The loop of [GetActualOffers] on a first offer and the rest, none with
    a zero price. *)
Lemma bestOffer_loop_min_cons (o1 : FullOffer) (l : list FullOffer) :
  (forall o, o ∈ o1 :: l -> PrimFloat.eqb (Price (FOffer o)) 0 = false) ->
  bestOffer_loop (o1 :: l) ∈ o1 :: l /\
  (forall o, o ∈ o1 :: l ->
     PrimFloat.ltb (Price (FOffer o)) (Price (FOffer (bestOffer_loop (o1 :: l))))
     = false).
Proof.
  intros Hnz. unfold bestOffer_loop. cbn [fold_left].
  change (bestOffer_step zero_FullOffer o1) with o1.
  assert (H1 : PrimFloat.eqb (price o1) 0 = false)
    by (apply Hnz, list_elem_of_here).
  destruct (bestOffer_fold_min l o1 H1) as [Hr Hall].
  { intros o Ho. now apply Hnz, list_elem_of_further. }
  cbv zeta in *. split.
  - destruct Hr as [-> | [Hin _]];
      [apply list_elem_of_here | now apply list_elem_of_further].
  - intros o Ho. apply elem_of_cons in Ho as [-> | Ho]; [|now apply Hall].
    destruct Hr as [-> | [_ Hlt]]; [apply ltb_irrefl | now apply ltb_asym].
Qed.

(** X10.  On a non-empty list of offers none of which has price 0, the
    loop of [GetActualOffers] selects an offer of the list, and no offer of
    the list is cheaper than it. *)
Theorem bestOffer_loop_minimum_without_zero_price :
  forall offers : list FullOffer,
    offers <> [] ->
    (forall o, o ∈ offers -> PrimFloat.eqb (Price (FOffer o)) 0 = false) ->
    bestOffer_loop offers ∈ offers /\
    (forall o, o ∈ offers ->
       PrimFloat.ltb (Price (FOffer o)) (Price (FOffer (bestOffer_loop offers)))
       = false).
Proof.
  intros [|o1 l] Hne Hnz.
  - contradiction.
  - apply bestOffer_loop_min_cons. exact Hnz.
Qed.

Lemma X10_witness_three_offers :
  let offers := [offer_of 700 (11 * Hour); offer_of 650 (12 * Hour);
                 offer_of 900 (11 * Hour)] in
  bestOffer_loop offers ∈ offers /\
  (forall o, o ∈ offers ->
     PrimFloat.ltb (Price (FOffer o)) (Price (FOffer (bestOffer_loop offers)))
     = false).
Proof.
  cbv zeta.
  apply bestOffer_loop_minimum_without_zero_price; [discriminate|].
  intros o Ho.
  repeat (apply elem_of_cons in Ho as [-> | Ho]; [reflexivity|]).
  inversion Ho.
Defined.

Lemma elem_of_perm {A} (l1 l2 : list A) (x : A) :
  Permutation l1 l2 -> x ∈ l1 -> x ∈ l2.
Proof.
  intros Hp Hx. apply list_elem_of_In. apply list_elem_of_In in Hx.
  eapply Permutation_in; eauto.
Qed.

(** X11.  On offers whose prices are neither 0 nor NaN, the price selected
    by the loop of [GetActualOffers] does not depend on the order of the
    offers: two permutations yield equal prices. *)
Theorem bestOffer_loop_order_without_zero_price :
  forall l1 l2 : list FullOffer,
    Permutation l1 l2 ->
    (forall o, o ∈ l1 ->
       PrimFloat.eqb (Price (FOffer o)) 0 = false /\
       PrimFloat.eqb (Price (FOffer o)) (Price (FOffer o)) = true) ->
    PrimFloat.eqb (Price (FOffer (bestOffer_loop l1)))
                  (Price (FOffer (bestOffer_loop l2))) = true.
Proof.
  intros l1 l2 Hp Hok.
  destruct l1 as [|o1 l1'].
  { apply Permutation_nil in Hp. subst l2. reflexivity. }
  assert (Hne2 : l2 <> []).
  { intros ->. apply Permutation_sym, Permutation_nil in Hp. discriminate. }
  assert (Hok2 : forall o, o ∈ l2 ->
            PrimFloat.eqb (Price (FOffer o)) 0 = false /\
            PrimFloat.eqb (Price (FOffer o)) (Price (FOffer o)) = true).
  { intros o Ho. apply Hok. eapply elem_of_perm; [|exact Ho].
    now apply Permutation_sym. }
  destruct (bestOffer_loop_min_cons o1 l1')
    as [Hin1 Hmin1]; [intros o Ho; now apply Hok |].
  destruct l2 as [|o2 l2']; [contradiction|].
  destruct (bestOffer_loop_min_cons o2 l2')
    as [Hin2 Hmin2]; [intros o Ho; now apply Hok2 |].
  pose proof (Hmin2 _ (elem_of_perm _ _ _ Hp Hin1)) as H12.
  pose proof (Hmin1 _ (elem_of_perm _ _ _ (Permutation_sym Hp) Hin2)) as H21.
  destruct (Hok _ Hin1) as [_ Hn1]. destruct (Hok2 _ Hin2) as [_ Hn2].
  rewrite FloatAxioms.ltb_spec in H12, H21.
  rewrite FloatAxioms.eqb_spec in Hn1, Hn2 |- *.
  now apply SFcompare_antisym.
Qed.

Lemma X11_witness_two_orders :
  let l1 := [offer_of 700 (11 * Hour); offer_of 650 (12 * Hour)] in
  let l2 := [offer_of 650 (12 * Hour); offer_of 700 (11 * Hour)] in
  Permutation l1 l2 /\
  PrimFloat.eqb (Price (FOffer (bestOffer_loop l1)))
                (Price (FOffer (bestOffer_loop l2))) = true.
Proof.
  cbv zeta. split; [apply perm_swap|].
  apply bestOffer_loop_order_without_zero_price; [apply perm_swap|].
  intros o Ho.
  repeat (apply elem_of_cons in Ho as [-> | Ho]; [split; reflexivity|]).
  inversion Ho.
Defined.

(** X12.  The duration selected by the loop of [lookup_flight_time], and
    so the class chosen from it, does not depend on the order in which the
    service lists the offers. *)
Theorem bestDuration_loop_order :
  forall l1 l2 : list FullOffer,
    Permutation l1 l2 ->
    FlightDuration (bestDuration_loop l1) = FlightDuration (bestDuration_loop l2).
Proof.
  intros l1 l2 Hp.
  destruct (bestDuration_loop_spec l1) as [Hz1 Hn1].
  destruct (bestDuration_loop_spec l2) as [Hz2 Hn2]. cbv zeta in *.
  assert (Hdec : (forall o, o ∈ l1 -> FlightDuration o = 0) \/
                 (exists o, o ∈ l1 /\ FlightDuration o <> 0)).
  { clear. induction l1 as [|o l IH].
    - left. intros o Ho. inversion Ho.
    - destruct (Z.eq_dec (FlightDuration o) 0) as [Hz|Hnz].
      + destruct IH as [IH | (o' & Ho' & Hnz')].
        * left. intros o' Ho'. apply elem_of_cons in Ho' as [-> | Ho']; auto.
        * right. exists o'. split; [now apply list_elem_of_further | auto].
      + right. exists o. split; [apply list_elem_of_here | auto]. }
  destruct Hdec as [Hall | (o & Ho & Hnz)].
  - rewrite (Hz1 Hall). symmetry. apply Hz2. intros o Ho. apply Hall.
    eapply elem_of_perm; [|exact Ho]. now apply Permutation_sym.
  - destruct Hn1 as (Hd1 & (a1 & Ha1 & He1) & Hmin1); [eauto|].
    destruct Hn2 as (Hd2 & (a2 & Ha2 & He2) & Hmin2).
    { exists o. split; [eapply elem_of_perm; eauto | auto]. }
    assert (H12 : FlightDuration (bestDuration_loop l1)
                  <= FlightDuration (bestDuration_loop l2)).
    { rewrite <- He2. apply Hmin1; [|congruence].
      eapply elem_of_perm; [|exact Ha2]. now apply Permutation_sym. }
    assert (H21 : FlightDuration (bestDuration_loop l2)
                  <= FlightDuration (bestDuration_loop l1)).
    { rewrite <- He1. apply Hmin2; [|congruence]. eapply elem_of_perm; eauto. }
    lia.
Qed.

Lemma X12_witness_two_orders :
  let l1 := [offer_of 700 (11 * Hour); offer_of 300 0; offer_of 650 (9 * Hour)] in
  let l2 := [offer_of 300 0; offer_of 700 (11 * Hour); offer_of 650 (9 * Hour)] in
  Permutation l1 l2 /\
  FlightDuration (bestDuration_loop l1) = FlightDuration (bestDuration_loop l2).
Proof.
  cbv zeta. split; [apply perm_swap|].
  apply bestDuration_loop_order. apply perm_swap.
Defined.


(* ===================================================================== *)
(** ** Part 12: where the calls and the lines come from *)
(* ===================================================================== *)

Lemma f_known_more (tr tr' : list Event) (Req : PriceGraphArgs) (f : Fetcher) :
  (forall e, e ∈ tr -> e ∈ tr') -> f_known tr Req f -> f_known tr' Req f.
Proof.
  intros Htr. unfold f_known. destruct (fpc f); auto.
  intros (offers & Hin & ->). eauto.
Qed.

Lemma w_known_more (tr tr' : list Event) (sent sent' : list PriceGraphArgs)
    (pc : WorkerPc) :
  (forall e, e ∈ tr -> e ∈ tr') -> (forall q, q ∈ sent -> q ∈ sent') ->
  w_known tr sent pc -> w_known tr' sent' pc.
Proof.
  intros Htr Hsent. destruct pc; simpl; auto.
  intros ((Req0 & c & Hq & Hc & ->) & Hg & Hf).
  split; [eauto 6|]. split; [auto|].
  eapply Forall_impl; [exact Hf|]. intros f. now apply f_known_more.
Qed.

Lemma event_known_more (tr tr' : list Event)
    (sent sent' : list PriceGraphArgs) (e : Event) :
  (forall e, e ∈ tr -> e ∈ tr') -> (forall q, q ∈ sent -> q ∈ sent') ->
  event_known tr sent e -> event_known tr' sent' e.
Proof.
  intros Htr Hsent. destruct e; simpl; auto.
  intros (Req0 & c & l & o & offers & Hq & Hc & Hs & Hd & Hg & Ho & Hc' & ->).
  exists Req0, c, l, o, offers. repeat split; auto.
Qed.

Lemma map_priceGraphOffer_fresh (offers : list Offer) :
  map priceGraphOffer
      (map (fun o => {| priceGraphOffer := o; fpc := FCall |}) offers)
  = offers.
Proof. induction offers as [|o l IH]; simpl; [reflexivity | now rewrite IH]. Qed.

Lemma map_priceGraphOffer_insert (fs : list Fetcher) (i : nat) (o : Offer)
    (pc pc' : FetcherPc) :
  fs !! i = Some {| priceGraphOffer := o; fpc := pc |} ->
  map priceGraphOffer (<[i := {| priceGraphOffer := o; fpc := pc' |}]> fs)
  = map priceGraphOffer fs.
Proof.
  revert i. induction fs as [|f fs IH]; intros [|i] H; simpl in *;
    try discriminate.
  - now injection H as ->.
  - now rewrite (IH i H).
Qed.

Lemma elem_of_map_priceGraphOffer (fs : list Fetcher) (i : nat) (f : Fetcher) :
  fs !! i = Some f -> priceGraphOffer f ∈ map priceGraphOffer fs.
Proof.
  revert i. induction fs as [|f' fs IH]; intros [|i] H; simpl in *;
    try discriminate.
  - injection H as ->. apply list_elem_of_here.
  - apply list_elem_of_further. eauto.
Qed.

(** The shape of a state after a move, as far as [Inv3] is concerned. *)
Lemma Inv3_next {W} (s s' : State W) :
  Inv3 s ->
  (forall e, e ∈ trace (st s) -> e ∈ trace (st s')) ->
  (forall q, q ∈ sent s -> q ∈ sent s') ->
  (forall e, e ∈ trace (st s') ->
     e ∈ trace (st s) \/ event_known (trace (st s')) (sent s') e) ->
  Forall w_labelled (workers s') ->
  Forall (w_known (trace (st s')) (sent s')) (workers s') ->
  Inv3 s'.
Proof.
  intros [HL HK HE] Htr Hsent Hnew HL' HK'. constructor; auto.
  intros e He. destruct (Hnew e He) as [Hold | Hk]; [|exact Hk].
  eapply event_known_more; eauto.
Qed.

Lemma elem_of_snoc {A} (l : list A) (x y : A) :
  y ∈ l ++ [x] -> y ∈ l \/ y = x.
Proof.
  intros H. apply elem_of_app in H as [H|H]; [now left|].
  apply list_elem_of_singleton in H. now right.
Qed.

Lemma elem_of_snoc_l {A} (l : list A) (x y : A) : y ∈ l -> y ∈ l ++ [x].
Proof. intros H. apply elem_of_app. now left. Qed.

Lemma elem_of_snoc_r {A} (l : list A) (x : A) : x ∈ l ++ [x].
Proof. apply elem_of_app. right. apply list_elem_of_here. Qed.

Ltac old_known HK Htr :=
  eapply Forall_impl; [exact HK|]; intros ?; apply w_known_more; auto;
  rewrite Htr; intros ?; apply elem_of_snoc_l.

Ltac next_snoc s Htr :=
  apply (Inv3_next s); simpl;
  [ assumption
  | rewrite Htr; intros ?; apply elem_of_snoc_l
  | auto
  | let e := fresh "e" in let He := fresh "He" in
    intros e He; rewrite Htr in He;
    apply elem_of_snoc in He as [He | ->]; [now left | right; simpl]
  | | ].

Ltac next_same s :=
  apply (Inv3_next s); simpl; auto;
  try (apply Forall_insert; [assumption | exact I]).

Lemma Inv3_Step {W} (E : Env W) (atts : list Attendee) (a : Action)
    (s s' : State W) :
  Inv atts s -> Inv3 s -> Step E a s s' -> Inv3 s'.
Proof.
  intros HI HInv3 HS. pose proof HI as [_ HB _ _ _].
  pose proof HInv3 as [HL HK HE].
  destruct HS.
  - (* start *) apply (Inv3_next s); simpl; auto.
    + apply Forall_app. split; [assumption | repeat constructor].
    + apply Forall_app. split; [assumption | repeat constructor].
  - (* close *) next_same s.
  - (* finish *) next_snoc s H1; [exact I | assumption | old_known HK H1].
  - (* send *) apply (Inv3_next s); simpl; auto.
    + intros q. apply elem_of_snoc_l.
    + apply Forall_insert; [assumption | exact I].
    + apply Forall_insert; [|exact I].
      eapply Forall_impl; [exact HK|]. intros pc. apply w_known_more; auto.
      intros q. apply elem_of_snoc_l.
  - (* end *) next_same s.
  - (* end, panic *) next_same s.
  - (* class, panic *) apply (Inv3_next s); simpl; auto.
    + rewrite H1. auto.
    + rewrite H1. auto.
    + apply Forall_insert; [assumption | exact I].
    + rewrite H1. apply Forall_insert; [assumption | exact I].
  - (* class *) next_snoc s H3.
    + exact I.
    + apply Forall_insert; [assumption|]. simpl. eauto.
    + apply Forall_insert; [old_known HK H3 | exact I].
  - (* class, fatal *) next_snoc s H3.
    + exact I.
    + apply Forall_insert; [assumption | exact I].
    + apply Forall_insert; [old_known HK H3 | exact I].
  - (* graph *)
    pose proof (Forall_lookup_1 _ _ _ _ HB H) as (Hgot & c & Hc & Hreq).
    pose proof (Forall_lookup_1 _ _ _ _ HL H) as Hlab. simpl in Hlab.
    next_snoc s H1.
    + exact I.
    + apply Forall_insert; [assumption | exact Hlab].
    + apply Forall_insert; [old_known HK H1|]. simpl.
      split; [eauto|]. split.
      * rewrite map_priceGraphOffer_fresh, H1. apply elem_of_snoc_r.
      * apply Forall_forall. intros f Hf. apply list_elem_of_In, in_map_iff in Hf
          as (o & <- & _). exact I.
  - (* graph, fatal *) next_snoc s H1.
    + exact I.
    + apply Forall_insert; [assumption | exact I].
    + apply Forall_insert; [old_known HK H1 | exact I].
  - (* waited *) next_same s.
  - (* exit *) next_same s.
  - (* fetch *)
    pose proof (Forall_lookup_1 _ _ _ _ HK H) as ((Req0 & c & Hq & Hc & ->) & Hg & Hf).
    pose proof (Forall_lookup_1 _ _ _ _ HL H) as Hlab. simpl in Hlab.
    next_snoc s H2.
    + exact I.
    + apply Forall_insert; [assumption | exact Hlab].
    + apply Forall_insert; [old_known HK H2|]. simpl.
      split; [eauto|]. split.
      * rewrite (map_priceGraphOffer_insert _ _ _ _ _ H0), H2.
        now apply elem_of_snoc_l.
      * apply Forall_insert.
        -- eapply Forall_impl; [exact Hf|]. intros f. apply f_known_more.
           rewrite H2. intros ?. apply elem_of_snoc_l.
        -- unfold f_known. simpl. exists offers.
           split; [rewrite H2; apply elem_of_snoc_r | reflexivity].
  - (* fetch, fatal *)
    pose proof (Forall_lookup_1 _ _ _ _ HK H) as ((Req0 & c & Hq & Hc & ->) & Hg & Hf).
    pose proof (Forall_lookup_1 _ _ _ _ HL H) as Hlab. simpl in Hlab.
    next_snoc s H2.
    + exact I.
    + apply Forall_insert; [assumption | exact Hlab].
    + apply Forall_insert; [old_known HK H2|]. simpl.
      split; [eauto|]. split.
      * rewrite (map_priceGraphOffer_insert _ _ _ _ _ H0), H2.
        now apply elem_of_snoc_l.
      * apply Forall_insert; [|exact I].
        eapply Forall_impl; [exact Hf|]. intros f. apply f_known_more.
        rewrite H2. intros ?. apply elem_of_snoc_l.
  - (* print *)
    pose proof (Forall_lookup_1 _ _ _ _ HK H) as ((Req0 & c & Hq & Hc & ->) & Hg & Hf).
    pose proof (Forall_lookup_1 _ _ _ _ HL H) as Hlab. simpl in Hlab.
    pose proof (Forall_lookup_1 _ _ _ _ Hf H0) as (offers & Hoff & ->).
    simpl in Hoff.
    next_snoc s H1.
    + exists Req0, c, (map priceGraphOffer fetchers), o, offers.
      destruct Hlab as [Hs Hd]. repeat split; auto.
      * rewrite H1. now apply elem_of_snoc_l.
      * apply (elem_of_map_priceGraphOffer _ _ _ H0).
      * rewrite H1. now apply elem_of_snoc_l.
    + apply Forall_insert; [assumption | exact Hlab].
    + apply Forall_insert; [old_known HK H1|]. simpl.
      split; [eauto|]. split.
      * rewrite (map_priceGraphOffer_insert _ _ _ _ _ H0), H1.
        now apply elem_of_snoc_l.
      * apply Forall_insert; [|exact I].
        eapply Forall_impl; [exact Hf|]. intros f. apply f_known_more.
        rewrite H1. intros ?. apply elem_of_snoc_l.
  - (* print, panic: impossible *) exfalso. eapply no_print_panic; eauto.
  - (* exit of a fetcher *) next_same s.
Qed.

Lemma startup_event_known (tr : list Event)
    (sent : list PriceGraphArgs) (evs : list Event) :
  forallb startup_event evs = true ->
  forall e, e ∈ evs -> event_known tr sent e.
Proof.
  intros Hall e He. apply list_elem_of_In in He.
  rewrite forallb_forall in Hall. specialize (Hall e He).
  destruct e; try discriminate; exact I.
Qed.

Lemma Inv3_main_init {W} (E : Env W) (fl : Flags) (w0 : W) :
  Inv3 (main_init E fl w0).
Proof.
  pose proof (main_init_trace E fl w0) as Htr.
  assert (Hws : workers (main_init E fl w0) = []).
  { unfold main_init.
    now destruct (main_startup E fl _) as [[[[t config] bA]|c] x]. }
  constructor.
  - rewrite Hws. constructor.
  - rewrite Hws. constructor.
  - now apply startup_event_known.
Qed.

Lemma exec_Inv3 {W} (E : Env W) (fl : Flags) (w0 : W) (acts : list Action) :
  exists atts,
    Inv atts (exec E acts (main_init E fl w0)) /\
    Inv3 (exec E acts (main_init E fl w0)) /\
    forall t config bA x,
      main_startup E fl {| world := w0; trace := [] |}
      = (Ok (t, config, bA), x) ->
      atts = Attendees config /\
      baseArgs (exec E acts (main_init E fl w0)) = bA.
Proof.
  destruct (Inv_main_init E fl w0) as (atts & Hinv & Hatts).
  exists atts.
  assert (H : Inv atts (exec E acts (main_init E fl w0)) /\
              Inv3 (exec E acts (main_init E fl w0))).
  { apply (exec_ind E (fun s => Inv atts s /\ Inv3 s)).
    - intros a s s' [HI H3] _ HS. split.
      + eapply Inv_Step; eauto.
      + eapply Inv3_Step; eauto.
    - split; [exact Hinv | apply Inv3_main_init]. }
  destruct H as [HI H3]. split; [exact HI|]. split; [exact H3|].
  intros t config bA x Hstart. destruct (Hatts _ _ _ _ Hstart) as (-> & Hb & _).
  split; [reflexivity|]. now rewrite exec_baseArgs.
Qed.

(** X6.  Every "Best offer" line names the city of an attendee and the
    destination flag, and its price is the result of the reduction loop on
    the offers that [GetOffers] returned for one date pair that
    [GetPriceGraph] returned for that attendee's query (with its class
    set). *)
Theorem printed_line_reports_the_offers_of_one_date_pair :
  forall (W : Type) (E : Env W) (fl : Flags) (w0 : W) (t : Time)
         (config : Config) (bA : PriceGraphArgs) (x : St W)
         (acts : list Action) (src dst : string) (p : float),
    main_startup E fl {| world := w0; trace := [] |} = (Ok (t, config, bA), x) ->
    let s := exec E acts (main_init E fl w0) in
    EvPrintBest src dst p ∈ trace (st s) ->
    exists source class l o offers,
      source ∈ Attendees config /\
      src = City source /\ dst = destination fl /\
      resolved class = true /\
      EvGetPriceGraph (set_Class (attendee_args bA source) class) (Res l)
        ∈ trace (st s) /\
      o ∈ l /\
      EvGetOffers (offers_args o (set_Class (attendee_args bA source) class))
                  (Res offers) ∈ trace (st s) /\
      p = Price (FOffer (bestOffer_loop offers)).
Proof.
  intros W E fl w0 t config bA x acts src dst p Hstart s Hin.
  destruct (exec_Inv3 E fl w0 acts) as (atts & HI & [_ _ HE] & Hatts).
  destruct (Hatts _ _ _ _ Hstart) as [-> Hb]. fold s in HI, HE, Hb.
  destruct (HE _ Hin)
    as (Req0 & c & l & o & offers & Hq & Hc & [rs Hs] & [rd Hd] & Hg & Ho & Hoff & ->).
  destruct (sent_of_attendee _ _ _ HI Hq) as (source & Hsrc & ->).
  rewrite Hb in *. simpl in Hs, Hd.
  rewrite (main_startup_dst E fl _ _ _ _ _ Hstart) in Hd.
  injection Hs as <- _. injection Hd as <- _.
  exists source, c, l, o, offers. repeat split; auto.
Qed.

Lemma X6_witness_two_pairs :
  let s := exec scripted sched_two_pairs
             (main_init scripted flags_IST world_two_pairs) in
  EvPrintBest "NYC" "IST" 3100 ∈ trace (st s) /\
  exists offers, 3100%float = Price (FOffer (bestOffer_loop offers)).
Proof.
  cbv zeta.
  destruct (main_startup scripted flags_IST
              {| world := world_two_pairs; trace := [] |})
    as [[[[t config] bA]|c] x] eqn:Hstart; [|discriminate Hstart].
  assert (Hin : EvPrintBest "NYC" "IST" 3100
                ∈ trace (st (exec scripted sched_two_pairs
                               (main_init scripted flags_IST world_two_pairs))))
    by (vm_compute; repeat constructor).
  destruct (printed_line_reports_the_offers_of_one_date_pair Script scripted
              flags_IST world_two_pairs t config bA x sched_two_pairs
              "NYC" "IST" 3100%float Hstart Hin)
    as (source & class & l & o & offers & _ & _ & _ & _ & _ & _ & _ & Hp).
  split; [exact Hin | eauto].
Defined.

(** The call of [GetOffers] a move makes: the probe of a worker that holds a
    received query, or the call of a goroutine for its date pair; in both
    the answer is the one the service gives in the world of the move. *)
Lemma Step_calls_offers {W} (E : Env W) (g : Action) (s s' : State W)
    (a : Args) (r : result (list FullOffer)) :
  Step E g s s' -> trace (st s') = trace (st s) ++ [EvGetOffers a r] ->
  (exists w Req src rs dst rd,
      g = ActWorker w /\ workers s !! w = Some (WGot Req) /\
      PSrcCities Req = src :: rs /\ PDstCities Req = dst :: rd /\
      a = probe_now E (st s) src dst /\
      r = (probe_answer E (st s) src dst).1) \/
  (exists w i Req src dst lg fetchers o,
      g = ActFetcher w i /\
      workers s !! w = Some (WWait Req src dst lg fetchers) /\
      fetchers !! i = Some {| priceGraphOffer := o; fpc := FCall |} /\
      a = offers_args o Req /\
      r = (session_GetOffers E a (world (st s))).1).
Proof.
  intros HS. destruct HS; simpl; intros Htr; trace_of_move Htr;
    try discriminate Htr; injection Htr as <- <-.
  - left. exists w, Req, src, rs, dst, rd. rewrite H2. auto 10.
  - left. exists w, Req, src, rs, dst, rd. rewrite H2. auto 10.
  - right. exists w, i, Req, src, dst, lg, fetchers, o. rewrite H1. auto 10.
  - right. exists w, i, Req, src, dst, lg, fetchers, o. rewrite H1. auto 10.
Qed.

(** X7.  Every move that calls [GetOffers] is one of two.  Either it is the
    probe of a worker that holds the query of an attendee as received: from
    the attendee's city to the destination flag, one adult, economy, with
    the dates one month, and one month and seven days, after two readings
    of the clock made by that move, one after the other.  Or it is the call
    of a goroutine for one date pair that [GetPriceGraph] returned for an
    attendee's query: its dates are those of the pair and its cities and
    options, the class included, are those of the query submitted to the
    price graph.  In both cases the answer recorded is the one the service
    gives to these arguments in the world of the move. *)
Theorem every_GetOffers_call_is_a_probe_or_for_a_date_pair :
  forall (W : Type) (E : Env W) (fl : Flags) (w0 : W) (t : Time)
         (config : Config) (bA : PriceGraphArgs) (x : St W)
         (acts : list Action) (g : Action) (s' : State W)
         (a : Args) (r : result (list FullOffer)),
    main_startup E fl {| world := w0; trace := [] |} = (Ok (t, config, bA), x) ->
    let s := exec E acts (main_init E fl w0) in
    step E g s = Some s' ->
    trace (st s') = trace (st s) ++ [EvGetOffers a r] ->
    exists source,
      source ∈ Attendees config /\
      ((exists w,
           g = ActWorker w /\
           workers s !! w = Some (WGot (attendee_args bA source)) /\
           let now1 := time_Now E (world (st s)) in
           let now2 := time_Now E now1.2 in
           a = probe_args E now1.1 now2.1 (City source) (destination fl) /\
           r = (session_GetOffers E a now2.2).1) \/
       (exists w i class l o,
           g = ActFetcher w i /\
           resolved class = true /\
           EvGetPriceGraph (set_Class (attendee_args bA source) class) (Res l)
             ∈ trace (st s) /\
           o ∈ l /\
           a = offers_args o (set_Class (attendee_args bA source) class) /\
           r = (session_GetOffers E a (world (st s))).1)).
Proof.
  intros W E fl w0 t config bA x acts g s' a r Hstart s Hstep Htr.
  destruct (exec_Inv3 E fl w0 acts) as (atts & HI & [_ HK _] & Hatts).
  destruct (Hatts _ _ _ _ Hstart) as [-> Hb]. fold s in HI, HK, Hb.
  pose proof HI as [_ HB _ _ _].
  destruct (step_Step E g s s' Hstep) as [_ HS].
  destruct (Step_calls_offers E g s s' a r HS Htr)
    as [(w & Req & src & rs & dst & rd & -> & Hw & Hs & Hd & -> & ->)
       | (w & i & Req & src & dst & lg & fs & o & -> & Hw & Hf & -> & ->)].
  - pose proof (Forall_lookup_1 _ _ _ _ HB Hw) as Hq. simpl in Hq.
    destruct (sent_of_attendee _ _ _ HI Hq) as (source & Hsrc & ->).
    rewrite Hb in *. simpl in Hs, Hd.
    rewrite (main_startup_dst E fl _ _ _ _ _ Hstart) in Hd.
    injection Hs as <- _. injection Hd as <- _.
    exists source. split; [exact Hsrc|]. left. exists w.
    split; [reflexivity|]. split; [exact Hw|]. split; reflexivity.
  - pose proof (Forall_lookup_1 _ _ _ _ HK Hw) as ((Req0 & c & Hq & Hc & ->) & Hg & _).
    destruct (sent_of_attendee _ _ _ HI Hq) as (source & Hsrc & ->).
    rewrite Hb in *.
    exists source. split; [exact Hsrc|]. right.
    exists w, i, c, (map priceGraphOffer fs), o.
    split; [reflexivity|]. split; [exact Hc|]. split; [exact Hg|].
    split; [apply (elem_of_map_priceGraphOffer _ _ _ Hf)|]. split; reflexivity.
Qed.

Lemma X7_witness_probe :
  let s := exec scripted [ActMain; ActSend 0]
             (main_init scripted flags_IST world_two_pairs) in
  exists s' a,
    step scripted (ActWorker 0) s = Some s' /\
    trace (st s')
    = trace (st s) ++ [EvGetOffers a (Res [offer_of 700 (11 * Hour)])] /\
    a = probe_args scripted 1 2 "NYC" "IST".
Proof.
  cbv zeta.
  destruct (main_startup scripted flags_IST
              {| world := world_two_pairs; trace := [] |})
    as [[[[t config] bA]|c] x] eqn:Hstart; [|discriminate Hstart].
  destruct (step scripted (ActWorker 0)
              (exec scripted [ActMain; ActSend 0]
                 (main_init scripted flags_IST world_two_pairs)))
    as [s'|] eqn:Hstep; [|vm_compute in Hstep; discriminate Hstep].
  assert (Htr : trace (st s')
                = trace (st (exec scripted [ActMain; ActSend 0]
                               (main_init scripted flags_IST world_two_pairs)))
                  ++ [EvGetOffers (probe_args scripted 1 2 "NYC" "IST")
                                  (Res [offer_of 700 (11 * Hour)])]).
  { vm_compute in Hstep. injection Hstep as <-. vm_compute. reflexivity. }
  destruct (every_GetOffers_call_is_a_probe_or_for_a_date_pair Script scripted
              flags_IST world_two_pairs t config bA x [ActMain; ActSend 0]
              (ActWorker 0) s' _ _ Hstart Hstep Htr)
    as (source & Hsrc & _).
  exists s', (probe_args scripted 1 2 "NYC" "IST").
  split; [reflexivity|]. split; [exact Htr | reflexivity].
Defined.

(* ===================================================================== *)
(** ** Part 13: the exit status, the channel and the calls made *)
(* ===================================================================== *)

Lemma offers_calls_snoc (tr : list Event) (e : Event) :
  offers_calls (tr ++ [e]) = (offers_calls tr + offers_call e)%nat.
Proof. unfold offers_calls. rewrite sum_list_with_app. cbn. lia. Qed.

Lemma graph_calls_snoc (tr : list Event) (e : Event) :
  graph_calls (tr ++ [e]) = (graph_calls tr + graph_call e)%nat.
Proof. unfold graph_calls. rewrite sum_list_with_app. cbn. lia. Qed.

Lemma f_call_fresh (offers : list Offer) :
  sum_list_with f_call
    (map (fun o => {| priceGraphOffer := o; fpc := FCall |}) offers)
  = length offers.
Proof. rewrite (sum_list_with_fresh _ 1); [lia | reflexivity]. Qed.

Lemma f_call_le_unfinished (fs : list Fetcher) :
  (sum_list_with f_call fs <= sum_list_with unfinished fs)%nat.
Proof. apply sum_list_with_le. intros [o []]; cbv; lia. Qed.

Ltac count_trace H :=
  rewrite H; rewrite ?offers_calls_snoc, ?graph_calls_snoc, ?date_pairs_snoc;
  simpl.

Ltac count_sums Hw new :=
  pose proof (sum_list_with_insert w_got _ _ _ new Hw);
  pose proof (sum_list_with_insert w_classed _ _ _ new Hw);
  pose proof (sum_list_with_insert w_fcalls _ _ _ new Hw);
  simpl in *.

(** No call has failed after the move: none had failed before it, and the
    move is not a failed call. *)
Ltac no_failure HO HG Hc :=
  try (match goal with Htr : trace _ = _ |- _ => rewrite Htr in Hc end;
       rewrite ?failed_calls_snoc in Hc; unfold failure_of in Hc;
       simpl in Hc);
  first [ exfalso; lia
        | specialize (HO ltac:(lia)); specialize (HG ltac:(lia)) ].

Lemma Inv4_Step {W} (E : Env W) (atts : list Attendee) (a : Action)
    (s s' : State W) :
  Inv atts s -> Inv2 s -> Inv4 s -> Step E a s s' -> Inv4 s'.
Proof.
  intros HI HQ [HO HG] HS. pose proof HI as [_ HB _ _ _].
  destruct HS.
  - (* start *) constructor; simpl; intros Hc; no_failure HO HG Hc;
      rewrite !sum_list_with_app; simpl; lia.
  - (* close *) constructor; simpl; intros Hc; no_failure HO HG Hc; assumption.
  - (* finish *) constructor; simpl; intros Hc; no_failure HO HG Hc;
      count_trace H1; lia.
  - (* send *) count_sums H0 (WGot args).
    constructor; simpl; intros Hc; no_failure HO HG Hc;
      rewrite length_app; simpl; lia.
  - (* end *) count_sums H WDone.
    constructor; simpl; intros Hc; no_failure HO HG Hc; lia.
  - (* end, panic *) count_sums H (WExit 2).
    constructor; simpl; intros Hc; no_failure HO HG Hc; lia.
  - (* class, panic: impossible *) exfalso. eapply no_class_panic; eauto.
  - (* class *) count_sums H (WClassed Req (set_Class Req c) src dst).
    constructor; simpl; intros Hc; no_failure HO HG Hc; count_trace H3; lia.
  - (* class, fatal *)
    constructor; simpl; intros Hc; no_failure HO HG Hc.
  - (* graph *)
    count_sums H (WWait Req src dst (Z.of_nat (length offers))
                    (map (fun o => {| priceGraphOffer := o; fpc := FCall |}) offers)).
    rewrite f_call_fresh in *.
    constructor; simpl; intros Hc; no_failure HO HG Hc; count_trace H1; lia.
  - (* graph, fatal *)
    constructor; simpl; intros Hc; no_failure HO HG Hc.
  - (* waited *) count_sums H WRecv.
    pose proof (Forall_lookup_1 _ _ _ _ HB H) as Hok. simpl in Hok.
    pose proof (f_call_le_unfinished fetchers).
    constructor; simpl; intros Hc; no_failure HO HG Hc; lia.
  - (* exit *) constructor; simpl; intros Hc; no_failure HO HG Hc; assumption.
  - (* fetch *)
    count_sums H (WWait Req src dst lg
                    (<[i := {| priceGraphOffer := o;
                               fpc := FPrint (bestOffer_loop offers) |}]> fetchers)).
    pose proof (sum_list_with_insert f_call _ _ _
                  {| priceGraphOffer := o;
                     fpc := FPrint (bestOffer_loop offers) |} H0) as Hf.
    cbn in Hf.
    constructor; simpl; intros Hc; no_failure HO HG Hc; count_trace H2; lia.
  - (* fetch, fatal *)
    constructor; simpl; intros Hc; no_failure HO HG Hc.
  - (* print *)
    count_sums H (WWait Req src dst n
                    (<[i := {| priceGraphOffer := o; fpc := FDone |}]> fetchers)).
    pose proof (sum_list_with_insert f_call _ _ _
                  {| priceGraphOffer := o; fpc := FDone |} H0) as Hf.
    cbn in Hf.
    constructor; simpl; intros Hc; no_failure HO HG Hc; count_trace H1; lia.
  - (* print, panic: impossible *) exfalso. eapply no_print_panic; eauto.
  - (* exit of a fetcher *)
    constructor; simpl; intros Hc; no_failure HO HG Hc; assumption.
Qed.

Lemma no_elapsed_snoc (tr : list Event) (e : Event) :
  forallb (fun e => negb (is_elapsed e)) tr = true -> is_elapsed e = false ->
  forallb (fun e => negb (is_elapsed e)) (tr ++ [e]) = true.
Proof. intros H He. rewrite forallb_app, H. simpl. now rewrite He. Qed.

Lemma elapsed_inv_Step {W} (E : Env W) (a : Action) (s s' : State W) :
  Inv5 s -> elapsed_inv s -> status s = None -> Step E a s s' -> elapsed_inv s'.
Proof.
  unfold elapsed_inv. intros [HF _] H Hrun HS. rewrite Hrun in H.
  destruct HS; simpl; rewrite ?Hrun;
    try assumption;
    try (match goal with Htr : trace _ = _ |- _ => rewrite Htr end;
         first [ assumption | now apply no_elapsed_snoc ]).
  - eauto.
  - pose proof (Forall_lookup_1 _ _ _ _ HF H0) as Hc. simpl in Hc. subst c.
    exact H.
  - pose proof (Forall_lookup_1 _ _ _ _ HF H0) as Hfs. simpl in Hfs.
    pose proof (Forall_lookup_1 _ _ _ _ Hfs H1) as Hc. cbn in Hc. subst c.
    exact H.
Qed.

Lemma startup_no_elapsed (evs : list Event) :
  forallb startup_event evs = true ->
  forallb (fun e => negb (is_elapsed e)) evs = true.
Proof.
  induction evs as [|e evs IH]; simpl; [reflexivity|].
  intros H. apply andb_true_iff in H as [He H]. rewrite (IH H).
  now destruct e.
Qed.

(** ** The command line *)

Lemma main_init_from_args_parsed {W} (E : Env W)
    (flag_Parse : list string -> outcome Flags) (args : list string)
    (fl : Flags) (w0 : W) :
  flag_Parse args = Ok fl ->
  main_init_from_args E flag_Parse args w0 = main_init E fl w0.
Proof.
  intros Hp. unfold main_init_from_args, main_init, main_from_args,
    main_startup, bind.
  destruct (Now E _) as [[t|c] x]; [|reflexivity].
  rewrite Hp. reflexivity.
Qed.

(** So every run from a command line that [flag.Parse()] accepts is a run
    of [main_init]. *)
Lemma exec_from_args_parsed {W} (E : Env W)
    (flag_Parse : list string -> outcome Flags) (args : list string)
    (fl : Flags) (w0 : W) (acts : list Action) :
  flag_Parse args = Ok fl ->
  exec E acts (main_init_from_args E flag_Parse args w0)
  = exec E acts (main_init E fl w0).
Proof. intros Hp. now rewrite (main_init_from_args_parsed E _ _ _ _ Hp). Qed.

Lemma main_init_from_args_exit {W} (E : Env W)
    (flag_Parse : list string -> outcome Flags) (args : list string)
    (c : Z) (w0 : W) :
  flag_Parse args = Exit c ->
  main_init_from_args E flag_Parse args w0
  = exited c {| world := (time_Now E w0).2; trace := [] |}.
Proof.
  intros Hp. unfold main_init_from_args, main_from_args, bind, Now, ask, os_Exit.
  cbn. destruct (time_Now E w0) as [t w1]. cbn. rewrite Hp. reflexivity.
Qed.

(** X1.  The exit status of the process and its cause, under every
    schedule.  The process exits with the status [flag.Parse()] exits with
    (2 on an unknown or malformed flag), or the flags were parsed and the
    status is 0, or it is 1 and either the start of [main] failed or a call
    of the service returned an error.  So status 2 comes from [flag.Parse()]
    only: no goroutine panics (the index [Req.SrcCities[0]] is never out of
    range and no WaitGroup counter goes below zero); a goroutine that is
    about to end the process is at [log.Fatal]. *)
Theorem exit_status_and_its_cause :
  forall (W : Type) (E : Env W) (flag_Parse : list string -> outcome Flags)
         (args : list string) (w0 : W) (acts : list Action),
    let s := exec E acts (main_init_from_args E flag_Parse args w0) in
    (forall c, status s = Some c ->
       flag_Parse args = Exit c \/
       exists fl,
         flag_Parse args = Ok fl /\
         (c = 0 \/
          (c = 1 /\
           ((exists x, main_startup E fl {| world := w0; trace := [] |}
                       = (Exit 1, x)) \/
            (exists e, e ∈ trace (st s) /\ failed_call e = true))))) /\
    (status s = Some 2 -> flag_Parse args = Exit 2) /\
    (forall w c, workers s !! w = Some (WExit c) -> c = 1) /\
    (forall w Req src dst lg fetchers i o c,
        workers s !! w = Some (WWait Req src dst lg fetchers) ->
        fetchers !! i = Some {| priceGraphOffer := o; fpc := FExit c |} ->
        c = 1).
Proof.
  intros W E flag_Parse args w0 acts s.
  assert (H : (forall c, status s = Some c ->
       flag_Parse args = Exit c \/
       exists fl,
         flag_Parse args = Ok fl /\
         (c = 0 \/
          (c = 1 /\
           ((exists x, main_startup E fl {| world := w0; trace := [] |}
                       = (Exit 1, x)) \/
            (exists e, e ∈ trace (st s) /\ failed_call e = true))))) /\
              Forall w_fatal (workers s)).
  { destruct (flag_Parse args) as [fl|c0] eqn:Hp.
    - unfold s. rewrite (exec_from_args_parsed E _ _ _ _ _ Hp).
      destruct (run_cases E fl w0 acts)
        as [(t & config & bA & x & _ & HG & _) | (x & Hstart & Heq & Hst & Hws & _)].
      + destruct HG as (_ & _ & [HF _] & Hend). split; [|exact HF].
        intros c Hc. right. exists fl. split; [reflexivity|].
        destruct Hend as [Hrun | [H0 | [H1 He]]].
        * congruence.
        * left. congruence.
        * right. split; [congruence | now right].
      + rewrite Heq, Hws. split; [|constructor].
        intros c Hc. right. exists fl. split; [reflexivity|].
        right. split; [congruence | left; eauto].
    - unfold s. rewrite (main_init_from_args_exit E _ _ _ _ Hp).
      rewrite (exec_exited E acts _ c0) by reflexivity.
      split; [|constructor]. simpl. intros c [= <-]. now left. }
  destruct H as [H HF]. split; [exact H|]. split; [|split].
  - intros H2. destruct (H 2 H2) as [Hp | (fl & _ & [? | [? _]])];
      [exact Hp | discriminate | discriminate].
  - intros w c Hw. exact (Forall_lookup_1 _ _ _ _ HF Hw).
  - intros w Req src dst lg fetchers i o c Hw Hf.
    pose proof (Forall_lookup_1 _ _ _ _ HF Hw) as Hfs. simpl in Hfs.
    exact (Forall_lookup_1 _ _ _ _ Hfs Hf).
Qed.

(** X2.  No deadlock: in every state the process reaches and has not
    exited from, some goroutine can move ([main], a send to a waiting
    worker, a worker, or one of its goroutines). *)
Theorem running_process_is_never_stuck :
  forall (W : Type) (E : Env W) (fl : Flags) (w0 : W) (acts : list Action),
    let s := exec E acts (main_init E fl w0) in
    status s = None ->
    exists a s', step E a s = Some s'.
Proof.
  intros W E fl w0 acts s Hrun.
  destruct (run_cases E fl w0 acts)
    as [(t & config & bA & x & _ & (HI & HQ & _) & _) | (x & _ & Heq & Hst & _)].
  - eapply progress; eauto.
  - unfold s in Hrun. rewrite Heq in Hrun. congruence.
Qed.

Lemma X2_witness_after_the_first_send :
  let s := exec scripted [ActMain; ActSend 0]
             (main_init scripted flags_IST world_two_pairs) in
  status s = None /\ exists a s', step scripted a s = Some s'.
Proof.
  cbv zeta. split; [vm_compute; reflexivity|].
  apply (running_process_is_never_stuck Script scripted flags_IST
           world_two_pairs [ActMain; ActSend 0]).
  vm_compute. reflexivity.
Defined.

Lemma Inv4_main_init {W} (E : Env W) (fl : Flags) (w0 : W) :
  Inv4 (main_init E fl w0).
Proof.
  pose proof (main_init_trace E fl w0) as Htr.
  destruct (startup_events_count _ Htr) as (Hd & _ & _ & _).
  assert (Hc : offers_calls (trace (st (main_init E fl w0))) = 0%nat /\
               graph_calls (trace (st (main_init E fl w0))) = 0%nat).
  { revert Htr. generalize (trace (st (main_init E fl w0))).
    induction l as [|e l IH]; simpl; [auto|]. intros H.
    apply andb_true_iff in H as [He H]. destruct (IH H) as [Ho Hg].
    unfold offers_calls, graph_calls in *. simpl. rewrite Ho, Hg.
    now destruct e. }
  destruct Hc as [Ho Hg].
  assert (Hws : workers (main_init E fl w0) = [] /\ sent (main_init E fl w0) = []).
  { unfold main_init.
    now destruct (main_startup E fl _) as [[[[t config] bA]|c] x]. }
  destruct Hws as [Hws Hsent].
  constructor; intros _; rewrite ?Ho, ?Hg, ?Hd, Hws, Hsent; reflexivity.
Qed.

Lemma exec_Inv4 {W} (E : Env W) (fl : Flags) (w0 : W) t config bA x
    (acts : list Action) :
  main_startup E fl {| world := w0; trace := [] |} = (Ok (t, config, bA), x) ->
  Inv4 (exec E acts (main_init E fl w0)).
Proof.
  intros Hstart.
  apply (exec_ind_Good E (Attendees config));
    [|eapply Good_main_init; eauto | apply Inv4_main_init].
  intros a s s' (HI & HQ & _) H4 _ HS. eapply Inv4_Step; eauto.
Qed.

Lemma exec_elapsed {W} (E : Env W) (fl : Flags) (w0 : W) (acts : list Action) :
  elapsed_inv (exec E acts (main_init E fl w0)).
Proof.
  pose proof (startup_no_elapsed _ (main_init_trace E fl w0)) as H.
  destruct (main_startup E fl {| world := w0; trace := [] |})
    as [[[[t config] bA]|c0] x] eqn:Hstart.
  - apply (exec_ind_Good E (Attendees config)).
    + intros a s s' (_ & _ & H5 & _) He Hrun HS. eapply elapsed_inv_Step; eauto.
    + eapply Good_main_init; eauto.
    + unfold elapsed_inv.
      replace (status (main_init E fl w0)) with (@None Z); [exact H|].
      unfold main_init. now rewrite Hstart.
  - pose proof (main_init_failed E fl w0 _ _ Hstart) as Hf.
    rewrite (exec_exited E acts _ _ Hf). unfold elapsed_inv. now rewrite Hf.
Qed.

(** What holds when the process has exited with status 0. *)
Lemma at_exit0 {W} (E : Env W) (fl : Flags) (w0 : W) t config bA x
    (acts : list Action) :
  main_startup E fl {| world := w0; trace := [] |} = (Ok (t, config, bA), x) ->
  let s := exec E acts (main_init E fl w0) in
  status s = Some 0 ->
  closed s = true /\
  length (workers s) = length (Attendees config) /\
  length (sent s) = length (Attendees config) /\
  (forall pc, pc ∈ workers s -> pc = WDone).
Proof.
  intros Hstart s Hexit.
  pose proof (Good_main_init E fl w0 _ _ _ _ Hstart) as HG0.
  destruct (Good_exec E _ acts _ HG0)
    as ([_ _ HC HD _] & [QA _ _ QD _] & _). fold s in HC, HD, QA, QD.
  destruct (Inv_main_init E fl w0) as (atts & _ & Hatts).
  destruct (Hatts _ _ _ _ Hstart) as (_ & _ & Hrun).
  destruct (exec_exit0 E _ acts _ HG0 Hrun Hexit) as [Hpc Hwg]. fold s in Hpc, Hwg.
  rewrite Hpc in *. simpl in *. rewrite app_nil_r in HD.
  assert (Hlen : length (sent s) = length (Attendees config))
    by (now rewrite HD, length_map).
  pose proof (sum_list_with_le_length w_done (workers s) w_done_le_1).
  repeat split; auto; try lia.
  apply all_done_workers. lia.
Qed.

(** X4.  When the process exits with status 0 the channel is closed, one
    worker per attendee was started and every worker has returned; the
    elapsed-time line is the last event and was printed once.  In any other
    state no elapsed-time line has been printed. *)
Theorem normal_exit_leaves_no_goroutine_behind :
  forall (W : Type) (E : Env W) (fl : Flags) (w0 : W) (t : Time)
         (config : Config) (bA : PriceGraphArgs) (x : St W) (acts : list Action),
    main_startup E fl {| world := w0; trace := [] |} = (Ok (t, config, bA), x) ->
    let s := exec E acts (main_init E fl w0) in
    (status s = Some 0 ->
     closed s = true /\
     length (workers s) = length (Attendees config) /\
     (forall pc, pc ∈ workers s -> pc = WDone) /\
     exists pre d,
       trace (st s) = pre ++ [EvPrintElapsed d] /\
       forall d', EvPrintElapsed d' ∉ pre) /\
    (forall d, EvPrintElapsed d ∈ trace (st s) -> status s = Some 0).
Proof.
  intros W E fl w0 t config bA x acts Hstart s.
  pose proof (exec_elapsed E fl w0 acts) as He. fold s in He.
  unfold elapsed_inv in He. split.
  - intros Hexit.
    destruct (at_exit0 E fl w0 _ _ _ _ acts Hstart Hexit) as (Hc & Hl & _ & Hd).
    fold s in Hc, Hl, Hd. rewrite Hexit in He.
    destruct He as (pre & d & Htr & Hpre).
    repeat split; auto. exists pre, d. split; [exact Htr|].
    intros d' Hin. apply list_elem_of_In in Hin.
    rewrite forallb_forall in Hpre. specialize (Hpre _ Hin). discriminate.
  - intros d Hin.
    destruct (status s) as [[| |]|] eqn:Hst; try reflexivity;
      apply list_elem_of_In in Hin; rewrite forallb_forall in He;
      specialize (He _ Hin); discriminate.
Qed.

Lemma X4_witness_two_pairs :
  let s := exec scripted sched_two_pairs
             (main_init scripted flags_IST world_two_pairs) in
  status s = Some 0 /\ workers s = [WDone] /\
  exists pre d, trace (st s) = pre ++ [EvPrintElapsed d].
Proof.
  cbv zeta.
  destruct (main_startup scripted flags_IST
              {| world := world_two_pairs; trace := [] |})
    as [[[[t config] bA]|c] x] eqn:Hstart; [|discriminate Hstart].
  assert (Hexit : status (exec scripted sched_two_pairs
                            (main_init scripted flags_IST world_two_pairs))
                  = Some 0) by (vm_compute; reflexivity).
  destruct (normal_exit_leaves_no_goroutine_behind Script scripted flags_IST
              world_two_pairs t config bA x sched_two_pairs Hstart) as [H _].
  destruct (H Hexit) as (_ & _ & _ & pre & d & Htr & _).
  split; [exact Hexit|]. split; [vm_compute; reflexivity | eauto].
Defined.

(** X5.  A run on N attendees that ends with status 0 has made exactly N
    calls of [GetPriceGraph] and exactly N + P calls of [GetOffers], where P
    is the number of date pairs the price graph returned: one probe per
    attendee and one call per date pair. *)
Theorem calls_made_by_a_run_that_ends_normally :
  forall (W : Type) (E : Env W) (fl : Flags) (w0 : W) (t : Time)
         (config : Config) (bA : PriceGraphArgs) (x : St W) (acts : list Action),
    main_startup E fl {| world := w0; trace := [] |} = (Ok (t, config, bA), x) ->
    let s := exec E acts (main_init E fl w0) in
    status s = Some 0 ->
    graph_calls (trace (st s)) = length (Attendees config) /\
    offers_calls (trace (st s))
    = (length (Attendees config) + date_pairs (trace (st s)))%nat.
Proof.
  intros W E fl w0 t config bA x acts Hstart s Hexit.
  destruct (at_exit0 E fl w0 _ _ _ _ acts Hstart Hexit) as (_ & _ & Hl & Hd).
  fold s in Hl, Hd.
  pose proof (all_done_sum w_got _ eq_refl Hd) as Hg.
  pose proof (all_done_sum w_classed _ eq_refl Hd) as Hc.
  pose proof (all_done_sum w_fcalls _ eq_refl Hd) as Hf.
  pose proof (all_done_sum w_exiting _ eq_refl Hd) as Hx.
  destruct (exec_Inv4 E fl w0 _ _ _ _ acts Hstart) as [HO HG]. fold s in HO, HG.
  destruct (Good_exec E _ acts _ (Good_main_init E fl w0 _ _ _ _ Hstart))
    as (_ & _ & [_ HN] & _). fold s in HN.
  assert (Hn : failed_calls (trace (st s)) = 0%nat) by lia.
  specialize (HO Hn). specialize (HG Hn). lia.
Qed.

Lemma X5_witness_two_pairs :
  let s := exec scripted sched_two_pairs
             (main_init scripted flags_IST world_two_pairs) in
  status s = Some 0 /\
  graph_calls (trace (st s)) = 1%nat /\ offers_calls (trace (st s)) = 3%nat.
Proof.
  cbv zeta.
  destruct (main_startup scripted flags_IST
              {| world := world_two_pairs; trace := [] |})
    as [[[[t config] bA]|c] x] eqn:Hstart; [|discriminate Hstart].
  assert (Hexit : status (exec scripted sched_two_pairs
                            (main_init scripted flags_IST world_two_pairs))
                  = Some 0) by (vm_compute; reflexivity).
  destruct (calls_made_by_a_run_that_ends_normally Script scripted flags_IST
              world_two_pairs t config bA x sched_two_pairs Hstart Hexit)
    as [Hg Ho].
  injection Hstart as _ <- _ _.
  split; [exact Hexit|]. split; [exact Hg|]. rewrite Ho.
  vm_compute. reflexivity.
Defined.

(** X3.  The queries sent are at every moment a prefix of the attendees'
    queries, in the order of the configuration, and when the channel is
    closed all of them were sent.  No worker returns before the channel is
    closed.  The workers started are never more than the attendees and
    never fewer than the queries sent. *)
Theorem channel_is_closed_after_the_last_query :
  forall (W : Type) (E : Env W) (fl : Flags) (w0 : W) (t : Time)
         (config : Config) (bA : PriceGraphArgs) (x : St W) (acts : list Action),
    main_startup E fl {| world := w0; trace := [] |} = (Ok (t, config, bA), x) ->
    let s := exec E acts (main_init E fl w0) in
    (exists rest,
        map (attendee_args bA) (Attendees config) = sent s ++ rest /\
        (closed s = true -> rest = [])) /\
    (forall w, workers s !! w = Some WDone -> closed s = true) /\
    (length (sent s) <= length (workers s) <= length (Attendees config))%nat.
Proof.
  intros W E fl w0 t config bA x acts Hstart s.
  destruct (Good_exec E _ acts _ (Good_main_init E fl w0 _ _ _ _ Hstart))
    as ([_ _ _ HD _] & [QA QB _ QD _] & _). fold s in HD, QA, QB, QD.
  assert (Hb : baseArgs s = bA).
  { unfold s. rewrite exec_baseArgs.
    destruct (Inv_main_init E fl w0) as (atts & _ & Hatts).
    now destruct (Hatts _ _ _ _ Hstart) as (_ & Hb & _). }
  rewrite Hb in HD.
  assert (Hlen : (length (sent s) + length (todo bA (mainpc s))
                  = length (Attendees config))%nat).
  { rewrite <- length_app, HD. apply length_map. }
  split; [|split].
  - exists (todo bA (mainpc s)). split; [now rewrite HD|].
    intros Hc. rewrite Hc in QA. now destruct (mainpc s).
  - intros w Hw. destruct (closed s); [reflexivity|].
    pose proof (sum_list_with_lookup w_done _ _ _ Hw) as Hle. simpl in Hle.
    rewrite (QB eq_refl) in Hle. lia.
  - rewrite QD. destruct (mainpc s); simpl in *; lia.
Qed.

Lemma X3_witness_two_pairs :
  let s := exec scripted sched_two_pairs
             (main_init scripted flags_IST world_two_pairs) in
  closed s = true /\
  (length (sent s) <= length (workers s) <= length (Attendees config_NYC))%nat.
Proof.
  cbv zeta.
  destruct (main_startup scripted flags_IST
              {| world := world_two_pairs; trace := [] |})
    as [[[[t config] bA]|c] x] eqn:Hstart; [|discriminate Hstart].
  destruct (channel_is_closed_after_the_last_query Script scripted flags_IST
              world_two_pairs t config bA x sched_two_pairs Hstart)
    as (_ & _ & Hlen).
  injection Hstart as _ <- _ _.
  split; [vm_compute; reflexivity | exact Hlen].
Defined.

(** X8.  At every moment of every run, a failing one included, the lines
    printed plus the [GetActualOffers] goroutines that have not returned
    are as many as the date pairs returned so far; so there are never more
    lines than date pairs. *)
Theorem lines_never_exceed_date_pairs :
  forall (W : Type) (E : Env W) (fl : Flags) (w0 : W) (acts : list Action),
    let s := exec E acts (main_init E fl w0) in
    (best_lines (trace (st s)) + sum_list_with w_pending (workers s)
     = date_pairs (trace (st s)))%nat /\
    (best_lines (trace (st s)) <= date_pairs (trace (st s)))%nat.
Proof.
  intros W E fl w0 acts s.
  destruct (Inv_main_init E fl w0) as (atts & Hinv & _).
  pose proof (exec_Inv E _ acts _ Hinv) as [HA _ _ _ _]. fold s in HA. lia.
Qed.

(** X9.  The start of [main], check by check, in the order of the code.
    Before the loop no query is sent, no worker is started and the pricing
    service is not called.  Then:
    - when [flag.Parse()] ends the process, it ends with that status, the
      clock read once and nothing else touched;
    - when a flag is missing, status 1, nothing else touched;
    - when [conf.yml] cannot be read, status 1: the session is not created
      (the world is the one the reading left);
    - when the session cannot be created, status 1, whatever the dates
      are: the dates are looked at after the session;
    - when the session is created, the process goes on exactly when both
      dates parse, and otherwise ends with status 1; the session was
      created before the dates were found wrong;
    - when it goes on, [main] is at the head of its loop over the
      attendees, with the counter of [ProcessorWg] at their number and the
      base query of lines 214-225. *)
Theorem startup_checks_in_order :
  forall (W : Type) (E : Env W) (flag_Parse : list string -> outcome Flags)
         (args : list string) (w0 : W),
    let s := main_init_from_args E flag_Parse args w0 in
    let w1 := (time_Now E w0).2 in
    (sent s = [] /\ workers s = [] /\
     offers_calls (trace (st s)) = 0%nat /\ graph_calls (trace (st s)) = 0%nat) /\
    (forall c, flag_Parse args = Exit c ->
       status s = Some c /\ st s = {| world := w1; trace := [] |}) /\
    (forall fl, flag_Parse args = Ok fl ->
       (flags_missing fl = true ->
        status s = Some 1 /\ st s = {| world := w1; trace := [] |}) /\
       (flags_missing fl = false ->
        (forall e w2, conf_yml E w1 = (Err e, w2) ->
           status s = Some 1 /\
           st s = {| world := w2; trace := [EvImportConfig false] |}) /\
        (forall config w2, conf_yml E w1 = (Res config, w2) ->
           (forall e w3, flights_New E w2 = (Err e, w3) ->
              status s = Some 1 /\
              st s = {| world := w3;
                        trace := [EvImportConfig true; EvFlightsNew (Err e)] |}) /\
           (forall u w3, flights_New E w2 = (Res u, w3) ->
              st s = {| world := w3;
                        trace := [EvImportConfig true; EvFlightsNew (Res u)] |} /\
              (status s = None <->
               exists d1 d2,
                 time_Parse E "2006-01-02" (startDate fl) = Res d1 /\
                 time_Parse E "2006-01-02" (endDate fl) = Res d2) /\
              (status s <> None -> status s = Some 1) /\
              (forall d1 d2,
                  time_Parse E "2006-01-02" (startDate fl) = Res d1 ->
                  time_Parse E "2006-01-02" (endDate fl) = Res d2 ->
                  mainpc s = MLoop (Attendees config) /\
                  closed s = false /\
                  ProcessorWg s = Z.of_nat (length (Attendees config)) /\
                  t_start s = (time_Now E w0).1 /\
                  RangeStartDate (baseArgs s) = d1 /\
                  RangeEndDate (baseArgs s) = d2 /\
                  TripLength (baseArgs s) = nights fl /\
                  PSrcCities (baseArgs s) = [] /\
                  PDstCities (baseArgs s) = [destination fl] /\
                  POptions (baseArgs s)
                  = {| OTravelers := {| Adults := 0 |}; Currency := USD;
                       OStops := Stop2; OClass := ClassUnset;
                       OTripType := RoundTrip; Lang := English |}))))).
Proof.
  intros W E flag_Parse args w0 s w1. unfold s, w1, main_init_from_args.
  unfold_M. cbn.
  destruct (time_Now E w0) as [t w1']. cbn.
  destruct (flag_Parse args) as [fl|c0]; cbn.
  2:{ split; [auto|]. split; [|discriminate].
      intros c [= <-]. auto. }
  destruct (flags_missing fl) eqn:Hmiss; cbn.
  { split; [auto|]. split; [discriminate|].
    intros fl' [= <-]. rewrite Hmiss. split; [auto | discriminate]. }
  destruct (conf_yml E w1') as [[config|e] w2] eqn:Hconf; cbn.
  2:{ split; [auto|]. split; [discriminate|].
      intros fl' [= <-]. rewrite Hmiss. split; [discriminate|]. intros _.
      split; [|discriminate]. intros e' w2' [= <- <-]. auto. }
  destruct (flights_New E w2) as [[u|e] w3] eqn:Hnew; cbn.
  2:{ split; [auto|]. split; [discriminate|].
      intros fl' [= <-]. rewrite Hmiss. split; [discriminate|]. intros _.
      split; [discriminate|]. intros config' w2' [= <- <-]. rewrite Hnew.
      split; [|discriminate]. intros e' w3' [= <- <-]. auto. }
  destruct (time_Parse E "2006-01-02" (startDate fl)) as [d1|e] eqn:H1; cbn.
  2:{ split; [auto|]. split; [discriminate|].
      intros fl' [= <-]. rewrite Hmiss. split; [discriminate|]. intros _.
      split; [discriminate|]. intros config' w2' [= <- <-]. rewrite Hnew.
      split; [discriminate|]. intros u' w3' [= <- <-]. rewrite H1.
      split; [reflexivity|]. split; [|split].
      - split; [discriminate|]. intros (? & ? & Hd & _). discriminate Hd.
      - reflexivity.
      - discriminate. }
  destruct (time_Parse E "2006-01-02" (endDate fl)) as [d2|e] eqn:H2; cbn.
  2:{ split; [auto|]. split; [discriminate|].
      intros fl' [= <-]. rewrite Hmiss. split; [discriminate|]. intros _.
      split; [discriminate|]. intros config' w2' [= <- <-]. rewrite Hnew.
      split; [discriminate|]. intros u' w3' [= <- <-]. rewrite H1, H2.
      split; [reflexivity|]. split; [|split].
      - split; [discriminate|]. intros (? & ? & _ & Hd). discriminate Hd.
      - reflexivity.
      - discriminate. }
  split; [auto|]. split; [discriminate|].
  intros fl' [= <-]. rewrite Hmiss. split; [discriminate|]. intros _.
  split; [discriminate|]. intros config' w2' [= <- <-]. rewrite Hnew.
  split; [discriminate|]. intros u' w3' [= <- <-]. rewrite H1, H2.
  split; [reflexivity|]. split; [|split].
  - split; [eauto | reflexivity].
  - intros Hc. now contradiction Hc.
  - intros ? ? [= <-] [= <-]. repeat split.
Qed.
